(** * N_SpeechBubbles: a shallow embedding of the plugin and its properties

    The development follows the plugin source (version 1.1.2): the
    [Window_Bubble] class, the [show] plugin command, the [Scene_Map],
    [Game_Player] and [Game_Interpreter] hooks.  JavaScript objects live in
    explicit stores, exceptions are completions of a state monad that keeps
    the mutations done before the throw, and numbers are IEEE 754 binary64
    values. *)

From Stdlib Require Import ZArith Lia Bool Ascii String.
From Stdlib Require Import SpecFloat.
From stdpp Require Import base option list gmap strings pretty sorting.

Local Open Scope Z_scope.

(** ** JavaScript numbers *)

Module Num.

(** A JavaScript [Number] is a binary64 float. *)
Definition number : Type := spec_float.

Definition prec : Z := 53.
Definition emax : Z := 1024.

Definition add : number → number → number := SFadd prec emax.
Definition sub : number → number → number := SFsub prec emax.
Definition mul : number → number → number := SFmul prec emax.
Definition div : number → number → number := SFdiv prec emax.

(** [a <= b], [a < b] and [a === b] on numbers. *)
Definition leb : number → number → bool := SFleb.
Definition ltb : number → number → bool := SFltb.
Definition eqb : number → number → bool := SFeqb.

Definition NaN : number := S754_nan.

(** The number denoted by an integer literal. *)
Definition ofZ (z : Z) : number := binary_normalize prec emax z 0 false.

(** [ToBoolean]: a number is falsy when it is [+0], [-0] or [NaN]. *)
Definition truthy (x : number) : bool :=
  match x with
  | S754_zero _ | S754_nan => false
  | _ => true
  end.

(** [a || b] on numbers. *)
Definition or (a b : number) : number := if truthy a then a else b.

(** Truncation of a finite number towards zero. *)
Definition truncate (x : number) : Z :=
  match x with
  | S754_finite s m e =>
      let a := match e with
               | Zneg p => Z.shiftr (Zpos m) (Zpos p)
               | _ => Z.shiftl (Zpos m) e
               end in
      if s then - a else a
  | _ => 0
  end.

(** [ToInt32]: [NaN], zeros and infinities give 0; other numbers are
    truncated and wrapped into the signed 32-bit range. *)
Definition toInt32 (x : number) : Z :=
  let k := (truncate x) mod 2 ^ 32 in
  if 2 ^ 31 <=? k then k - 2 ^ 32 else k.

End Num.

Abbreviation number := Num.number.

(** ** Values and the host engine *)

(** Values that reach the plugin as bubble targets: the result of a lookup
    in the engine's tables.  Characters are compared by identity, which for
    the characters of one map is their kind and index. *)
Inductive value :=
  | VUndefined
  | VNull
  | VEvent (eventId : Z)          (* a Game_Event *)
  | VFollower (memberIndex : Z)   (* a Game_Follower *)
  | VPlayer                       (* $gamePlayer *)
  | VOther (truthy : bool).       (* anything else, e.g. an inherited property *)

Global Instance value_eq_dec : EqDecision value.
Proof. solve_decision. Defined.

(** [ToBoolean] of a value. *)
Definition truthyValue (v : value) : bool :=
  match v with
  | VUndefined | VNull => false
  | VOther t => t
  | _ => true
  end.

(** [a || b] on values. *)
Definition orValue (a b : value) : value := if truthyValue a then a else b.

(** A scene object, by identity. *)
Definition Scene : Type := nat.

Record Sprite := mkSprite {
  _character : value;
  spriteX : number;
  spriteY : number;
  spriteHeight : number
}.

(** The value of a notetag: [<key>] gives [true], [<key:text>] the text. *)
Inductive metaValue := MetaTrue | MetaText (s : string).

(** A map event as [$gameMap.events()] lists it: its id and its database
    entry [e.event()] (absent, or an object with its [meta] table). *)
Record MapEvent := mkMapEvent {
  mapEventId : Z;
  event : option (gmap string metaValue)
}.

(** The part of a text state that [flushTextState] reads. *)
Record TextState := mkTextState {
  buffer : string;
  rtl : bool
}.

(** What the plugin reads from the engine and the platform.  None of it is
    written by the plugin; it may differ from one call to the next. *)
Record Host := mkHost {
  _events : string → value;            (* $gameMap._events[key] *)
  events : list MapEvent;              (* $gameMap.events() *)
  followerData : string → value;       (* $gamePlayer.followers().follower(key) *)
  variableValue : string → string;     (* $gameVariables.value(key), as a property key *)
  _scene : Scene;                      (* SceneManager._scene *)
  _characterSprites : list Sprite;     (* SceneManager._scene._spriteset._characterSprites *)
  windowPadding : Z;                   (* $gameSystem.windowPadding() *)
  _realX : number;                     (* $gamePlayer._realX *)
  _realY : number;                     (* $gamePlayer._realY *)
  characterX : value → number;         (* character.x *)
  characterY : value → number;         (* character.y *)
  Distance : number;                   (* parameters.Distance *)
  textSizeEx : string → Z * Z;         (* Window_Base.textSizeEx: width and height *)
  textStates : string → list TextState;(* the text states drawTextEx flushes, in order *)
  toNumber : string → number           (* Number(string) *)
}.

(** [parameters.Distance = Number(parameters.Distance) || 2]. *)
Definition loadDistance (raw : number) : number := Num.or raw (Num.ofZ 2).

(** ** The plugin's state *)

Record Bubble := mkBubble {
  targetCharacter : value;
  textLength : Z;
  width : Z;
  height : Z;
  x : number;
  y : number;
  parent : option Scene;
  visible : bool
}.

Record Interpreter := mkInterpreter {
  _eventId : Z;
  _waitMode : string
}.

(** A pending [setTimeout]: the bubble whose [remove] it calls, the delay
    it was given and the model time at which it fires. *)
Record Timer := mkTimer {
  handler : nat;
  timeout : number;
  due : Z
}.

Record State := mkState {
  bubbles : gmap nat Bubble;               (* the Window_Bubble objects, by identity *)
  nextBubble : nat;                        (* identity of the next object *)
  activeBubbles : gmap string (list nat);  (* Window_Bubble.activeBubbles *)
  speechBubbles : list nat;                (* the notetag bubbles *)
  blockingSpeechBubble : option nat;
  currentInterpreter : option nat;
  interpreters : gmap nat Interpreter;     (* the Game_Interpreter objects *)
  timers : list Timer;                     (* pending timeouts, by due time *)
  clock : Z                                (* model time, in milliseconds *)
}.

Definition initial (interps : gmap nat Interpreter) : State :=
  mkState ∅ 0 ∅ [] None None interps [] 0.

Definition set_bubbles (f : gmap nat Bubble → gmap nat Bubble) (s : State) : State :=
  mkState (f (bubbles s)) (nextBubble s) (activeBubbles s) (speechBubbles s)
    (blockingSpeechBubble s) (currentInterpreter s) (interpreters s) (timers s) (clock s).
Definition set_nextBubble (f : nat → nat) (s : State) : State :=
  mkState (bubbles s) (f (nextBubble s)) (activeBubbles s) (speechBubbles s)
    (blockingSpeechBubble s) (currentInterpreter s) (interpreters s) (timers s) (clock s).
Definition set_activeBubbles
    (f : gmap string (list nat) → gmap string (list nat)) (s : State) : State :=
  mkState (bubbles s) (nextBubble s) (f (activeBubbles s)) (speechBubbles s)
    (blockingSpeechBubble s) (currentInterpreter s) (interpreters s) (timers s) (clock s).
Definition set_speechBubbles (f : list nat → list nat) (s : State) : State :=
  mkState (bubbles s) (nextBubble s) (activeBubbles s) (f (speechBubbles s))
    (blockingSpeechBubble s) (currentInterpreter s) (interpreters s) (timers s) (clock s).
Definition set_blockingSpeechBubble (v : option nat) (s : State) : State :=
  mkState (bubbles s) (nextBubble s) (activeBubbles s) (speechBubbles s)
    v (currentInterpreter s) (interpreters s) (timers s) (clock s).
Definition set_currentInterpreter (v : option nat) (s : State) : State :=
  mkState (bubbles s) (nextBubble s) (activeBubbles s) (speechBubbles s)
    (blockingSpeechBubble s) v (interpreters s) (timers s) (clock s).
Definition set_interpreters
    (f : gmap nat Interpreter → gmap nat Interpreter) (s : State) : State :=
  mkState (bubbles s) (nextBubble s) (activeBubbles s) (speechBubbles s)
    (blockingSpeechBubble s) (currentInterpreter s) (f (interpreters s)) (timers s) (clock s).
Definition set_timers (f : list Timer → list Timer) (s : State) : State :=
  mkState (bubbles s) (nextBubble s) (activeBubbles s) (speechBubbles s)
    (blockingSpeechBubble s) (currentInterpreter s) (interpreters s) (f (timers s)) (clock s).
Definition set_clock (f : Z → Z) (s : State) : State :=
  mkState (bubbles s) (nextBubble s) (activeBubbles s) (speechBubbles s)
    (blockingSpeechBubble s) (currentInterpreter s) (interpreters s) (timers s) (f (clock s)).

Definition set_position (px py : number) (w : Bubble) : Bubble :=
  mkBubble (targetCharacter w) (textLength w) (width w) (height w) px py (parent w) (visible w).
Definition set_parent (p : option Scene) (w : Bubble) : Bubble :=
  mkBubble (targetCharacter w) (textLength w) (width w) (height w) (x w) (y w) p (visible w).
Definition set_visible (v : bool) (w : Bubble) : Bubble :=
  mkBubble (targetCharacter w) (textLength w) (width w) (height w) (x w) (y w) (parent w) v.

(** ** Completions and the state monad *)

Inductive error := TypeError.

Inductive completion (A : Type) :=
  | Normal (a : A)
  | Throw (e : error).
Arguments Normal {A} a.
Arguments Throw {A} e.

(** A computation returns or throws, and in both cases leaves a state: what
    was written before an exception stays written. *)
Definition M (A : Type) : Type := State → completion A * State.

Definition ret {A} (a : A) : M A := λ s, (Normal a, s).
Definition throw {A} (e : error) : M A := λ s, (Throw e, s).
Definition bind {A B} (m : M A) (k : A → M B) : M B :=
  λ s, match m s with
       | (Normal a, s') => k a s'
       | (Throw e, s') => (Throw e, s')
       end.
Definition get : M State := λ s, (Normal s, s).
Definition modify (f : State → State) : M unit := λ s, (Normal tt, f s).
Definition lift {A} (c : completion A) : M A := λ s, (c, s).

Notation "'let*' x ':=' m 'in' k" := (bind m (λ x, k))
  (at level 10, x pattern, m at level 100, k at level 200).
Notation "m '>>' k" := (bind m (λ _, k))
  (at level 100, k at level 200, right associativity).

(** [for (const a of l) f(a)], over a snapshot of [l]. *)
Fixpoint forEach {A} (l : list A) (f : A → M unit) : M unit :=
  match l with
  | [] => ret tt
  | a :: l' => f a >> forEach l' f
  end.

(** ** Window_Bubble *)

Module Window_Bubble.

(** Dereference of a bubble object.  JavaScript cannot hold a reference to
    an object that was never created; the embedding makes such a use fail. *)
Definition this (b : nat) : M Bubble :=
  λ s, match bubbles s !! b with
       | Some w => (Normal w, s)
       | None => (Throw TypeError, s)
       end.

(** Assignment to fields of bubble [b]. *)
Definition assign (b : nat) (f : Bubble → Bubble) : M unit :=
  modify (set_bubbles (alter f b)).

(** [get targetId]: the table of the getter has an entry for the three
    character classes; the call fails on [undefined] and [null] (no
    [constructor]) and on any other value (no entry to call). *)
Definition targetId (c : value) : completion string :=
  match c with
  | VEvent eventId => Normal ("e" +:+ pretty eventId)
  | VFollower memberIndex => Normal ("f" +:+ pretty memberIndex)
  | VPlayer => Normal "p"
  | VUndefined | VNull | VOther _ => Throw TypeError
  end.

(** [getRectForText]: width and height of the rectangle; [%] is the
    remainder that takes the sign of the dividend. *)
Definition getRectForText (h : Host) (text : string) : Z * Z :=
  let textDimensions := textSizeEx h text in
  let width := fst textDimensions + windowPadding h * 2 in
  let height := snd textDimensions + windowPadding h * 2 in
  (width + Z.rem width 2, height + Z.rem height 2).

(** [flushTextState], on the running [textLength]. *)
Definition flushTextState (len : Z) (textState : TextState) : Z :=
  len + (Z.of_nat (String.length (buffer textState)) - (if rtl textState then 1 else 0)).

(** [new Window_Bubble(targetCharacter, text)]; returns the new object. *)
Definition initialize (h : Host) (target : value) (text : string) : M nat :=
  let rect := getRectForText h text in
  let* tid := lift (targetId target) in
  let* s := get in
  (match activeBubbles s !! tid with
   | None => modify (set_activeBubbles (<[tid := []]>))
   | Some _ => ret tt
   end) >>
  let len := foldl flushTextState 0 (textStates h text) in
  let w := mkBubble target len (fst rect) (snd rect) (Num.ofZ 0) (Num.ofZ 0) None true in
  let b := nextBubble s in
  modify (set_bubbles (<[b := w]>)) >>
  modify (set_nextBubble S) >>
  ret b.

(** [get characterSprite] *)
Definition characterSprite (h : Host) (w : Bubble) : option Sprite :=
  List.find (λ sprite, bool_decide (_character sprite = targetCharacter w))
    (_characterSprites h).

(** [get targetPosition]: fails when the target has no sprite. *)
Definition targetPosition (h : Host) (w : Bubble) : completion (number * number) :=
  match characterSprite h w with
  | None => Throw TypeError
  | Some sprite =>
      Normal (Num.sub (spriteX sprite) (Num.div (Num.ofZ (width w)) (Num.ofZ 2)),
              Num.sub (Num.sub (Num.sub (spriteY sprite) (spriteHeight sprite))
                         (Num.ofZ (height w))) (Num.ofZ 10))
  end.

Definition update (h : Host) (b : nat) : M unit :=
  let* w := this b in
  let* windowPosition := lift (targetPosition h w) in
  assign b (set_position (fst windowPosition) (snd windowPosition)).

Definition isPlayerWithinDistance (h : Host) (b : nat) : M bool :=
  let* w := this b in
  let distance := Distance h in
  let xDist := Num.sub (_realX h) (characterX h (targetCharacter w)) in
  let yDist := Num.sub (_realY h) (characterY h (targetCharacter w)) in
  ret (Num.leb (Num.add (Num.mul xDist xDist) (Num.mul yDist yDist))
         (Num.mul distance distance)).

Definition isActive (b : nat) : M bool :=
  let* w := this b in
  ret (bool_decide (is_Some (parent w))).

(** [get activeBubbles]: the stack of the bubble's target, with its key. *)
Definition activeBubblesOf (b : nat) : M (string * list nat) :=
  let* w := this b in
  let* tid := lift (targetId (targetCharacter w)) in
  let* s := get in
  match activeBubbles s !! tid with
  | Some stack => ret (tid, stack)
  | None => throw TypeError
  end.

(** [get activeBubble]: [this.activeBubbles.slice(-1)[0]]. *)
Definition activeBubble (b : nat) : M (option nat) :=
  let* st := activeBubblesOf b in
  ret (last (snd st)).

Definition isOtherBubbleActive (b : nat) : M bool :=
  let* top := activeBubble b in
  ret (match top with
       | Some c => bool_decide (c ≠ b)
       | None => false
       end).

Definition show (b : nat) : M unit := assign b (set_visible true).
Definition hide (b : nat) : M unit := assign b (set_visible false).

(** [this.activeBubbles.remove(this)]: the engine's [Array.prototype.remove]
    deletes every occurrence. *)
Definition activeBubbles_remove (b : nat) : M unit :=
  let* st := activeBubblesOf b in
  modify (set_activeBubbles (<[fst st := filter (λ c, c ≠ b) (snd st)]>)).

Definition activeBubbles_push (b : nat) : M unit :=
  let* st := activeBubblesOf b in
  modify (set_activeBubbles (<[fst st := snd st ++ [b]]>)).

Definition addTo (h : Host) (b : nat) (scene : Scene) : M unit :=
  let* w := this b in
  match parent w with
  | Some _ => ret tt
  | None =>
      update h b >>
      assign b (set_parent (Some scene)) >>
      activeBubbles_remove b >>
      (let* top := activeBubble b in
       match top with
       | Some c => hide c
       | None => ret tt
       end) >>
      activeBubbles_push b >>
      show b
  end.

Definition remove (b : nat) : M unit :=
  let* w := this b in
  match parent w with
  | None => ret tt
  | Some _ =>
      assign b (set_parent None) >>
      activeBubbles_remove b >>
      let* top := activeBubble b in
      match top with
      | Some c => show c
      | None => ret tt
      end
  end.

End Window_Bubble.

(** ** Timers *)

(** The delay of [setTimeout(f, timeout)] in milliseconds: the argument is
    converted to a 32-bit integer and a negative delay counts as 0. *)
Definition timerDelay (timeout : number) : Z := Z.max 0 (Num.toInt32 timeout).

(** The queue is kept in firing order: by due time, then by registration. *)
Fixpoint enqueue (t : Timer) (q : list Timer) : list Timer :=
  match q with
  | [] => [t]
  | u :: q' => if due u <=? due t then u :: enqueue t q' else t :: u :: q'
  end.

(** [setTimeout(() => { speechBubble.remove(); }, timeout)] *)
Definition setTimeout (b : nat) (timeout : number) : M unit :=
  modify (λ s, set_timers (enqueue (mkTimer b timeout (clock s + timerDelay timeout))) s).

(** One timer fires: its callback runs; an exception of the callback does
    not reach the plugin. *)
Definition fire (s : State) (t : Timer) : State :=
  snd (Window_Bubble.remove (handler t) s).

(** [dt] milliseconds pass: the timers that are due fire in queue order. *)
Definition advance (dt : Z) (s : State) : State :=
  let now := clock s + dt in
  let dueNow := filter (λ t, due t ≤ now) (timers s) in
  let later := filter (λ t, ¬ due t ≤ now) (timers s) in
  foldl fire (set_clock (λ _, now) (set_timers (λ _, later) s)) dueNow.

(** ** The plugin commands *)

Definition WAITMODE_BUBBLE : string := "bubble".
Definition NOTETAG_BUBBLE : string := "bubble".
Definition COMMAND_ARG_TARGET_SELF : string := "This event".
Definition COMMAND_ARG_TARGET_PLAYER : string := "Player".
Definition COMMAND_ARG_TARGET_EVENT : string := "Event".
Definition COMMAND_ARG_TARGET_EVENTBYVAR : string := "Event by variable".
Definition COMMAND_ARG_TARGET_FOLLOWER : string := "Follower".
Definition COMMAND_ARG_TARGET_FOLLOWERBYVAR : string := "Follower by variable".

(** Dereference of an interpreter object. *)
Definition interpreter (i : nat) : M Interpreter :=
  λ s, match interpreters s !! i with
       | Some it => (Normal it, s)
       | None => (Throw TypeError, s)
       end.

(** [interpreter.setWaitMode(mode)] *)
Definition setWaitMode (i : nat) (mode : string) : M unit :=
  interpreter i >>
  modify (set_interpreters (alter (λ it, mkInterpreter (_eventId it) mode) i)).

Definition getPlayer : value := VPlayer.

Definition getCurrentEvent (h : Host) : M value :=
  let* s := get in
  match currentInterpreter s with
  | None => throw TypeError
  | Some i =>
      let* it := interpreter i in
      ret (_events h (pretty (_eventId it)))
  end.

Definition getEventById (h : Host) (id : string) : value := _events h id.

Definition getEventByVar (h : Host) (varId : string) : value :=
  getEventById h (variableValue h varId).

Definition getFollowerById (h : Host) (id : string) : value := followerData h id.

Definition getFollowerByVar (h : Host) (varId : string) : value :=
  getFollowerById h (variableValue h varId).

Definition showBubble (h : Host) (text : string) (target : value)
    (duration : number) (isBlocking : bool) : M unit :=
  let scene := _scene h in
  let* speechBubble := Window_Bubble.initialize h target text in
  Window_Bubble.addTo h speechBubble scene >>
  (let* w := Window_Bubble.this speechBubble in
   setTimeout speechBubble
     (Num.or duration (Num.mul (Num.ofZ (textLength w)) (Num.ofZ 150)))) >>
  if isBlocking then
    modify (set_blockingSpeechBubble (Some speechBubble)) >>
    let* s := get in
    match currentInterpreter s with
    | None => throw TypeError
    | Some i => setWaitMode i WAITMODE_BUBBLE
    end
  else ret tt.

(** The arguments of the [show] command, as the engine passes them. *)
Record ShowArgs := mkShowArgs {
  text : string;
  targetSelector : string;
  targetSelectorId : string;
  durationMs : string;
  isBlocking : string
}.

(** Properties an object literal inherits; each is a function or object. *)
Definition inheritedKeys : list string :=
  [ "constructor"; "hasOwnProperty"; "isPrototypeOf"; "propertyIsEnumerable";
    "toLocaleString"; "toString"; "valueOf"; "__proto__";
    "__defineGetter__"; "__defineSetter__"; "__lookupGetter__"; "__lookupSetter__" ].

(** The object literal of the [show] command: all six entries are computed
    when the literal is built; [currentEvent] is the value of
    [getCurrentEvent()]. *)
Definition selectorEntries (h : Host) (currentEvent : value) (id : string)
    : list (string * value) :=
  [ (COMMAND_ARG_TARGET_SELF, currentEvent);
    (COMMAND_ARG_TARGET_PLAYER, getPlayer);
    (COMMAND_ARG_TARGET_EVENT, getEventById h id);
    (COMMAND_ARG_TARGET_EVENTBYVAR, getEventByVar h id);
    (COMMAND_ARG_TARGET_FOLLOWER, getFollowerById h id);
    (COMMAND_ARG_TARGET_FOLLOWERBYVAR, getFollowerByVar h id) ].

Fixpoint ownProperty (key : string) (entries : list (string * value)) : option value :=
  match entries with
  | [] => None
  | (k, v) :: rest => if String.eqb key k then Some v else ownProperty key rest
  end.

(** [literal[key]]: an own entry, else an inherited property, else
    [undefined]. *)
Definition selectorTable (h : Host) (currentEvent : value) (id : string)
    (key : string) : value :=
  match ownProperty key (selectorEntries h currentEvent id) with
  | Some v => v
  | None => if bool_decide (key ∈ inheritedKeys) then VOther true else VUndefined
  end.

Definition toLowerChar (c : Ascii.ascii) : Ascii.ascii :=
  let n := Ascii.nat_of_ascii c in
  if ((65 <=? n) && (n <=? 90))%nat then Ascii.ascii_of_nat (n + 32) else c.

(** [toLowerCase], on the letters that matter for a comparison with an
    ASCII word. *)
Fixpoint toLowerCase (s : string) : string :=
  match s with
  | EmptyString => EmptyString
  | String c r => String (toLowerChar c) (toLowerCase r)
  end.

(** The handler of the [show] command; [interp] is the interpreter that
    runs it. *)
Definition commandShow (h : Host) (interp : nat) (args : ShowArgs) : M unit :=
  modify (set_currentInterpreter (Some interp)) >>
  let* currentEvent := getCurrentEvent h in
  let target :=
    orValue (selectorTable h currentEvent (targetSelectorId args) (targetSelector args))
            (getEventById h (targetSelector args)) in
  let duration := toNumber h (durationMs args) in
  let blocking := String.eqb (toLowerCase (isBlocking args)) "true" in
  showBubble h (text args) target duration blocking.

(** ** Scene_Map *)

Module Scene_Map.

(** [text.replace(/\\n/g, "\n")]: each backslash followed by [n] becomes a
    line break. *)
Fixpoint replaceNewlines (s : string) : string :=
  match s with
  | EmptyString => EmptyString
  | String c r =>
      match r with
      | String d r' =>
          if (Ascii.eqb c "\"%char && Ascii.eqb d "n"%char)%bool
          then String "010"%char (replaceNewlines r')
          else String c (replaceNewlines r)
      | EmptyString => String c EmptyString
      end
  end.

(** The events whose database entry has the notetag. *)
Definition hasNotetag (e : MapEvent) : bool :=
  match event e with
  | Some meta => bool_decide (is_Some (meta !! NOTETAG_BUBBLE))
  | None => false
  end.

Definition createBubble (h : Host) (e : MapEvent) : M unit :=
  match event e with
  | Some meta =>
      match meta !! NOTETAG_BUBBLE with
      | Some (MetaText t) =>
          let text := replaceNewlines t in
          let* b := Window_Bubble.initialize h (VEvent (mapEventId e)) text in
          modify (set_speechBubbles (λ l, l ++ [b]))
      | _ => throw TypeError
      end
  | None => throw TypeError
  end.

Definition createDisplayObjects (h : Host) : M unit :=
  forEach (filter (λ e, hasNotetag e = true) (events h)) (createBubble h).

Definition terminate : M unit :=
  let* s := get in
  forEach (speechBubbles s) Window_Bubble.remove >>
  modify (set_speechBubbles (λ _, [])).

End Scene_Map.

(** ** Game_Player *)

Module Game_Player.

Definition updateAnimation (h : Host) : M unit :=
  let scene := _scene h in
  let* s := get in
  forEach (speechBubbles s) (λ speechBubble,
    let* within := Window_Bubble.isPlayerWithinDistance h speechBubble in
    let* show :=
      (if within : bool then
         let* other := Window_Bubble.isOtherBubbleActive speechBubble in
         ret (negb other)
       else ret false) in
    if show : bool then Window_Bubble.addTo h speechBubble scene
    else Window_Bubble.remove speechBubble).

End Game_Player.

(** ** Game_Interpreter *)

Module Game_Interpreter.

(** [updateWaitMode] of interpreter [i]; [base] is the engine's method that
    the plugin wraps. *)
Definition updateWaitMode (base : M bool) (i : nat) : M bool :=
  let* it := interpreter i in
  if String.eqb (_waitMode it) WAITMODE_BUBBLE then
    let* s := get in
    match blockingSpeechBubble s with
    | Some b => Window_Bubble.isActive b
    | None => throw TypeError
    end
  else base.

End Game_Interpreter.

(** ** Observations and well-formed states *)

(** The bubble is a child of a scene. *)
Definition attached (s : State) (b : nat) : Prop :=
  ∃ w, bubbles s !! b = Some w ∧ is_Some (parent w).

(** The bubble is on screen: a child of a scene, and not hidden. *)
Definition displayed (s : State) (b : nat) : Prop :=
  ∃ w, bubbles s !! b = Some w ∧ is_Some (parent w) ∧ visible w = true.

(** The bubble's target has identity [tid]. *)
Definition targets (s : State) (b : nat) (tid : string) : Prop :=
  ∃ w, bubbles s !! b = Some w ∧
       Window_Bubble.targetId (targetCharacter w) = Normal tid.

(** The stack [Window_Bubble.activeBubbles[tid]], empty when absent. *)
Definition stackOf (s : State) (tid : string) : list nat :=
  default [] (activeBubbles s !! tid).

(** The shape every state of a run has between two calls of the plugin. *)
Record wf (s : State) : Prop := mkWf {
  wf_fresh : ∀ b, is_Some (bubbles s !! b) → (b < nextBubble s)%nat;
  wf_target : ∀ b w, bubbles s !! b = Some w →
    ∃ tid l, Window_Bubble.targetId (targetCharacter w) = Normal tid ∧
             activeBubbles s !! tid = Some l ∧
             (is_Some (parent w) ↔ b ∈ l);
  wf_stack : ∀ tid l, activeBubbles s !! tid = Some l →
    NoDup l ∧
    ∀ b, b ∈ l →
      ∃ w, bubbles s !! b = Some w ∧
           Window_Bubble.targetId (targetCharacter w) = Normal tid ∧
           (visible w = true ↔ last l = Some b);
  wf_timers : ∀ t, t ∈ timers s → (handler t < nextBubble s)%nat;
  wf_notetag : ∀ b, b ∈ speechBubbles s → (b < nextBubble s)%nat
}.

(** The state after [remove] on an attached bubble whose target has
    identity [tid] and stack [l]. *)
Definition showTop (l : list nat) (m : gmap nat Bubble) : gmap nat Bubble :=
  match last l with
  | Some c => alter (set_visible true) c m
  | None => m
  end.

Definition removed (b : nat) (tid : string) (l : list nat) (s : State) : State :=
  set_bubbles (showTop (filter (λ c, c ≠ b) l))
    (set_activeBubbles (<[tid := filter (λ c, c ≠ b) l]>)
       (set_bubbles (alter (set_parent None) b) s)).

(** The state after [addTo] on a detached bubble placed at [pos]. *)
Definition hideTop (l : list nat) (m : gmap nat Bubble) : gmap nat Bubble :=
  match last l with
  | Some c => alter (set_visible false) c m
  | None => m
  end.

Definition added (b : nat) (scene : Scene) (tid : string) (l : list nat)
    (pos : number * number) (s : State) : State :=
  set_bubbles (alter (set_visible true) b)
    (set_activeBubbles (<[tid := filter (λ c, c ≠ b) l ++ [b]]>)
       (set_bubbles (hideTop (filter (λ c, c ≠ b) l))
          (set_activeBubbles (<[tid := filter (λ c, c ≠ b) l]>)
             (set_bubbles (alter (set_parent (Some scene)) b)
                (set_bubbles (alter (set_position pos.1 pos.2) b) s))))).

(** The state after a successful [new Window_Bubble] on a target with
    identity [tid]. *)
Definition constructed (h : Host) (target : value) (text : string) (tid : string)
    (s : State) : State :=
  set_nextBubble S
    (set_bubbles
       (<[nextBubble s :=
            mkBubble target
              (foldl Window_Bubble.flushTextState 0 (textStates h text))
              (Window_Bubble.getRectForText h text).1
              (Window_Bubble.getRectForText h text).2
              (Num.ofZ 0) (Num.ofZ 0) None true]>)
       (match activeBubbles s !! tid with
        | None => set_activeBubbles (<[tid := []]>) s
        | Some _ => s
        end)).

(** A computation keeps a property of the state, however it completes. *)
Definition preserves {A} (P : State → Prop) (m : M A) : Prop :=
  ∀ s, P s → P (snd (m s)).

(** A computation only reads the state. *)
Definition readonly {A} (m : M A) : Prop := ∀ s, snd (m s) = s.

(** A property of the fields that [addTo] and [remove] never write. *)
Definition framed (P : State → Prop) : Prop :=
  ∀ s s', nextBubble s' = nextBubble s → speechBubbles s' = speechBubbles s →
          timers s' = timers s → clock s' = clock s →
          blockingSpeechBubble s' = blockingSpeechBubble s → P s → P s'.

(** From a state in [P] the computation returns [a] in a state in [Q a],
    or throws in a state in [E]. *)
Definition triple {A} (P : State → Prop) (m : M A) (Q : A → State → Prop)
    (E : State → Prop) : Prop :=
  ∀ s, P s → match m s with
             | (Normal a, s') => Q a s'
             | (Throw _, s') => E s'
             end.

(** ** Runs of the plugin *)

(** One call into the plugin, or time passing.  A call that throws still
    leaves its state behind. *)
Inductive step : State → State → Prop :=
  | step_new h target text s :
      step s (snd (Window_Bubble.initialize h target text s))
  | step_addTo h b scene s :
      step s (snd (Window_Bubble.addTo h b scene s))
  | step_remove b s :
      step s (snd (Window_Bubble.remove b s))
  | step_showBubble h text target duration blocking s :
      step s (snd (showBubble h text target duration blocking s))
  | step_show h interp args s :
      step s (snd (commandShow h interp args s))
  | step_create h s :
      step s (snd (Scene_Map.createDisplayObjects h s))
  | step_terminate s :
      step s (snd (Scene_Map.terminate s))
  | step_tick h s :
      step s (snd (Game_Player.updateAnimation h s))
  | step_engine f s :
      step s (set_interpreters f s)
  | step_advance dt s :
      0 ≤ dt → step s (advance dt s).

Definition reachable (s : State) : Prop :=
  ∃ interps, rtc step (initial interps) s.

(** ** The tick, bubble by bubble *)

(** The body of the loop of [updateAnimation]. *)
Definition visit (h : Host) (speechBubble : nat) : M unit :=
  let* within := Window_Bubble.isPlayerWithinDistance h speechBubble in
  let* show :=
    (if within : bool then
       let* other := Window_Bubble.isOtherBubbleActive speechBubble in
       ret (negb other)
     else ret false) in
  if show : bool then Window_Bubble.addTo h speechBubble (_scene h)
  else Window_Bubble.remove speechBubble.

(** The value of the proximity test for a target. *)
Definition withinDistance (h : Host) (target : value) : bool :=
  let xDist := Num.sub (_realX h) (characterX h target) in
  let yDist := Num.sub (_realY h) (characterY h target) in
  Num.leb (Num.add (Num.mul xDist xDist) (Num.mul yDist yDist))
    (Num.mul (Distance h) (Distance h)).

(** ** Histories of attachment *)

(** A run of the plugin is a sequence of single calls of [new
    Window_Bubble], [addTo] and [remove], and of writes to the plugin's
    other variables.  A call of [addTo] that attaches its bubble is an
    attachment; the log of a run lists the attached bubbles, newest first. *)

Definition isAttached (s : State) (b : nat) : bool :=
  match bubbles s !! b with
  | Some w => bool_decide (is_Some (parent w))
  | None => false
  end.

Definition attachment (s s' : State) (b : nat) : list nat :=
  if isAttached s' b && negb (isAttached s b) then [b] else [].

Inductive call : State → list nat → State → Prop :=
  | call_new h target text s :
      call s [] (snd (Window_Bubble.initialize h target text s))
  | call_addTo h b scene s :
      call s (attachment s (snd (Window_Bubble.addTo h b scene s)) b)
        (snd (Window_Bubble.addTo h b scene s))
  | call_remove b s :
      call s [] (snd (Window_Bubble.remove b s))
  | call_write s s' :
      bubbles s' = bubbles s → activeBubbles s' = activeBubbles s →
      nextBubble s' = nextBubble s →
      (∀ t, t ∈ timers s' → (handler t < nextBubble s')%nat) →
      (∀ b, b ∈ speechBubbles s' → (b < nextBubble s')%nat) →
      call s [] s'.

Inductive calls : State → list nat → State → Prop :=
  | calls_refl s : calls s [] s
  | calls_step s log s' l s'' :
      calls s log s' → call s' l s'' → calls s (l ++ log) s''.

(** [s] is a state of a run whose attachments were [log]. *)
Definition history (log : list nat) (s : State) : Prop :=
  ∃ interps, calls (initial interps) log s.

(** The time of the last attachment of [b] in a log, counted from 1; 0
    when [b] was never attached. *)
Fixpoint rank (log : list nat) (b : nat) : nat :=
  match log with
  | [] => 0
  | c :: older => if decide (c = b) then S (length older) else rank older b
  end.

(** [s] is well formed and follows [s0] by single calls. *)
Definition follows (s0 s : State) : Prop :=
  wf s ∧ ∃ log, calls s0 log s.

(** Every stack lists bubbles that were attached, in the order of their
    last attachment. *)
Definition ordered (log : list nat) (s : State) : Prop :=
  ∀ tid l, activeBubbles s !! tid = Some l →
    StronglySorted (λ x y, (rank log x < rank log y)%nat) l ∧
    ∀ x, x ∈ l → (0 < rank log x)%nat.

(** ** Between a command and the expiry of its bubble *)

(** What the engine and the clock do while no script calls [addTo] or
    [remove] itself: commands, scene loads and teardowns, ticks, writes to
    the interpreters, and time. *)
Inductive ambient : State → State → Prop :=
  | ambient_new h target text s :
      ambient s (snd (Window_Bubble.initialize h target text s))
  | ambient_showBubble h text target duration blocking s :
      ambient s (snd (showBubble h text target duration blocking s))
  | ambient_show h interp args s :
      ambient s (snd (commandShow h interp args s))
  | ambient_create h s :
      ambient s (snd (Scene_Map.createDisplayObjects h s))
  | ambient_terminate s :
      ambient s (snd (Scene_Map.terminate s))
  | ambient_tick h s :
      ambient s (snd (Game_Player.updateAnimation h s))
  | ambient_engine f s :
      ambient s (set_interpreters f s)
  | ambient_advance dt s :
      0 ≤ dt → ambient s (advance dt s).

(** A timer of bubble [b] is pending. *)
Definition pending (b : nat) (s : State) : Prop :=
  ∃ t, t ∈ timers s ∧ handler t = b.

(** A command bubble [b] shown at time [start] whose timer is due at time
    [expiry]: it is not a notetag bubble; it is attached exactly while its
    timer is pending; the timer is pending before [expiry] and gone after,
    and at [expiry] it is pending only at the instant of the command. *)
Record timed (b : nat) (start expiry : Z) (s : State) : Prop := mkTimed {
  timed_wf : wf s;
  timed_old : (b < nextBubble s)%nat;
  timed_command : b ∉ speechBubbles s;
  timed_attached : ∃ w, bubbles s !! b = Some w ∧ (is_Some (parent w) ↔ pending b s);
  timed_due : ∀ t, t ∈ timers s → handler t = b → due t = expiry;
  timed_before : pending b s → clock s < expiry ∨ clock s = start;
  timed_after : ¬ pending b s → expiry ≤ clock s
}.

(** ** A sample game *)

(** A small map used to run the definitions: event 3 carries a notetag, the
    party has one follower, and the player stands two tiles from the event. *)
Module Sample.

Fixpoint digits (s : string) (acc : Z) : option Z :=
  match s with
  | EmptyString => Some acc
  | String c r =>
      let n := Z.of_nat (Ascii.nat_of_ascii c) in
      if (48 <=? n) && (n <=? 57) then digits r (10 * acc + (n - 48)) else None
  end.

(** [Number] on the strings the sample uses: a string of decimal digits is
    its value and a word is [NaN]. *)
Definition decimal (s : string) : number :=
  match digits s 0 with
  | Some z => Num.ofZ z
  | None => Num.NaN
  end.

(** The sample map, with the player at real x coordinate [realX]. *)
Definition hostAt (realX : number) : Host :=
  mkHost
    (λ key, if String.eqb key "3" then VEvent 3 else VUndefined)
    [mkMapEvent 3 (Some {[ NOTETAG_BUBBLE := MetaText "Fine weather today!" ]})]
    (λ key, if String.eqb key "0" then VFollower 0 else VUndefined)
    (λ key, "3")
    7%nat
    [ mkSprite VPlayer (Num.ofZ 100) (Num.ofZ 200) (Num.ofZ 48);
      mkSprite (VEvent 3) (Num.ofZ 196) (Num.ofZ 200) (Num.ofZ 48);
      mkSprite (VFollower 0) (Num.ofZ 52) (Num.ofZ 200) (Num.ofZ 48) ]
    12
    realX (Num.ofZ 5)
    (λ c, match c with VEvent _ => Num.ofZ 7 | _ => Num.ofZ 5 end)
    (λ c, Num.ofZ 5)
    (loadDistance Num.NaN)
    (λ t, (Z.of_nat (String.length t) * 11, 36))
    (λ t, [mkTextState t false])
    decimal.

(** The player two tiles left of event 3, and two and a half tiles. *)
Definition host : Host := hostAt (Num.ofZ 5).
Definition hostFar : Host := hostAt (Num.div (Num.ofZ 9) (Num.ofZ 2)).

(** One interpreter, running event 3. *)
Definition start : State := initial {[ 0%nat := mkInterpreter 3 "" ]}.

Definition run {A} (m : M A) (s : State) : State := snd (m s).

Definition hello : ShowArgs := mkShowArgs "0123456789" "Player" "1" "0" "true".

(** After [new Window_Bubble] for the player. *)
Definition constructed : State :=
  run (Window_Bubble.initialize host VPlayer "0123456789") start.

(** After [show] on the player. *)
Definition shown : State := run (commandShow host 0 hello) start.

(** After the scene then creates its notetag bubbles. *)
Definition loaded : State := run (Scene_Map.createDisplayObjects host) shown.

(** After a tick: the notetag bubble of event 3 is within distance. *)
Definition ticked : State := run (Game_Player.updateAnimation host) loaded.

Definition greeting : ShowArgs := mkShowArgs "Hi" "This event" "1" "500" "false".

(** After a second [show], on event 3, which already has a bubble. *)
Definition crowded : State := run (commandShow host 0 greeting) ticked.

(** Two bubbles constructed for event 3 and not attached. *)
Definition pair : State :=
  run (Window_Bubble.initialize host (VEvent 3) "second")
    (run (Window_Bubble.initialize host (VEvent 3) "first") start).

(** A [show] on a follower that does not exist. *)
Definition lost : ShowArgs := mkShowArgs "Hi" "Follower" "5" "0" "true".

(** A [show] whose duration is not a number. *)
Definition vague : ShowArgs := mkShowArgs "0123456789" "Player" "1" "soon" "true".

End Sample.

(** ** The [script] command *)

(** The handler of the [script] command: [script] is what evaluating the
    text of [args.script] in the scope of the plugin does. *)
Definition commandScript (interp : nat) (script : M unit) : M unit :=
  modify (set_currentInterpreter (Some interp)) >>
  script.

(** ** Objects in use *)

(** Every object identity below [nextBubble] is a bubble, and the tracked
    blocking bubble is one of them. *)
Record sound (s : State) : Prop := mkSound {
  sound_wf : wf s;
  sound_bubble : ∀ b, (b < nextBubble s)%nat → is_Some (bubbles s !! b);
  sound_blocking : ∀ b, blockingSpeechBubble s = Some b → (b < nextBubble s)%nat
}.

(** ** The plugin parameters *)

(** The host after the plugin has loaded its parameters, [raw] being
    [Number(parameters.Distance)]. *)
Definition loadParameters (raw : number) (h : Host) : Host :=
  mkHost (_events h) (events h) (followerData h) (variableValue h) (_scene h)
    (_characterSprites h) (windowPadding h) (_realX h) (_realY h)
    (characterX h) (characterY h) (loadDistance raw)
    (textSizeEx h) (textStates h) (toNumber h).

(** ** What a tick leaves behind *)

(** The branch the loop of [updateAnimation] takes for bubble [c] with
    fields [w] and stack [l]: [addTo] when true, [remove] when false. *)
Definition shows (h : Host) (c : nat) (w : Bubble) (l : list nat) : bool :=
  withinDistance h (targetCharacter w) &&
  negb (match last l with Some d => bool_decide (d ≠ c) | None => false end).

(** The loop has nothing to do for bubble [c]: it is attached when the
    loop would call [addTo], and detached when it would call [remove]. *)
Definition settled (h : Host) (c : nat) (s : State) : Prop :=
  ∃ w tid l,
    bubbles s !! c = Some w ∧
    Window_Bubble.targetId (targetCharacter w) = Normal tid ∧
    activeBubbles s !! tid = Some l ∧
    if shows h c w l then is_Some (parent w) else parent w = None.

(** ** More of the sample game *)

Module Trial.

(** The sample map with other events. *)
Definition withEvents (es : list MapEvent) (h : Host) : Host :=
  mkHost (_events h) es (followerData h) (variableValue h) (_scene h)
    (_characterSprites h) (windowPadding h) (_realX h) (_realY h)
    (characterX h) (characterY h) (Distance h)
    (textSizeEx h) (textStates h) (toNumber h).

(** Event 4 carries the notetag without a text. *)
Definition hostTextless : Host :=
  withEvents
    [ mkMapEvent 3 (Some {[ NOTETAG_BUBBLE := MetaText "Fine weather today!" ]});
      mkMapEvent 4 (Some {[ NOTETAG_BUBBLE := MetaTrue ]});
      mkMapEvent 5 (Some {[ NOTETAG_BUBBLE := MetaText "Hello\nWorld" ]}) ]
    Sample.host.

(** Two interpreters, both running event 3. *)
Definition start2 : State :=
  initial {[ 0%nat := mkInterpreter 3 ""; 1%nat := mkInterpreter 3 "" ]}.

(** A blocking [show] on the event that runs the command, for 3 seconds. *)
Definition remark : ShowArgs :=
  mkShowArgs "A long remark." "This event" "1" "3000" "true".

(** The first interpreter shows a bubble on the player, then the second
    one shows the remark. *)
Definition first : State := Sample.run (commandShow Sample.host 0 Sample.hello) start2.
Definition second : State := Sample.run (commandShow Sample.host 1 remark) first.

(** The remark, then the greeting, both on event 3. *)
Definition remarked : State := Sample.run (commandShow Sample.host 0 remark) Sample.start.
Definition covered : State :=
  Sample.run (commandShow Sample.host 0 Sample.greeting) remarked.

(** A [show] whose text has no visible character. *)
Definition silent : ShowArgs := mkShowArgs "" "Player" "1" "0" "true".

(** The sample map with another measure of texts. *)
Definition withTextSize (f : string → Z * Z) (h : Host) : Host :=
  mkHost (_events h) (events h) (followerData h) (variableValue h) (_scene h)
    (_characterSprites h) (windowPadding h) (_realX h) (_realY h)
    (characterX h) (characterY h) (Distance h)
    f (textStates h) (toNumber h).

(** A font 11 pixels wide and 35 pixels high: both sides of a text of
    odd length are odd before they are rounded. *)
Definition hostOdd : Host :=
  withTextSize (λ t, (Z.of_nat (String.length t) * 11, 35)) Sample.host.

(** After [new Window_Bubble] for the player with a text of three
    characters. *)
Definition oddly : State :=
  Sample.run (Window_Bubble.initialize hostOdd VPlayer "Hi!") Sample.start.

(** The greeting, then the remark, both on event 3. *)
Definition greeted : State :=
  Sample.run (commandShow Sample.host 0 Sample.greeting) Sample.start.
Definition outlasted : State := Sample.run (commandShow Sample.host 0 remark) greeted.

End Trial.

(** * Properties *)

(** ** Geometry *)

Lemma rem2_even (n : Z) : Z.even (n + Z.rem n 2) = true.
Proof.
  pose proof (Z.quot_rem' n 2) as E.
  replace (n + Z.rem n 2) with (2 * (n ÷ 2 + Z.rem n 2)) by lia.
  apply Z.even_mul.
Qed.

Lemma rem2_lower (m p : Z) : 0 ≤ m → 2 * p ≤ (m + p * 2) + Z.rem (m + p * 2) 2.
Proof.
  intros Hm.
  pose proof (Z.quot_rem' (m + p * 2) 2) as E.
  destruct (Z_le_gt_dec 0 (m + p * 2)) as [Hn|Hn].
  - pose proof (Z.rem_bound_pos (m + p * 2) 2 Hn ltac:(lia)). lia.
  - pose proof (Z.rem_bound_pos_neg (m + p * 2) 2 ltac:(lia) ltac:(lia)). lia.
Qed.

Lemma initialize_eq h target text s :
  Window_Bubble.initialize h target text s
  = match Window_Bubble.targetId target with
    | Normal tid => (Normal (nextBubble s), constructed h target text tid s)
    | Throw e => (Throw e, s)
    end.
Proof.
  unfold Window_Bubble.initialize, constructed, bind, lift, get, modify, ret.
  destruct (Window_Bubble.targetId target) as [tid|e]; [|done].
  destruct (activeBubbles s !! tid); done.
Qed.

Lemma rem2_round (n : Z) :
  0 ≤ n → n + Z.rem n 2 = if Z.even n then n else n + 1.
Proof.
  intros Hn. rewrite Z.rem_mod_nonneg by lia. rewrite Zmod_even.
  destruct (Z.even n); lia.
Qed.

(** C7. For a text whose measured width and height are nonnegative
    integers, the width of the bubble that [new Window_Bubble] constructs is
    the measured width plus twice the window padding, and one more when that
    sum is odd; likewise its height.  Both are even and at least twice the
    window padding. *)
Theorem geometry_even_and_padded h target text s b s' :
  0 ≤ fst (textSizeEx h text) →
  0 ≤ snd (textSizeEx h text) →
  Window_Bubble.initialize h target text s = (Normal b, s') →
  let paddedWidth := fst (textSizeEx h text) + windowPadding h * 2 in
  let paddedHeight := snd (textSizeEx h text) + windowPadding h * 2 in
  ∃ w, bubbles s' !! b = Some w ∧
       width w = fst (Window_Bubble.getRectForText h text) ∧
       height w = snd (Window_Bubble.getRectForText h text) ∧
       width w = paddedWidth + Z.rem paddedWidth 2 ∧
       height w = paddedHeight + Z.rem paddedHeight 2 ∧
       (0 ≤ paddedWidth →
          width w = if Z.even paddedWidth then paddedWidth else paddedWidth + 1) ∧
       (0 ≤ paddedHeight →
          height w = if Z.even paddedHeight then paddedHeight else paddedHeight + 1) ∧
       Z.even (width w) = true ∧ Z.even (height w) = true ∧
       2 * windowPadding h ≤ width w ∧ 2 * windowPadding h ≤ height w.
Proof.
  intros Hw Hh Hinit paddedWidth paddedHeight. rewrite initialize_eq in Hinit.
  destruct (Window_Bubble.targetId target) as [tid|e]; [|done].
  injection Hinit as <- <-.
  eexists. split.
  { simpl. apply lookup_insert_eq. }
  subst paddedWidth paddedHeight.
  unfold Window_Bubble.getRectForText; simpl.
  repeat split; auto using rem2_even, rem2_lower; intros Hn; by apply rem2_round.
Qed.

Lemma geometry_even_and_padded_witness :
  ∃ w, bubbles Trial.oddly !! 0%nat = Some w ∧
       fst (textSizeEx Trial.hostOdd "Hi!") = 33 ∧
       snd (textSizeEx Trial.hostOdd "Hi!") = 35 ∧
       windowPadding Trial.hostOdd = 12 ∧
       width w = 58 ∧ height w = 60.
Proof.
  destruct (geometry_even_and_padded Trial.hostOdd VPlayer "Hi!"
              Sample.start 0%nat Trial.oddly)
    as (w & Hw & _ & _ & Hwidth & Hheight & _).
  - vm_compute. discriminate.
  - vm_compute. discriminate.
  - vm_compute. reflexivity.
  - exists w. split; [exact Hw|]. repeat split; [exact Hwidth|exact Hheight].
Defined.

(** ** Proximity *)

Lemma SFcompare_antisym (a b : spec_float) :
  SFcompare b a = CompOpp <$> SFcompare a b.
Proof.
  destruct a as [sa|sa| |sa ma ea], b as [sb|sb| |sb mb eb]; simpl;
    try reflexivity; try (destruct sa; reflexivity); try (destruct sb; reflexivity);
    try (destruct sa, sb; reflexivity).
  pose proof (Pos.compare_cont_antisym ma mb Eq) as E; simpl in E.
  destruct sa, sb; simpl; try reflexivity;
    rewrite (Z.compare_antisym ea eb);
    destruct (ea ?= eb); simpl; try reflexivity;
    rewrite <- E; reflexivity.
Qed.

Lemma eqb_leb (a b : number) : Num.eqb a b = true → Num.leb a b = true.
Proof.
  unfold Num.eqb, Num.leb, SFeqb, SFleb.
  destruct (SFcompare a b) as [[]|]; congruence.
Qed.

Lemma ltb_not_leb (a b : number) : Num.ltb b a = true → Num.leb a b = false.
Proof.
  unfold Num.ltb, Num.leb, SFltb, SFleb.
  rewrite (SFcompare_antisym a b).
  destruct (SFcompare a b) as [[]|]; simpl; congruence.
Qed.

Lemma this_ok b w s : bubbles s !! b = Some w → Window_Bubble.this b s = (Normal w, s).
Proof. unfold Window_Bubble.this. by intros ->. Qed.



(** ** Reasoning about computations *)

Lemma readonly_ret {A} (a : A) : readonly (ret a).
Proof. done. Qed.

Lemma readonly_throw {A} e : readonly (@throw A e).
Proof. done. Qed.

Lemma readonly_lift {A} (c : completion A) : readonly (lift c).
Proof. done. Qed.

Lemma readonly_get : readonly get.
Proof. done. Qed.

Lemma readonly_bind {A B} (m : M A) (k : A → M B) :
  readonly m → (∀ a, readonly (k a)) → readonly (bind m k).
Proof.
  intros Hm Hk s. unfold bind. specialize (Hm s).
  destruct (m s) as [[a|e] s']; simpl in *; subst; [apply Hk|done].
Qed.

Lemma readonly_this b : readonly (Window_Bubble.this b).
Proof. intros s. unfold Window_Bubble.this. by destruct (bubbles s !! b). Qed.

Lemma readonly_interpreter i : readonly (interpreter i).
Proof. intros s. unfold interpreter. by destruct (interpreters s !! i). Qed.

Lemma readonly_activeBubblesOf b : readonly (Window_Bubble.activeBubblesOf b).
Proof.
  apply readonly_bind; [apply readonly_this|]. intros w.
  apply readonly_bind; [apply readonly_lift|]. intros tid.
  apply readonly_bind; [apply readonly_get|]. intros s.
  destruct (activeBubbles s !! tid); [apply readonly_ret|apply readonly_throw].
Qed.

Lemma readonly_activeBubble b : readonly (Window_Bubble.activeBubble b).
Proof.
  apply readonly_bind; [apply readonly_activeBubblesOf|]. intros; apply readonly_ret.
Qed.

Lemma readonly_isOtherBubbleActive b : readonly (Window_Bubble.isOtherBubbleActive b).
Proof.
  apply readonly_bind; [apply readonly_activeBubble|]. intros; apply readonly_ret.
Qed.

Lemma readonly_isPlayerWithinDistance h b :
  readonly (Window_Bubble.isPlayerWithinDistance h b).
Proof.
  apply readonly_bind; [apply readonly_this|]. intros; apply readonly_ret.
Qed.

Lemma readonly_isActive b : readonly (Window_Bubble.isActive b).
Proof.
  apply readonly_bind; [apply readonly_this|]. intros; apply readonly_ret.
Qed.

Lemma readonly_getCurrentEvent h : readonly (getCurrentEvent h).
Proof.
  apply readonly_bind; [apply readonly_get|]. intros s.
  destruct (currentInterpreter s); [|apply readonly_throw].
  apply readonly_bind; [apply readonly_interpreter|]. intros; apply readonly_ret.
Qed.

Lemma preserves_readonly {A} P (m : M A) : readonly m → preserves P m.
Proof. intros Hm s Hs. by rewrite Hm. Qed.

Lemma preserves_bind {A B} P (m : M A) (k : A → M B) :
  preserves P m → (∀ a, preserves P (k a)) → preserves P (bind m k).
Proof.
  intros Hm Hk s Hs. unfold bind. specialize (Hm s Hs).
  destruct (m s) as [[a|e] s']; simpl in *; [by apply Hk|done].
Qed.

Lemma preserves_forEach {A} P (l : list A) (f : A → M unit) :
  (∀ a, a ∈ l → preserves P (f a)) → preserves P (forEach l f).
Proof.
  induction l as [|a l IH]; intros Hf; simpl.
  - by apply preserves_readonly.
  - apply preserves_bind; [apply Hf; left|].
    intros _. apply IH. intros a' Ha'. apply Hf. by right.
Qed.

Lemma preserves_modify P (f : State → State) :
  (∀ s, P s → P (f s)) → preserves P (modify f).
Proof. intros Hf s Hs. by apply Hf. Qed.


(** ** The effect of [addTo] and [remove] *)

Lemma activeBubblesOf_ok b w tid l s :
  bubbles s !! b = Some w →
  Window_Bubble.targetId (targetCharacter w) = Normal tid →
  activeBubbles s !! tid = Some l →
  Window_Bubble.activeBubblesOf b s = (Normal (tid, l), s).
Proof.
  intros Hb Ht Hl. unfold Window_Bubble.activeBubblesOf, bind, lift, get, ret.
  rewrite (this_ok _ _ _ Hb), Ht. simpl. by rewrite Hl.
Qed.

Lemma activeBubble_ok b w tid l s :
  bubbles s !! b = Some w →
  Window_Bubble.targetId (targetCharacter w) = Normal tid →
  activeBubbles s !! tid = Some l →
  Window_Bubble.activeBubble b s = (Normal (last l), s).
Proof.
  intros Hb Ht Hl. unfold Window_Bubble.activeBubble, bind, ret.
  by rewrite (activeBubblesOf_ok _ _ _ _ _ Hb Ht Hl).
Qed.

Lemma remove_detached b w s :
  bubbles s !! b = Some w → parent w = None →
  Window_Bubble.remove b s = (Normal tt, s).
Proof.
  intros Hb Hp. unfold Window_Bubble.remove, bind.
  by rewrite (this_ok _ _ _ Hb), Hp.
Qed.

Lemma remove_dangling b s :
  bubbles s !! b = None → Window_Bubble.remove b s = (Throw TypeError, s).
Proof.
  intros Hb. unfold Window_Bubble.remove, bind, Window_Bubble.this. by rewrite Hb.
Qed.

Lemma remove_attached b w scene tid l s :
  bubbles s !! b = Some w → parent w = Some scene →
  Window_Bubble.targetId (targetCharacter w) = Normal tid →
  activeBubbles s !! tid = Some l →
  Window_Bubble.remove b s = (Normal tt, removed b tid l s).
Proof.
  intros Hb Hp Ht Hl. unfold Window_Bubble.remove, bind at 1.
  rewrite (this_ok _ _ _ Hb), Hp.
  unfold bind at 1. unfold Window_Bubble.assign at 1, modify at 1.
  unfold bind at 1. unfold Window_Bubble.activeBubbles_remove.
  unfold bind at 1.
  erewrite activeBubblesOf_ok; cycle 1.
  { simpl. rewrite lookup_alter_eq, Hb. reflexivity. }
  { exact Ht. }
  { exact Hl. }
  unfold modify at 1. simpl fst; simpl snd.
  unfold bind at 1.
  erewrite activeBubble_ok; cycle 1.
  { simpl. rewrite lookup_alter_eq, Hb. reflexivity. }
  { exact Ht. }
  { simpl. apply lookup_insert_eq. }
  unfold removed, showTop.
  destruct (last (filter (λ c, c ≠ b) l)); reflexivity.
Qed.

Lemma addTo_dangling h b scene s :
  bubbles s !! b = None → Window_Bubble.addTo h b scene s = (Throw TypeError, s).
Proof.
  intros Hb. unfold Window_Bubble.addTo, bind, Window_Bubble.this. by rewrite Hb.
Qed.

Lemma addTo_attached h b w scene s :
  bubbles s !! b = Some w → is_Some (parent w) →
  Window_Bubble.addTo h b scene s = (Normal tt, s).
Proof.
  intros Hb [p Hp]. unfold Window_Bubble.addTo, bind.
  by rewrite (this_ok _ _ _ Hb), Hp.
Qed.

Lemma addTo_no_sprite h b w scene s :
  bubbles s !! b = Some w → parent w = None →
  Window_Bubble.characterSprite h w = None →
  Window_Bubble.addTo h b scene s = (Throw TypeError, s).
Proof.
  intros Hb Hp Hsp. unfold Window_Bubble.addTo, bind at 1.
  rewrite (this_ok _ _ _ Hb), Hp.
  unfold bind at 1, Window_Bubble.update, bind at 1.
  rewrite (this_ok _ _ _ Hb).
  unfold bind at 1, lift, Window_Bubble.targetPosition. by rewrite Hsp.
Qed.

Lemma last_filter_ne (b c : nat) (l : list nat) :
  last (filter (λ c, c ≠ b) l) = Some c → c ≠ b.
Proof.
  intros H. apply last_Some_elem_of in H.
  apply list_elem_of_filter in H. tauto.
Qed.

Lemma addTo_detached h b w scene tid l pos s :
  bubbles s !! b = Some w → parent w = None →
  Window_Bubble.targetPosition h w = Normal pos →
  Window_Bubble.targetId (targetCharacter w) = Normal tid →
  activeBubbles s !! tid = Some l →
  Window_Bubble.addTo h b scene s = (Normal tt, added b scene tid l pos s).
Proof.
  intros Hb Hp Hpos Ht Hl. unfold Window_Bubble.addTo, bind at 1.
  rewrite (this_ok _ _ _ Hb), Hp.
  unfold bind at 1, Window_Bubble.update, bind at 1.
  rewrite (this_ok _ _ _ Hb).
  unfold bind at 1, lift. rewrite Hpos.
  unfold Window_Bubble.assign at 1, modify at 1.
  unfold bind at 1, Window_Bubble.assign at 1, modify at 1.
  unfold bind at 1, Window_Bubble.activeBubbles_remove, bind at 1.
  erewrite activeBubblesOf_ok; cycle 1.
  { simpl. rewrite !lookup_alter_eq, Hb. reflexivity. }
  { exact Ht. }
  { exact Hl. }
  unfold modify at 1. simpl fst; simpl snd.
  unfold bind at 1, bind at 1.
  erewrite activeBubble_ok; cycle 1.
  { simpl. rewrite !lookup_alter_eq, Hb. reflexivity. }
  { exact Ht. }
  { simpl. apply lookup_insert_eq. }
  unfold added, hideTop.
  destruct (last (filter (λ c, c ≠ b) l)) as [c|] eqn:Hlast.
  - apply last_filter_ne in Hlast.
    unfold Window_Bubble.hide, Window_Bubble.assign, modify.
    unfold bind at 1, Window_Bubble.activeBubbles_push, bind at 1.
    erewrite activeBubblesOf_ok; cycle 1.
    { simpl. rewrite lookup_alter_ne by done. rewrite !lookup_alter_eq, Hb. reflexivity. }
    { exact Ht. }
    { simpl. apply lookup_insert_eq. }
    reflexivity.
  - unfold ret at 1.
    unfold bind at 1, Window_Bubble.activeBubbles_push, bind at 1.
    erewrite activeBubblesOf_ok; cycle 1.
    { simpl. rewrite !lookup_alter_eq, Hb. reflexivity. }
    { exact Ht. }
    { simpl. apply lookup_insert_eq. }
    reflexivity.
Qed.

Lemma lookup_showTop l m b :
  showTop l m !! b
  = if decide (last l = Some b) then set_visible true <$> m !! b else m !! b.
Proof.
  unfold showTop. destruct (last l) as [c|] eqn:E.
  - rewrite lookup_alter. destruct (decide (c = b)) as [->|Hne].
    + by rewrite decide_True.
    + rewrite decide_False by congruence. done.
  - by rewrite decide_False.
Qed.

Lemma lookup_hideTop l m b :
  hideTop l m !! b
  = if decide (last l = Some b) then set_visible false <$> m !! b else m !! b.
Proof.
  unfold hideTop. destruct (last l) as [c|] eqn:E.
  - rewrite lookup_alter. destruct (decide (c = b)) as [->|Hne].
    + by rewrite decide_True.
    + rewrite decide_False by congruence. done.
  - by rewrite decide_False.
Qed.

Lemma removed_bubble b tid l s b' w' :
  bubbles (removed b tid l s) !! b' = Some w' →
  ∃ w0, bubbles s !! b' = Some w0 ∧
    targetCharacter w' = targetCharacter w0 ∧
    textLength w' = textLength w0 ∧
    parent w' = (if decide (b' = b) then None else parent w0) ∧
    visible w' = (if decide (last (filter (λ c, c ≠ b) l) = Some b') then true
                  else visible w0).
Proof.
  unfold removed. simpl. rewrite lookup_showTop, lookup_alter.
  intros H.
  destruct (bubbles s !! b') as [w0|] eqn:E0; cycle 1.
  { repeat case_decide; subst; rewrite ?E0 in H; done. }
  exists w0. split; [done|].
  repeat case_decide; subst; rewrite ?E0 in H; simpl in H;
    injection H as <-; done.
Qed.

Lemma removed_bubble_is_Some b tid l s b' :
  is_Some (bubbles (removed b tid l s) !! b') ↔ is_Some (bubbles s !! b').
Proof.
  unfold removed. simpl. rewrite lookup_showTop.
  case_decide; rewrite ?fmap_is_Some; apply lookup_alter_is_Some.
Qed.

Lemma filter_ne_id (b : nat) (l : list nat) : b ∉ l → filter (λ c, c ≠ b) l = l.
Proof.
  induction l as [|a l IH]; [done|].
  intros Hn. rewrite not_elem_of_cons in Hn. destruct Hn as [Hab Hl].
  rewrite filter_cons_True by congruence. by rewrite IH.
Qed.

Lemma last_filter_keep (P : nat → Prop) `{!∀ x, Decision (P x)} (l : list nat) x :
  last l = Some x → P x → last (filter P l) = Some x.
Proof.
  intros Hl HP. apply last_Some in Hl as [l' ->].
  rewrite filter_app, filter_cons_True by done. simpl. apply last_snoc.
Qed.

Lemma added_bubble b scene tid l pos s b' w' :
  bubbles (added b scene tid l pos s) !! b' = Some w' →
  ∃ w0, bubbles s !! b' = Some w0 ∧
    targetCharacter w' = targetCharacter w0 ∧
    textLength w' = textLength w0 ∧
    parent w' = (if decide (b' = b) then Some scene else parent w0) ∧
    visible w' = (if decide (b' = b) then true
                  else if decide (last (filter (λ c, c ≠ b) l) = Some b') then false
                  else visible w0).
Proof.
  unfold added. simpl. rewrite lookup_alter, !lookup_hideTop, !lookup_alter.
  intros H.
  destruct (bubbles s !! b') as [w0|] eqn:E0; cycle 1.
  { repeat case_decide; subst; rewrite ?E0 in H; done. }
  exists w0. split; [done|].
  repeat case_decide; subst; rewrite ?E0 in H; simpl in H;
    injection H as <-; done.
Qed.

Lemma added_bubble_is_Some b scene tid l pos s b' :
  is_Some (bubbles (added b scene tid l pos s) !! b') ↔ is_Some (bubbles s !! b').
Proof.
  unfold added. simpl. rewrite lookup_alter_is_Some, lookup_hideTop.
  case_decide; rewrite ?fmap_is_Some, !lookup_alter_is_Some; done.
Qed.


Lemma added_fields b scene tid l pos s :
  let s' := added b scene tid l pos s in
  nextBubble s' = nextBubble s ∧
  speechBubbles s' = speechBubbles s ∧
  blockingSpeechBubble s' = blockingSpeechBubble s ∧
  currentInterpreter s' = currentInterpreter s ∧
  interpreters s' = interpreters s ∧
  timers s' = timers s ∧
  clock s' = clock s.
Proof. done. Qed.

Lemma removed_fields b tid l s :
  let s' := removed b tid l s in
  nextBubble s' = nextBubble s ∧
  speechBubbles s' = speechBubbles s ∧
  blockingSpeechBubble s' = blockingSpeechBubble s ∧
  currentInterpreter s' = currentInterpreter s ∧
  interpreters s' = interpreters s ∧
  timers s' = timers s ∧
  clock s' = clock s.
Proof. done. Qed.



(** ** Well-formedness is an invariant *)

Lemma wf_removed s b w scene tid l :
  wf s → bubbles s !! b = Some w → parent w = Some scene →
  Window_Bubble.targetId (targetCharacter w) = Normal tid →
  activeBubbles s !! tid = Some l →
  wf (removed b tid l s).
Proof.
  intros Hwf Hb Hp Ht Hl. split.
  - intros b' H. apply removed_bubble_is_Some in H. by apply (wf_fresh _ Hwf).
  - intros b' w' H. apply removed_bubble in H as (w0 & H0 & Htc & _ & Hpar & _).
    destruct (wf_target _ Hwf _ _ H0) as (tid0 & l0 & Ht0 & Hl0 & Hin).
    rewrite Htc, Hpar. exists tid0.
    destruct (decide (tid0 = tid)) as [->|Hne].
    + rewrite Hl in Hl0. injection Hl0 as <-.
      exists (filter (λ c, c ≠ b) l). split; [done|]. split.
      { simpl. apply lookup_insert_eq. }
      rewrite list_elem_of_filter. case_decide as Hd.
      * subst b'. split; [by intros [? ?]|]. intros [? _]. done.
      * rewrite Hin. tauto.
    + exists l0. split; [done|]. split.
      { simpl. by rewrite lookup_insert_ne. }
      case_decide as Hd; [|done].
      subst b'. rewrite H0 in Hb. injection Hb as ->. congruence.
  - intros tid1 l1 H. simpl in H.
    destruct (decide (tid1 = tid)) as [->|Hne].
    + rewrite lookup_insert_eq in H. injection H as <-.
      destruct (wf_stack _ Hwf _ _ Hl) as [Hnd Hel].
      split; [by apply NoDup_filter|].
      intros b' [Hb' Hin]%list_elem_of_filter.
      destruct (Hel _ Hin) as (w0 & H0 & Ht0 & Hvis).
      assert (is_Some (bubbles (removed b tid l s) !! b')) as [w' Hw'].
      { apply removed_bubble_is_Some. eauto. }
      exists w'. split; [done|].
      apply removed_bubble in Hw' as (w0' & H0' & Htc & _ & _ & Hv).
      rewrite H0 in H0'. injection H0' as <-.
      rewrite Htc, Hv. split; [done|].
      destruct (decide (last (filter (λ c, c ≠ b) l) = Some b')) as [Hd|Hd]; [done|].
      split; [|done]. intros Hv0. apply Hvis in Hv0.
      exfalso. apply Hd. by apply last_filter_keep.
    + rewrite lookup_insert_ne in H by done.
      destruct (wf_stack _ Hwf _ _ H) as [Hnd Hel].
      split; [done|].
      intros b' Hin.
      destruct (Hel _ Hin) as (w0 & H0 & Ht0 & Hvis).
      assert (is_Some (bubbles (removed b tid l s) !! b')) as [w' Hw'].
      { apply removed_bubble_is_Some. eauto. }
      exists w'. split; [done|].
      apply removed_bubble in Hw' as (w0' & H0' & Htc & _ & _ & Hv).
      rewrite H0 in H0'. injection H0' as <-.
      rewrite Htc, Hv. split; [done|].
      destruct (decide (last (filter (λ c, c ≠ b) l) = Some b')) as [Hd|Hd]; [|done].
      exfalso. apply last_Some_elem_of, list_elem_of_filter in Hd as [_ Hd].
      destruct (wf_stack _ Hwf _ _ Hl) as [_ Hel'].
      destruct (Hel' _ Hd) as (w1 & H1 & Ht1 & _).
      rewrite H0 in H1. injection H1 as <-. congruence.
  - intros t Hin. by apply (wf_timers _ Hwf).
  - intros t Hin. by apply (wf_notetag _ Hwf).
Qed.

Lemma wf_added s b w scene tid l pos :
  wf s → bubbles s !! b = Some w → parent w = None →
  Window_Bubble.targetId (targetCharacter w) = Normal tid →
  activeBubbles s !! tid = Some l →
  wf (added b scene tid l pos s).
Proof.
  intros Hwf Hb Hp Ht Hl.
  assert (b ∉ l) as Hnin.
  { destruct (wf_target _ Hwf _ _ Hb) as (tid0 & l0 & Ht0 & Hl0 & Hin).
    rewrite Ht in Ht0. injection Ht0 as <-. rewrite Hl in Hl0. injection Hl0 as <-.
    intros H. apply Hin in H. rewrite Hp in H. by destruct H. }
  assert (filter (λ c, c ≠ b) l = l) as Hf by by apply filter_ne_id.
  destruct (wf_stack _ Hwf _ _ Hl) as [Hnd Hel].
  split.
  - intros b' H. apply added_bubble_is_Some in H. by apply (wf_fresh _ Hwf).
  - intros b' w' H. apply added_bubble in H as (w0 & H0 & Htc & _ & Hpar & _).
    destruct (wf_target _ Hwf _ _ H0) as (tid0 & l0 & Ht0 & Hl0 & Hin).
    rewrite Htc, Hpar. exists tid0.
    destruct (decide (tid0 = tid)) as [->|Hne].
    + rewrite Hl in Hl0. injection Hl0 as <-.
      exists (l ++ [b]). split; [done|]. split.
      { simpl. rewrite Hf. apply lookup_insert_eq. }
      rewrite elem_of_app, list_elem_of_singleton. case_decide as Hd.
      * subst b'. split; eauto.
      * rewrite Hin. tauto.
    + exists l0. split; [done|]. split.
      { simpl. by rewrite !lookup_insert_ne. }
      case_decide as Hd; [|done].
      subst b'. rewrite H0 in Hb. injection Hb as ->. congruence.
  - intros tid1 l1 H. simpl in H. rewrite Hf in H.
    destruct (decide (tid1 = tid)) as [->|Hne].
    + rewrite lookup_insert_eq in H. injection H as <-.
      split.
      { apply NoDup_app. split; [done|]. split; [|apply NoDup_singleton].
        intros c Hc ->%list_elem_of_singleton. done. }
      intros b' Hin.
      assert (is_Some (bubbles s !! b')) as [w0 H0].
      { apply elem_of_app in Hin as [Hin| ->%list_elem_of_singleton]; [|eauto].
        destruct (Hel _ Hin) as (w0 & H0 & _). eauto. }
      assert (is_Some (bubbles (added b scene tid l pos s) !! b')) as [w' Hw'].
      { apply added_bubble_is_Some. eauto. }
      exists w'. split; [done|].
      apply added_bubble in Hw' as (w0' & H0' & Htc & _ & _ & Hv).
      rewrite H0 in H0'. injection H0' as <-.
      rewrite Htc, Hv, Hf, last_snoc.
      apply elem_of_app in Hin as [Hin| ->%list_elem_of_singleton].
      * destruct (Hel _ Hin) as (w1 & H1 & Ht1 & Hvis).
        rewrite H0 in H1. injection H1 as <-. split; [done|].
        assert (b' ≠ b) by (intros ->; done).
        rewrite decide_False by done.
        destruct (decide (last l = Some b')) as [Hd|Hd].
        { split; [done|]. congruence. }
        split; [|congruence]. intros Hv0. by apply Hvis in Hv0.
      * rewrite H0 in Hb. injection Hb as ->. split; [done|].
        by rewrite decide_True.
    + rewrite !lookup_insert_ne in H by done.
      destruct (wf_stack _ Hwf _ _ H) as [Hnd1 Hel1].
      split; [done|].
      intros b' Hin.
      destruct (Hel1 _ Hin) as (w0 & H0 & Ht0 & Hvis).
      assert (is_Some (bubbles (added b scene tid l pos s) !! b')) as [w' Hw'].
      { apply added_bubble_is_Some. eauto. }
      exists w'. split; [done|].
      apply added_bubble in Hw' as (w0' & H0' & Htc & _ & _ & Hv).
      rewrite H0 in H0'. injection H0' as <-.
      rewrite Htc, Hv, Hf. split; [done|].
      assert (b' ≠ b).
      { intros ->. rewrite H0 in Hb. injection Hb as ->. congruence. }
      rewrite decide_False by done.
      destruct (decide (last l = Some b')) as [Hd|Hd]; [|done].
      exfalso. apply last_Some_elem_of in Hd.
      destruct (Hel _ Hd) as (w1 & Hw1 & Ht1 & _).
      rewrite H0 in Hw1. injection Hw1 as <-. congruence.
  - intros t Hin. by apply (wf_timers _ Hwf).
  - intros t Hin. by apply (wf_notetag _ Hwf).
Qed.

Lemma wf_remove b s : wf s → wf (snd (Window_Bubble.remove b s)).
Proof.
  intros Hwf.
  destruct (bubbles s !! b) as [w|] eqn:Hb; [|by rewrite remove_dangling].
  destruct (parent w) as [scene|] eqn:Hp; [|by erewrite remove_detached].
  destruct (wf_target _ Hwf _ _ Hb) as (tid & l & Ht & Hl & _).
  erewrite remove_attached by done. simpl. by eapply wf_removed.
Qed.

Lemma wf_addTo h b scene s : wf s → wf (snd (Window_Bubble.addTo h b scene s)).
Proof.
  intros Hwf.
  destruct (bubbles s !! b) as [w|] eqn:Hb; [|by rewrite addTo_dangling].
  destruct (parent w) as [p|] eqn:Hp.
  { erewrite addTo_attached; [done..|]. rewrite Hp. eauto. }
  destruct (wf_target _ Hwf _ _ Hb) as (tid & l & Ht & Hl & _).
  destruct (Window_Bubble.characterSprite h w) as [sprite|] eqn:Hs;
    [|by erewrite addTo_no_sprite].
  erewrite addTo_detached; [| done..| |done|done].
  - simpl. by eapply wf_added.
  - unfold Window_Bubble.targetPosition. rewrite Hs. reflexivity.
Qed.

(** *** Construction *)

Lemma constructed_fields h target text tid s :
  let s1 := constructed h target text tid s in
  bubbles s1
  = <[nextBubble s :=
        mkBubble target
          (foldl Window_Bubble.flushTextState 0 (textStates h text))
          (Window_Bubble.getRectForText h text).1
          (Window_Bubble.getRectForText h text).2
          (Num.ofZ 0) (Num.ofZ 0) None true]> (bubbles s) ∧
  nextBubble s1 = S (nextBubble s) ∧
  speechBubbles s1 = speechBubbles s ∧
  blockingSpeechBubble s1 = blockingSpeechBubble s ∧
  currentInterpreter s1 = currentInterpreter s ∧
  interpreters s1 = interpreters s ∧
  timers s1 = timers s ∧
  clock s1 = clock s.
Proof. unfold constructed. by destruct (activeBubbles s !! tid). Qed.


Lemma wf_constructed h target text tid s :
  wf s → Window_Bubble.targetId target = Normal tid →
  wf (constructed h target text tid s).
Proof.
  intros Hwf Ht.
  assert (bubbles s !! nextBubble s = None) as Hfresh.
  { destruct (bubbles s !! nextBubble s) eqn:E; [|done].
    assert (nextBubble s < nextBubble s)%nat by (apply (wf_fresh _ Hwf); eauto). lia. }
  assert (∀ t l, activeBubbles s !! t = Some l → nextBubble s ∉ l) as Hnin.
  { intros t l Hl Hin. destruct (wf_stack _ Hwf _ _ Hl) as [_ Hel].
    destruct (Hel _ Hin) as (w & Hw & _). congruence. }
  assert (bubbles (constructed h target text tid s)
          = <[nextBubble s :=
                mkBubble target
                  (foldl Window_Bubble.flushTextState 0 (textStates h text))
                  (Window_Bubble.getRectForText h text).1
                  (Window_Bubble.getRectForText h text).2
                  (Num.ofZ 0) (Num.ofZ 0) None true]> (bubbles s)) as Hbub.
  { unfold constructed. by destruct (activeBubbles s !! tid). }
  assert (nextBubble (constructed h target text tid s) = S (nextBubble s)) as Hnext.
  { unfold constructed. by destruct (activeBubbles s !! tid). }
  assert (∀ t, activeBubbles (constructed h target text tid s) !! t
               = if decide (t = tid)
                 then Some (default [] (activeBubbles s !! tid))
                 else activeBubbles s !! t) as Hact.
  { intros t. unfold constructed.
    destruct (activeBubbles s !! tid) eqn:E; simpl.
    - case_decide; by subst.
    - rewrite lookup_insert.
      destruct (decide (tid = t)), (decide (t = tid)); subst; done. }
  assert (timers (constructed h target text tid s) = timers s) as Htim.
  { unfold constructed. by destruct (activeBubbles s !! tid). }
  assert (speechBubbles (constructed h target text tid s) = speechBubbles s) as Hsp.
  { unfold constructed. by destruct (activeBubbles s !! tid). }
  split.
  - intros b. rewrite Hbub, Hnext, lookup_insert_is_Some.
    intros [<-|[_ H]]; [lia|]. apply (wf_fresh _ Hwf) in H. lia.
  - intros b w. rewrite Hbub, lookup_insert_Some.
    intros [[<- <-]|[Hne Hb]]; simpl.
    + exists tid, (default [] (activeBubbles s !! tid)).
      split; [done|]. split; [by rewrite Hact, decide_True|].
      split; [by intros []|]. intros Hin. exfalso.
      destruct (activeBubbles s !! tid) as [l|] eqn:E; simpl in Hin.
      * by apply (Hnin _ _ E).
      * by apply elem_of_nil in Hin.
    + destruct (wf_target _ Hwf _ _ Hb) as (tid0 & l0 & Ht0 & Hl0 & Hin).
      exists tid0, l0. split; [done|]. split; [|done].
      rewrite Hact. case_decide; [|done]. subst. by rewrite Hl0.
  - intros t l. rewrite Hact. intros Hl.
    assert (activeBubbles s !! t = Some l ∨ l = []) as [Hl0| ->].
    { case_decide; [|by left]. subst.
      destruct (activeBubbles s !! tid); simpl in Hl; injection Hl as <-; eauto. }
    + destruct (wf_stack _ Hwf _ _ Hl0) as [Hnd Hel]. split; [done|].
      intros b Hin. destruct (Hel _ Hin) as (w & Hw & Htw & Hv).
      exists w. split; [|done]. rewrite Hbub, lookup_insert_ne; [done|].
      intros <-. congruence.
    + split; [apply NoDup_nil_2|]. intros b Hin. by apply elem_of_nil in Hin.
  - intros t. rewrite Htim, Hnext. intros Hin. apply (wf_timers _ Hwf) in Hin. lia.
  - intros b. rewrite Hsp, Hnext. intros Hin. apply (wf_notetag _ Hwf) in Hin. lia.
Qed.

Lemma wf_initialize h target text : preserves wf (Window_Bubble.initialize h target text).
Proof.
  intros s Hwf. rewrite initialize_eq.
  destruct (Window_Bubble.targetId target) as [tid|e] eqn:E; [|done].
  simpl. by apply wf_constructed.
Qed.

(** *** Frames *)

Lemma wf_ext s s' :
  bubbles s' = bubbles s → nextBubble s' = nextBubble s →
  activeBubbles s' = activeBubbles s → timers s' = timers s →
  speechBubbles s' = speechBubbles s →
  wf s → wf s'.
Proof.
  intros Hb Hn Ha Ht Hs [H1 H2 H3 H4 H5].
  split; rewrite ?Hb, ?Hn, ?Ha, ?Ht, ?Hs; assumption.
Qed.

Lemma addTo_outcome h b scene s :
  wf s →
  Window_Bubble.addTo h b scene s = (Throw TypeError, s) ∨
  (∃ w, bubbles s !! b = Some w ∧ is_Some (parent w) ∧
        Window_Bubble.addTo h b scene s = (Normal tt, s)) ∨
  (∃ w tid l pos,
     bubbles s !! b = Some w ∧ parent w = None ∧
     Window_Bubble.targetId (targetCharacter w) = Normal tid ∧
     activeBubbles s !! tid = Some l ∧ (b ∉ l) ∧
     Window_Bubble.targetPosition h w = Normal pos ∧
     Window_Bubble.addTo h b scene s = (Normal tt, added b scene tid l pos s)).
Proof.
  intros Hwf.
  destruct (bubbles s !! b) as [w|] eqn:Hb; [|left; by rewrite addTo_dangling].
  destruct (parent w) as [p|] eqn:Hp.
  { right; left. exists w. split; [done|]. rewrite Hp. split; [eauto|].
    erewrite addTo_attached; [done..|]. rewrite Hp. eauto. }
  destruct (wf_target _ Hwf _ _ Hb) as (tid & l & Ht & Hl & Hin).
  destruct (Window_Bubble.characterSprite h w) as [sprite|] eqn:Hs;
    [|left; by erewrite addTo_no_sprite].
  right; right. eexists w, tid, l, _. repeat split; try done.
  - intros H. apply Hin in H. rewrite Hp in H. by destruct H.
  - unfold Window_Bubble.targetPosition. by rewrite Hs.
  - eapply addTo_detached; try done.
    unfold Window_Bubble.targetPosition. by rewrite Hs.
Qed.


Lemma remove_outcome b s :
  wf s →
  (bubbles s !! b = None ∧ Window_Bubble.remove b s = (Throw TypeError, s)) ∨
  (∃ w, bubbles s !! b = Some w ∧ parent w = None ∧
        Window_Bubble.remove b s = (Normal tt, s)) ∨
  (∃ w scene tid l,
     bubbles s !! b = Some w ∧ parent w = Some scene ∧
     Window_Bubble.targetId (targetCharacter w) = Normal tid ∧
     activeBubbles s !! tid = Some l ∧ b ∈ l ∧
     Window_Bubble.remove b s = (Normal tt, removed b tid l s)).
Proof.
  intros Hwf.
  destruct (bubbles s !! b) as [w|] eqn:Hb; [|left; by rewrite remove_dangling].
  destruct (parent w) as [scene|] eqn:Hp.
  - destruct (wf_target _ Hwf _ _ Hb) as (tid & l & Ht & Hl & Hin).
    right; right. exists w, scene, tid, l. repeat split; try done.
    + apply Hin. rewrite Hp. eauto.
    + by eapply remove_attached.
  - right; left. exists w. repeat split; try done. by eapply remove_detached.
Qed.


Lemma addTo_framed P h b scene :
  framed P → preserves (λ s, wf s ∧ P s) (Window_Bubble.addTo h b scene).
Proof.
  intros HP s [Hwf Hs]. split; [by apply wf_addTo|].
  destruct (addTo_outcome h b scene s Hwf)
    as [->|[(w & _ & _ & ->)|(w & tid & l & pos & _ & _ & _ & _ & _ & _ & ->)]];
    [done..|].
  by apply (HP s).
Qed.

Lemma remove_framed P b :
  framed P → preserves (λ s, wf s ∧ P s) (Window_Bubble.remove b).
Proof.
  intros HP s [Hwf Hs]. split; [by apply wf_remove|].
  destruct (remove_outcome b s Hwf)
    as [[_ ->]|[(w & _ & _ & ->)|(w & scene & tid & l & _ & _ & _ & _ & _ & ->)]];
    [done..|].
  by apply (HP s).
Qed.

(** *** Timers *)

Lemma elem_of_enqueue t u q : u ∈ enqueue t q ↔ u = t ∨ u ∈ q.
Proof.
  induction q as [|v q IH]; simpl.
  - rewrite list_elem_of_singleton, elem_of_nil. tauto.
  - destruct (due v <=? due t).
    + rewrite !elem_of_cons, IH. tauto.
    + rewrite !elem_of_cons. tauto.
Qed.

(** *** Triples *)

Lemma triple_bind {A B} P Q R E (m : M A) (k : A → M B) :
  triple P m Q E → (∀ a, triple (Q a) (k a) R E) → triple P (bind m k) R E.
Proof.
  intros Hm Hk s Hs. unfold bind. specialize (Hm s Hs).
  destruct (m s) as [[a|e] s']; [by apply Hk|done].
Qed.

Lemma triple_preserves {A} P (m : M A) : preserves P m → triple P m (λ _, P) P.
Proof.
  intros Hm s Hs. specialize (Hm s Hs). by destruct (m s) as [[a|e] s'].
Qed.

Lemma triple_weaken {A} (P P' : State → Prop) (Q Q' : A → State → Prop)
    (E E' : State → Prop) (m : M A) :
  triple P' m Q' E' →
  (∀ s, P s → P' s) → (∀ a s, Q' a s → Q a s) → (∀ s, E' s → E s) →
  triple P m Q E.
Proof.
  intros Hm HP HQ HE s Hs. specialize (Hm s (HP s Hs)).
  destruct (m s) as [[a|e] s']; auto.
Qed.

Lemma triple_of_preserves {A} (P Q : State → Prop) (m : M A) :
  preserves P m → (∀ s, P s → Q s) → triple P m (λ _, Q) Q.
Proof.
  intros Hm HQ s Hs. specialize (Hm s Hs). destruct (m s) as [[a|e] s']; by apply HQ.
Qed.

Lemma triple_final {A} P (m : M A) : triple P m (λ _, P) P → preserves P m.
Proof.
  intros Hm s Hs. specialize (Hm s Hs). by destruct (m s) as [[a|e] s'].
Qed.

(** *** Single calls *)

Lemma calls_trans s l1 s' l2 s'' :
  calls s l1 s' → calls s' l2 s'' → calls s (l2 ++ l1) s''.
Proof.
  intros H1 H2. induction H2; [done|].
  rewrite <- app_assoc. eapply calls_step; eauto.
Qed.

Lemma wf_call s l s' : call s l s' → wf s → wf s'.
Proof.
  destruct 1 as [h target text s|h b scene s|b s|s s' Hb Ha Hn Ht Hs]; intros Hwf.
  - by apply wf_initialize.
  - by apply wf_addTo.
  - by apply wf_remove.
  - destruct Hwf as [H1 H2 H3 _ _].
    split; [rewrite Hb, Hn|rewrite Hb, Ha|rewrite Hb, Ha| |]; assumption.
Qed.

Lemma wf_calls s l s' : calls s l s' → wf s → wf s'.
Proof.
  induction 1; [done|].
  intros Hwf. eapply wf_call; eauto.
Qed.

Lemma follows_refl s : wf s → follows s s.
Proof. intros Hwf. split; [done|]. exists []. constructor. Qed.

Lemma follows_call s0 s l s' : follows s0 s → call s l s' → follows s0 s'.
Proof.
  intros [Hwf [log Hlog]] Hc. split; [by eapply wf_call|].
  exists (l ++ log). by eapply calls_step.
Qed.

Lemma follows_ext s0 s s' :
  bubbles s' = bubbles s → nextBubble s' = nextBubble s →
  activeBubbles s' = activeBubbles s → timers s' = timers s →
  speechBubbles s' = speechBubbles s →
  follows s0 s → follows s0 s'.
Proof.
  intros Hb Hn Ha Ht Hs Hf. eapply follows_call; [done|].
  destruct Hf as [[_ _ _ H4 H5] _].
  apply call_write; rewrite ?Hn, ?Ht, ?Hs; done.
Qed.

Lemma follows_addTo s0 h b scene : preserves (follows s0) (Window_Bubble.addTo h b scene).
Proof. intros s Hs. eapply follows_call; [done|]. apply call_addTo. Qed.

Lemma follows_remove s0 b : preserves (follows s0) (Window_Bubble.remove b).
Proof. intros s Hs. eapply follows_call; [done|]. apply call_remove. Qed.

Lemma follows_addTo_framed P s0 h b scene :
  framed P → preserves (λ s, follows s0 s ∧ P s) (Window_Bubble.addTo h b scene).
Proof.
  intros HP s [Hf Hs]. split; [by apply follows_addTo|].
  apply (addTo_framed P h b scene HP s). split; [apply Hf|done].
Qed.

(** *** The composite operations *)

Lemma initialize_triple s0 h target text :
  triple (follows s0) (Window_Bubble.initialize h target text)
    (λ b s, follows s0 s ∧ (b < nextBubble s)%nat) (follows s0).
Proof.
  intros s Hs.
  pose proof (follows_call _ _ _ _ Hs (call_new h target text s)) as Hs'.
  rewrite initialize_eq in *.
  destruct (Window_Bubble.targetId target) as [tid|e] eqn:Ht; [|done].
  split; [done|].
  unfold constructed. destruct (activeBubbles s !! tid); simpl; lia.
Qed.

Lemma follows_setTimeout s0 b timeout s :
  (b < nextBubble s)%nat → follows s0 s → follows s0 (snd (setTimeout b timeout s)).
Proof.
  intros Hb Hf. eapply follows_call; [done|].
  destruct Hf as [[_ _ _ H4 H5] _].
  apply call_write; try done.
  simpl. intros t [->|Hin]%elem_of_enqueue; [done|]. by apply H4.
Qed.

Lemma follows_setWaitMode P s0 i mode :
  framed P → preserves (λ s, follows s0 s ∧ P s) (setWaitMode i mode).
Proof.
  intros HP. apply preserves_bind; [apply preserves_readonly, readonly_interpreter|].
  intros _ s [Hf Hs]. simpl. split; [revert Hf; by apply follows_ext|].
  revert Hs. by apply HP.
Qed.

Lemma follows_showBubble s0 h text target duration blocking :
  preserves (follows s0) (showBubble h text target duration blocking).
Proof.
  apply triple_final. unfold showBubble.
  eapply triple_bind; [apply initialize_triple|].
  intros b.
  assert (framed (λ s, (b < nextBubble s)%nat)) as Hfr.
  { intros s s' Hn _ _ _ _ Hs. by rewrite Hn. }
  apply (triple_of_preserves (λ s, follows s0 s ∧ (b < nextBubble s)%nat));
    [|by intros s [H _]].
  apply preserves_bind; [by apply follows_addTo_framed|].
  intros _. apply preserves_bind.
  { apply preserves_bind; [apply preserves_readonly, readonly_this|].
    intros w s [Hf Hb]. split; [by apply follows_setTimeout|done]. }
  intros _. destruct blocking; [|by apply preserves_readonly].
  apply preserves_bind.
  { intros s [Hf Hb]. simpl. split; [|done]. revert Hf. by apply follows_ext. }
  intros _. apply preserves_bind; [by apply preserves_readonly|].
  intros s1. destruct (currentInterpreter s1); [|by apply preserves_readonly].
  by apply follows_setWaitMode.
Qed.

Lemma follows_commandShow s0 h interp args :
  preserves (follows s0) (commandShow h interp args).
Proof.
  apply preserves_bind.
  { intros s Hf. revert Hf. by apply follows_ext. }
  intros _. apply preserves_bind; [apply preserves_readonly, readonly_getCurrentEvent|].
  intros currentEvent. apply follows_showBubble.
Qed.

Lemma follows_createBubble s0 h e : preserves (follows s0) (Scene_Map.createBubble h e).
Proof.
  unfold Scene_Map.createBubble.
  destruct (event e) as [meta|]; [|by apply preserves_readonly].
  destruct (meta !! NOTETAG_BUBBLE) as [[|t]|]; try by apply preserves_readonly.
  apply triple_final.
  eapply triple_bind; [apply initialize_triple|].
  intros b s [Hf Hb]. simpl. eapply follows_call; [done|].
  destruct Hf as [[_ _ _ H4 H5] _].
  apply call_write; try done.
  simpl. intros c [Hc| ->%list_elem_of_singleton]%elem_of_app; [by apply H5|done].
Qed.

Lemma follows_createDisplayObjects s0 h :
  preserves (follows s0) (Scene_Map.createDisplayObjects h).
Proof. apply preserves_forEach. intros e _. apply follows_createBubble. Qed.

Lemma follows_terminate s0 : preserves (follows s0) Scene_Map.terminate.
Proof.
  apply preserves_bind; [by apply preserves_readonly|].
  intros s1. apply preserves_bind.
  { apply preserves_forEach. intros b _. apply follows_remove. }
  intros _ s Hf. simpl. eapply follows_call; [done|].
  destruct Hf as [[_ _ _ H4 H5] _].
  apply call_write; try done.
  simpl. intros b Hb. by apply elem_of_nil in Hb.
Qed.

Lemma follows_updateAnimation s0 h :
  preserves (follows s0) (Game_Player.updateAnimation h).
Proof.
  apply preserves_bind; [by apply preserves_readonly|].
  intros s1. apply preserves_forEach. intros b _.
  apply preserves_bind; [apply preserves_readonly, readonly_isPlayerWithinDistance|].
  intros within. apply preserves_bind.
  { destruct within; [|by apply preserves_readonly].
    apply preserves_bind; [apply preserves_readonly, readonly_isOtherBubbleActive|].
    intros. by apply preserves_readonly. }
  intros [|]; [apply follows_addTo|apply follows_remove].
Qed.

Lemma follows_fire_all s0 (ts : list Timer) s :
  follows s0 s → follows s0 (foldl fire s ts).
Proof.
  revert s. induction ts as [|t ts IH]; intros s Hf; [done|].
  simpl. apply IH. by apply follows_remove.
Qed.

Lemma follows_advance s0 dt s : follows s0 s → follows s0 (advance dt s).
Proof.
  intros Hf. unfold advance. apply follows_fire_all.
  eapply follows_call; [done|].
  destruct Hf as [[_ _ _ H4 H5] _].
  apply call_write; try done.
  simpl. intros t [_ Ht]%list_elem_of_filter. by apply H4.
Qed.

Lemma wf_initial interps : wf (initial interps).
Proof.
  split; simpl.
  - intros b [w H]. by rewrite lookup_empty in H.
  - intros b w H. by rewrite lookup_empty in H.
  - intros tid l H. by rewrite lookup_empty in H.
  - intros t H. by apply elem_of_nil in H.
  - intros b H. by apply elem_of_nil in H.
Qed.

Lemma follows_step s0 s s' : step s s' → follows s0 s → follows s0 s'.
Proof.
  destruct 1; intros Hf.
  - eapply follows_call; [done|]. apply call_new.
  - by apply follows_addTo.
  - by apply follows_remove.
  - by apply follows_showBubble.
  - by apply follows_commandShow.
  - by apply follows_createDisplayObjects.
  - by apply follows_terminate.
  - by apply follows_updateAnimation.
  - revert Hf. by apply follows_ext.
  - by apply follows_advance.
Qed.

Lemma reachable_follows s : reachable s → ∃ interps, follows (initial interps) s.
Proof.
  intros [interps Hrun]. exists interps. revert s Hrun. apply rtc_ind_r.
  - apply follows_refl, wf_initial.
  - intros s s' _ Hstep Hf. by eapply follows_step.
Qed.

Lemma reachable_wf s : reachable s → wf s.
Proof. intros [interps [Hwf _]]%reachable_follows. done. Qed.

Lemma reachable_history s : reachable s → ∃ log, history log s.
Proof.
  intros [interps [_ [log Hlog]]]%reachable_follows. exists log, interps. done.
Qed.

Lemma history_wf log s : history log s → wf s.
Proof. intros [interps Hc]. eapply wf_calls; [done|]. apply wf_initial. Qed.

Lemma wf_showBubble h text target duration blocking :
  preserves wf (showBubble h text target duration blocking).
Proof. intros s Hwf. by apply (follows_showBubble s), follows_refl. Qed.

(** ** The stacks follow the order of attachment *)

Lemma rank_le log b : (rank log b ≤ length log)%nat.
Proof.
  induction log as [|c log IH]; simpl; [lia|]. case_decide; lia.
Qed.

Lemma rank_cons_ne c log b : c ≠ b → rank (c :: log) b = rank log b.
Proof. intros H. simpl. by rewrite decide_False. Qed.

Lemma rank_cons_eq log b : rank (b :: log) b = S (length log).
Proof. simpl. by rewrite decide_True. Qed.

Lemma StronglySorted_impl_in {A} (R R' : A → A → Prop) (l : list A) :
  (∀ x y, x ∈ l → y ∈ l → R x y → R' x y) →
  StronglySorted R l → StronglySorted R' l.
Proof.
  induction l as [|a l IH]; intros HR Hs; [constructor|].
  apply StronglySorted_cons in Hs as [Hall Hs].
  apply StronglySorted_cons. split.
  - rewrite Forall_forall in *. intros y Hy. apply HR; [left|by right|by apply Hall].
  - apply IH; [|done]. intros x y Hx Hy. apply HR; by right.
Qed.

Lemma StronglySorted_filter {A} (R : A → A → Prop) (P : A → Prop)
    `{!∀ x, Decision (P x)} (l : list A) :
  StronglySorted R l → StronglySorted R (filter P l).
Proof.
  induction l as [|a l IH]; intros Hs; [constructor|].
  apply StronglySorted_cons in Hs as [Hall Hs].
  rewrite filter_cons. case_decide; [|by apply IH].
  apply StronglySorted_cons. split; [|by apply IH].
  rewrite Forall_forall in *. intros y [_ Hy]%list_elem_of_filter. by apply Hall.
Qed.

Lemma constructed_activeBubbles h target text tid s t :
  activeBubbles (constructed h target text tid s) !! t
  = if decide (t = tid) then Some (default [] (activeBubbles s !! tid))
    else activeBubbles s !! t.
Proof.
  unfold constructed. destruct (activeBubbles s !! tid) eqn:E; simpl.
  - case_decide; by subst.
  - rewrite lookup_insert.
    destruct (decide (tid = t)), (decide (t = tid)); subst; done.
Qed.

Lemma attachment_same s b : attachment s s b = [].
Proof. unfold attachment. by destruct (isAttached s b). Qed.

Lemma call_ordered s log l s' :
  wf s → ordered log s → call s l s' → ordered (l ++ log) s'.
Proof.
  intros Hwf Ho Hc.
  destruct Hc as [h target text s|h b scene s|b s|s s' Hb Ha Hn Ht Hs]; simpl.
  - rewrite initialize_eq.
    destruct (Window_Bubble.targetId target) as [tid|e]; [|done]. simpl.
    intros t l. rewrite constructed_activeBubbles. case_decide; [|by apply Ho].
    intros [= <-]. destruct (activeBubbles s !! tid) as [l|] eqn:E; simpl.
    + by apply (Ho tid).
    + split; [constructor|]. intros x Hx. by apply elem_of_nil in Hx.
  - destruct (addTo_outcome h b scene s Hwf)
      as [->|[(w & _ & _ & ->)|(w & tid & l & pos & Hw & Hp & Htid & Hl & Hnin & _ & ->)]];
      simpl; rewrite ?attachment_same; try done.
    assert (attachment s (added b scene tid l pos s) b = [b]) as ->.
    { unfold attachment, isAttached. rewrite Hw, Hp.
      assert (is_Some (bubbles (added b scene tid l pos s) !! b)) as [w' Hw'].
      { apply added_bubble_is_Some. eauto. }
      rewrite Hw'. apply added_bubble in Hw' as (w0 & _ & _ & _ & Hp' & _).
      rewrite decide_True in Hp' by done. rewrite Hp'.
      rewrite bool_decide_eq_true_2 by eauto.
      rewrite bool_decide_eq_false_2; [done|]. by intros []. }
    change ([b] ++ log) with (b :: log).
    assert (∀ t l1, activeBubbles s !! t = Some l1 → b ∉ l1 →
              StronglySorted (λ x y, (rank (b :: log) x < rank (b :: log) y)%nat) l1 ∧
              ∀ x, x ∈ l1 → (0 < rank (b :: log) x)%nat) as Hold.
    { intros t l1 Hl1 Hnin1. destruct (Ho t l1 Hl1) as [Hs Hpos]. split.
      - eapply StronglySorted_impl_in; [|done].
        intros x y Hx Hy. rewrite !rank_cons_ne; [done|intros ->; done..].
      - intros x Hx. rewrite rank_cons_ne by (intros ->; done). by apply Hpos. }
    intros t l1 Hl1. simpl in Hl1. rewrite (filter_ne_id b l Hnin) in Hl1.
    destruct (decide (t = tid)) as [->|Hne].
    + rewrite lookup_insert_eq in Hl1. injection Hl1 as <-.
      destruct (Hold tid l Hl Hnin) as [Hs Hpos]. split.
      * apply StronglySorted_app. split; [|split; [done|repeat constructor]].
        intros x y Hx ->%list_elem_of_singleton.
        rewrite rank_cons_eq, rank_cons_ne by (intros ->; done).
        pose proof (rank_le log x). lia.
      * intros x [Hx| ->%list_elem_of_singleton]%elem_of_app; [by apply Hpos|].
        rewrite rank_cons_eq. lia.
    + rewrite !lookup_insert_ne in Hl1 by done.
      apply (Hold t); [done|].
      intros Hin. destruct (wf_stack _ Hwf _ _ Hl1) as [_ Hel].
      destruct (Hel _ Hin) as (w1 & Hw1 & Ht1 & _). congruence.
  - destruct (remove_outcome b s Hwf)
      as [[_ ->]|[(w & _ & _ & ->)|(w & scene & tid & l & _ & _ & _ & Hl & _ & ->)]];
      simpl; try done.
    intros t l1 Hl1. simpl in Hl1.
    destruct (decide (t = tid)) as [->|Hne].
    + rewrite lookup_insert_eq in Hl1. injection Hl1 as <-.
      destruct (Ho tid l Hl) as [Hs Hpos]. split.
      * by apply StronglySorted_filter.
      * intros x [_ Hx]%list_elem_of_filter. by apply Hpos.
    + rewrite lookup_insert_ne in Hl1 by done. by apply (Ho t).
  - intros t l. rewrite Ha. apply Ho.
Qed.

Lemma calls_ordered s0 log s :
  calls s0 log s → wf s0 → activeBubbles s0 = ∅ → ordered log s.
Proof.
  induction 1 as [s0|s0 log s l s' Hcs IH Hc]; intros Hwf0 Hempty.
  - intros tid l. by rewrite Hempty, lookup_empty.
  - eapply call_ordered; [|by apply IH|done]. by eapply wf_calls.
Qed.

Lemma history_ordered log s : history log s → ordered log s.
Proof.
  intros [interps Hc]. eapply calls_ordered; [done|apply wf_initial|done].
Qed.

(** What a well-formed state says about one bubble and its stack. *)
Lemma wf_bubble_stack s b w tid :
  wf s → bubbles s !! b = Some w →
  Window_Bubble.targetId (targetCharacter w) = Normal tid →
  (is_Some (parent w) ↔ b ∈ stackOf s tid) ∧
  (is_Some (parent w) → (visible w = true ↔ last (stackOf s tid) = Some b)).
Proof.
  intros Hwf Hb Ht.
  destruct (wf_target _ Hwf _ _ Hb) as (tid' & l & Ht' & Hl & Hin).
  rewrite Ht in Ht'. injection Ht' as <-.
  unfold stackOf. rewrite Hl. simpl. split; [done|].
  intros Hp%Hin. destruct (wf_stack _ Hwf _ _ Hl) as [_ Hel].
  destruct (Hel _ Hp) as (w' & Hw' & _ & Hv). congruence.
Qed.

Lemma wf_displayed_top s b tid :
  wf s → targets s b tid → displayed s b → last (stackOf s tid) = Some b.
Proof.
  intros Hwf (w & Hw & Ht) (w' & Hw' & Hp & Hv).
  rewrite Hw in Hw'. injection Hw' as <-.
  by apply (wf_bubble_stack _ _ _ _ Hwf Hw Ht).
Qed.

Lemma wf_top_displayed s b tid :
  wf s → last (stackOf s tid) = Some b → targets s b tid ∧ displayed s b.
Proof.
  intros Hwf Hlast. unfold stackOf in Hlast.
  destruct (activeBubbles s !! tid) as [l|] eqn:Hl; [|done]. simpl in Hlast.
  destruct (wf_stack _ Hwf _ _ Hl) as [_ Hel].
  destruct (Hel b (last_Some_elem_of _ _ Hlast)) as (w & Hw & Ht & Hv).
  split; [by exists w|]. exists w. split; [done|]. split; [|by apply Hv].
  apply (wf_bubble_stack _ _ _ _ Hwf Hw Ht).
  unfold stackOf. rewrite Hl. simpl. by apply last_Some_elem_of.
Qed.

Lemma history_recency log s tid b b' :
  history log s →
  targets s b tid → displayed s b → targets s b' tid → attached s b' → b' ≠ b →
  (0 < rank log b' < rank log b)%nat.
Proof.
  intros Hh Ht Hd (w' & Hw' & Ht') (w2 & Hw2 & Hp') Hne.
  rewrite Hw' in Hw2. injection Hw2 as <-.
  pose proof (history_wf _ _ Hh) as Hwf.
  pose proof (wf_displayed_top _ _ _ Hwf Ht Hd) as Hlast.
  destruct (wf_bubble_stack _ _ _ _ Hwf Hw' Ht') as [Hstack _].
  apply Hstack in Hp'. clear Hstack.
  unfold stackOf in *.
  destruct (activeBubbles s !! tid) as [l|] eqn:Hl; [|done]. simpl in *.
  destruct (history_ordered _ _ Hh tid l Hl) as [Hs Hpos].
  apply last_Some in Hlast as [l0 ->].
  apply elem_of_app in Hp' as [Hin|Heq%list_elem_of_singleton]; [|congruence].
  split.
  - apply Hpos, elem_of_app. by left.
  - apply (StronglySorted_app_1_elem_of
             (λ x y, (rank log x < rank log y)%nat) l0 [b] b' b Hs Hin).
    by left.
Qed.

(** C1. In every state of a run, whichever calls produced it (a tick of
    [updateAnimation], a single [addTo] or [remove], a command, a timer),
    and for every target identity: at most one bubble of that target is
    displayed; a displayed bubble is the last element of the target's
    stack; that last element is displayed; every other attached bubble of
    the target is hidden; the stack holds exactly the attached bubbles of
    the target; and in every history of attachments that leads to the
    state, the displayed bubble was attached after every other attached
    bubble of the target: it is the most recently attached one. *)
Theorem one_displayed_bubble_per_target s tid :
  reachable s →
  (∀ b1 b2, targets s b1 tid → displayed s b1 →
            targets s b2 tid → displayed s b2 → b1 = b2) ∧
  (∀ b, targets s b tid → displayed s b → last (stackOf s tid) = Some b) ∧
  (∀ b, last (stackOf s tid) = Some b → targets s b tid ∧ displayed s b) ∧
  (∀ b w, targets s b tid → bubbles s !! b = Some w → is_Some (parent w) →
          last (stackOf s tid) ≠ Some b → visible w = false) ∧
  (∀ b, targets s b tid → (attached s b ↔ b ∈ stackOf s tid)) ∧
  NoDup (stackOf s tid) ∧
  (∃ log, history log s) ∧
  (∀ log b b', history log s →
     targets s b tid → displayed s b → targets s b' tid → attached s b' →
     b' ≠ b → (0 < rank log b' < rank log b)%nat).
Proof.
  intros Hr. pose proof (reachable_wf _ Hr) as Hwf.
  split; [|split; [|split; [|split; [|split; [|split; [|split]]]]]].
  - intros b1 b2 Ht1 Hd1 Ht2 Hd2.
    pose proof (wf_displayed_top _ _ _ Hwf Ht1 Hd1).
    pose proof (wf_displayed_top _ _ _ Hwf Ht2 Hd2). congruence.
  - intros b. by apply wf_displayed_top.
  - intros b. by apply wf_top_displayed.
  - intros b w (w' & Hw' & Ht) Hw Hp Hne.
    rewrite Hw in Hw'. injection Hw' as <-.
    destruct (wf_bubble_stack _ _ _ _ Hwf Hw Ht) as [_ Hv]. specialize (Hv Hp).
    destruct (visible w); [|done]. exfalso. by apply Hne, Hv.
  - intros b (w & Hw & Ht). split.
    + intros (w' & Hw' & Hp). rewrite Hw in Hw'. injection Hw' as <-.
      by apply (wf_bubble_stack _ _ _ _ Hwf Hw Ht).
    + intros Hin. exists w. split; [done|].
      by apply (wf_bubble_stack _ _ _ _ Hwf Hw Ht).
  - unfold stackOf. destruct (activeBubbles s !! tid) as [l|] eqn:Hl; simpl.
    + by apply (wf_stack _ Hwf _ _ Hl).
    + apply NoDup_nil_2.
  - by apply reachable_history.
  - intros log b b' Hh. by apply history_recency.
Qed.

(** ** Last in, first out *)

Lemma targetPosition_sprite h w :
  is_Some (Window_Bubble.characterSprite h w) →
  ∃ pos, Window_Bubble.targetPosition h w = Normal pos.
Proof.
  intros [sprite Hs]. unfold Window_Bubble.targetPosition. rewrite Hs. eauto.
Qed.

Lemma characterSprite_target h w w' :
  targetCharacter w' = targetCharacter w →
  Window_Bubble.characterSprite h w' = Window_Bubble.characterSprite h w.
Proof. unfold Window_Bubble.characterSprite. by intros ->. Qed.

(** C2. For two distinct detached bubbles [a] and [b] of one target:
    after [addTo a; addTo b], [a] is hidden and [b] is displayed; after
    [remove b], [a] is displayed again, with no further [addTo]. *)
Theorem lifo_visibility_resumes h scene a b wa wb tid l s :
  a ≠ b →
  bubbles s !! a = Some wa → bubbles s !! b = Some wb →
  parent wa = None → parent wb = None →
  Window_Bubble.targetId (targetCharacter wa) = Normal tid →
  Window_Bubble.targetId (targetCharacter wb) = Normal tid →
  activeBubbles s !! tid = Some l →
  is_Some (Window_Bubble.characterSprite h wa) →
  is_Some (Window_Bubble.characterSprite h wb) →
  ∃ s1 s2 s3,
    Window_Bubble.addTo h a scene s = (Normal tt, s1) ∧
    Window_Bubble.addTo h b scene s1 = (Normal tt, s2) ∧
    Window_Bubble.remove b s2 = (Normal tt, s3) ∧
    (attached s2 a ∧ ¬ displayed s2 a ∧ displayed s2 b) ∧
    (displayed s3 a ∧ ¬ attached s3 b).
Proof.
  intros Hab Ha Hb Hpa Hpb Hta Htb Hl Hsa Hsb.
  (* addTo a *)
  destruct (targetPosition_sprite h wa Hsa) as [posa Hposa].
  pose proof (addTo_detached h a wa scene tid l posa s Ha Hpa Hposa Hta Hl) as E1.
  set (l1 := filter (λ c, c ≠ a) l ++ [a]).
  set (s1 := added a scene tid l posa s) in *.
  assert (activeBubbles s1 !! tid = Some l1) as Hl1 by apply lookup_insert_eq.
  assert (∃ wa1, bubbles s1 !! a = Some wa1 ∧ parent wa1 = Some scene ∧
                 targetCharacter wa1 = targetCharacter wa) as (wa1 & Ha1 & Hpa1 & Htca1).
  { assert (is_Some (bubbles s1 !! a)) as [w Hw] by (apply added_bubble_is_Some; eauto).
    exists w. split; [done|].
    apply added_bubble in Hw as (w0 & Hw0 & Htc & _ & Hp & _).
    rewrite Ha in Hw0. injection Hw0 as <-.
    by rewrite decide_True in Hp. }
  assert (∃ wb1, bubbles s1 !! b = Some wb1 ∧ parent wb1 = None ∧
                 targetCharacter wb1 = targetCharacter wb) as (wb1 & Hb1 & Hpb1 & Htcb1).
  { assert (is_Some (bubbles s1 !! b)) as [w Hw] by (apply added_bubble_is_Some; eauto).
    exists w. split; [done|].
    apply added_bubble in Hw as (w0 & Hw0 & Htc & _ & Hp & _).
    rewrite Hb in Hw0. injection Hw0 as <-.
    rewrite decide_False in Hp by done. by rewrite Hp. }
  clearbody s1.
  (* addTo b *)
  destruct (targetPosition_sprite h wb1) as [posb Hposb].
  { by rewrite (characterSprite_target h wb). }
  rewrite <- Htcb1 in Htb.
  pose proof (addTo_detached h b wb1 scene tid l1 posb s1 Hb1 Hpb1 Hposb Htb Hl1) as E2.
  assert (last (filter (λ c, c ≠ b) l1) = Some a) as Hlast1.
  { unfold l1. rewrite filter_app, filter_cons_True by done. apply last_snoc. }
  set (l2 := filter (λ c, c ≠ b) l1 ++ [b]).
  set (s2 := added b scene tid l1 posb s1) in *.
  assert (activeBubbles s2 !! tid = Some l2) as Hl2 by apply lookup_insert_eq.
  assert (∃ wa2, bubbles s2 !! a = Some wa2 ∧ parent wa2 = Some scene ∧
                 visible wa2 = false ∧ targetCharacter wa2 = targetCharacter wa)
    as (wa2 & Ha2 & Hpa2 & Hva2 & Htca2).
  { assert (is_Some (bubbles s2 !! a)) as [w Hw] by (apply added_bubble_is_Some; eauto).
    exists w. split; [done|].
    apply added_bubble in Hw as (w0 & Hw0 & Htc & _ & Hp & Hv).
    rewrite Ha1 in Hw0. injection Hw0 as <-.
    rewrite decide_False in Hp by done. rewrite decide_False in Hv by done.
    rewrite decide_True in Hv by done. by rewrite Hp, Htc. }
  assert (∃ wb2, bubbles s2 !! b = Some wb2 ∧ parent wb2 = Some scene ∧
                 visible wb2 = true ∧ targetCharacter wb2 = targetCharacter wb1)
    as (wb2 & Hb2 & Hpb2 & Hvb2 & Htcb2).
  { assert (is_Some (bubbles s2 !! b)) as [w Hw] by (apply added_bubble_is_Some; eauto).
    exists w. split; [done|].
    apply added_bubble in Hw as (w0 & Hw0 & Htc & _ & Hp & Hv).
    rewrite Hb1 in Hw0. injection Hw0 as <-.
    rewrite decide_True in Hp by done. by rewrite decide_True in Hv. }
  clearbody s2.
  (* remove b *)
  rewrite <- Htcb2 in Htb.
  pose proof (remove_attached b wb2 scene tid l2 s2 Hb2 Hpb2 Htb Hl2) as E3.
  assert (last (filter (λ c, c ≠ b) l2) = Some a) as Hlast2.
  { unfold l2. rewrite filter_app, filter_cons_False by (intros H; by apply H).
    rewrite filter_nil, app_nil_r. by apply last_filter_keep. }
  set (s3 := removed b tid l2 s2) in *.
  assert (∃ wa3, bubbles s3 !! a = Some wa3 ∧ parent wa3 = Some scene ∧
                 visible wa3 = true) as (wa3 & Ha3 & Hpa3 & Hva3).
  { assert (is_Some (bubbles s3 !! a)) as [w Hw] by (apply removed_bubble_is_Some; eauto).
    exists w. split; [done|].
    apply removed_bubble in Hw as (w0 & Hw0 & _ & _ & Hp & Hv).
    rewrite Ha2 in Hw0. injection Hw0 as <-.
    rewrite decide_False in Hp by done. rewrite decide_True in Hv by done.
    by rewrite Hp. }
  assert (∃ wb3, bubbles s3 !! b = Some wb3 ∧ parent wb3 = None) as (wb3 & Hb3 & Hpb3).
  { assert (is_Some (bubbles s3 !! b)) as [w Hw] by (apply removed_bubble_is_Some; eauto).
    exists w. split; [done|].
    apply removed_bubble in Hw as (w0 & Hw0 & _ & _ & Hp & _).
    by rewrite decide_True in Hp. }
  clearbody s3.
  exists s1, s2, s3. repeat split; try done.
  - exists wa2. split; [done|]. rewrite Hpa2. eauto.
  - intros (w & Hw & _ & Hv). congruence.
  - exists wb2. split; [done|]. rewrite Hpb2. eauto.
  - exists wa3. split; [done|]. rewrite Hpa3. eauto.
  - intros (w & Hw & Hp). rewrite Hb3 in Hw. injection Hw as <-.
    rewrite Hpb3 in Hp. by destruct Hp.
Qed.

(** ** Idempotence *)

Lemma forEach_nil {A} (f : A → M unit) s : forEach [] f s = (Normal tt, s).
Proof. done. Qed.

(** C8. On any bubble in any state, [addTo] on an attached bubble and
    [remove] on a detached bubble return without changing the state, and
    [terminate] called again after a completed [terminate] returns without
    changing the state. *)
Theorem attach_detach_teardown_idempotent h scene b w s s1 :
  bubbles s !! b = Some w →
  (is_Some (parent w) → Window_Bubble.addTo h b scene s = (Normal tt, s)) ∧
  (parent w = None → Window_Bubble.remove b s = (Normal tt, s)) ∧
  (Scene_Map.terminate s = (Normal tt, s1) →
   Scene_Map.terminate s1 = (Normal tt, s1)).
Proof.
  intros Hb. split; [|split].
  - by apply addTo_attached.
  - by apply remove_detached.
  - unfold Scene_Map.terminate, bind, get, modify.
    destruct (forEach (speechBubbles s) Window_Bubble.remove s) as [[[]|e] s2];
      [|done].
    intros [= <-]. simpl. by destruct s2.
Qed.

(** ** The target of the [show] command *)

Lemma commandShow_eq h interp it args s :
  interpreters s !! interp = Some it →
  commandShow h interp args s
  = showBubble h (text args)
      (orValue (selectorTable h (_events h (pretty (_eventId it)))
                  (targetSelectorId args) (targetSelector args))
               (getEventById h (targetSelector args)))
      (toNumber h (durationMs args))
      (String.eqb (toLowerCase (isBlocking args)) "true")
      (set_currentInterpreter (Some interp) s).
Proof.
  intros Hi. unfold commandShow, bind at 1, modify.
  unfold bind at 1, getCurrentEvent, bind at 1, get. simpl.
  unfold bind at 1, interpreter. simpl. rewrite Hi. reflexivity.
Qed.

Lemma ownProperty_entry h currentEvent id key v :
  (key, v) ∈ selectorEntries h currentEvent id →
  ownProperty key (selectorEntries h currentEvent id) = Some v.
Proof.
  unfold selectorEntries. rewrite !elem_of_cons, elem_of_nil.
  intros [H|[H|[H|[H|[H|[H|[]]]]]]]; injection H as -> ->; reflexivity.
Qed.

(** C9. Whenever the entry of a recognised selector is falsy (a follower
    or event lookup that found nothing), the [show] command takes as target
    [getEventById] of the selector string itself. *)
Theorem falsy_selector_falls_back_to_event_id h interp it args v s :
  interpreters s !! interp = Some it →
  (targetSelector args, v)
    ∈ selectorEntries h (_events h (pretty (_eventId it))) (targetSelectorId args) →
  truthyValue v = false →
  commandShow h interp args s
  = showBubble h (text args) (getEventById h (targetSelector args))
      (toNumber h (durationMs args))
      (String.eqb (toLowerCase (isBlocking args)) "true")
      (set_currentInterpreter (Some interp) s).
Proof.
  intros Hi Hentry Hv. rewrite (commandShow_eq _ _ _ _ _ Hi).
  unfold selectorTable. rewrite (ownProperty_entry _ _ _ _ _ Hentry).
  unfold orValue. by rewrite Hv.
Qed.

(** ** Targets that do not resolve *)

Lemma showBubble_no_target h text target duration blocking s :
  target = VUndefined ∨ target = VNull →
  showBubble h text target duration blocking s = (Throw TypeError, s).
Proof.
  intros Ht. unfold showBubble, bind. rewrite initialize_eq.
  by destruct Ht as [-> | ->].
Qed.

(** C3, as the code has it.  When the target of a [show] command resolves
    to [undefined] or [null], constructing the bubble throws a [TypeError]
    that leaves the command handler; no bubble is created, attached or
    scheduled, and only [currentInterpreter] has been written. *)
Theorem unresolved_target_throws h interp it args s :
  interpreters s !! interp = Some it →
  let target :=
    orValue (selectorTable h (_events h (pretty (_eventId it)))
               (targetSelectorId args) (targetSelector args))
            (getEventById h (targetSelector args)) in
  target = VUndefined ∨ target = VNull →
  commandShow h interp args s
  = (Throw TypeError, set_currentInterpreter (Some interp) s).
Proof.
  intros Hi target Ht. rewrite (commandShow_eq _ _ _ _ _ Hi).
  by apply showBubble_no_target.
Qed.

(** ** Duration *)

Lemma showBubble_falsy_duration h text target d1 d2 blocking s :
  Num.truthy d1 = false → Num.truthy d2 = false →
  showBubble h text target d1 blocking s = showBubble h text target d2 blocking s.
Proof.
  intros H1 H2. unfold showBubble, Num.or. by rewrite H1, H2.
Qed.

(** ** The [show] command, step by step *)

Lemma showBubble_inv h text target duration blocking s s' :
  wf s →
  showBubble h text target duration blocking s = (Normal tt, s') →
  let b := nextBubble s in
  let len := foldl Window_Bubble.flushTextState 0 (textStates h text) in
  let T := Num.or duration (Num.mul (Num.ofZ len) (Num.ofZ 150)) in
  wf s' ∧
  (∃ w, bubbles s' !! b = Some w ∧ targetCharacter w = target ∧
        textLength w = len ∧ parent w = Some (_scene h) ∧ visible w = true) ∧
  timers s' = enqueue (mkTimer b T (clock s + timerDelay T)) (timers s) ∧
  clock s' = clock s ∧
  speechBubbles s' = speechBubbles s ∧
  nextBubble s' = S (nextBubble s) ∧
  if blocking
  then blockingSpeechBubble s' = Some b ∧
       ∃ i it, currentInterpreter s = Some i ∧ interpreters s' !! i = Some it ∧
               _waitMode it = WAITMODE_BUBBLE
  else blockingSpeechBubble s' = blockingSpeechBubble s ∧
       interpreters s' = interpreters s.
Proof.
  intros Hwf Hshow b len T.
  split.
  { replace s' with (snd (showBubble h text target duration blocking s))
      by by rewrite Hshow.
    by apply wf_showBubble. }
  revert Hshow. unfold showBubble, bind at 1. rewrite initialize_eq.
  destruct (Window_Bubble.targetId target) as [tid|e] eqn:Ht; [|done].
  fold b.
  pose proof (wf_constructed h target text tid s Hwf Ht) as Hwf1.
  destruct (constructed_fields h target text tid s)
    as (Hbub & Hnext & Hsp & Hbl & Hci & Hint & Htim & Hclk).
  fold b in Hbub.
  set (s1 := constructed h target text tid s) in *. clearbody s1.
  assert (∃ w1, bubbles s1 !! b = Some w1 ∧ parent w1 = None ∧
                targetCharacter w1 = target ∧ textLength w1 = len) as (w1 & Hw1 & Hp1 & Htc1 & Hlen1).
  { eexists. rewrite Hbub, lookup_insert_eq. by split. }
  unfold bind at 1.
  destruct (addTo_outcome h b (_scene h) s1 Hwf1)
    as [->|[(w & Hw & Hp & _)|(w & tid' & l & pos & Hw & _ & _ & _ & _ & _ & ->)]];
    [done| |].
  { rewrite Hw1 in Hw. injection Hw as <-. rewrite Hp1 in Hp. by destruct Hp. }
  rewrite Hw1 in Hw. injection Hw as <-.
  set (s2 := added b (_scene h) tid' l pos s1).
  assert (∃ w2, bubbles s2 !! b = Some w2 ∧ targetCharacter w2 = target ∧
                textLength w2 = len ∧ parent w2 = Some (_scene h) ∧
                visible w2 = true) as (w2 & Hw2 & Htc2 & Hlen2 & Hp2 & Hv2).
  { assert (is_Some (bubbles s2 !! b)) as [w2 Hw2].
    { apply added_bubble_is_Some. eauto. }
    exists w2. split; [done|].
    apply added_bubble in Hw2 as (w0 & Hw0 & Htc & Hlen & Hp & Hv).
    rewrite Hw1 in Hw0. injection Hw0 as <-.
    rewrite decide_True in Hp by done. rewrite decide_True in Hv by done.
    by rewrite Htc, Hlen. }
  destruct (added_fields b (_scene h) tid' l pos s1)
    as (Hn2 & Hsp2 & Hbl2 & Hci2 & Hint2 & Htim2 & Hclk2).
  fold s2 in Hn2, Hsp2, Hbl2, Hci2, Hint2, Htim2, Hclk2. clearbody s2.
  unfold bind at 1, bind at 1. rewrite (this_ok _ _ _ Hw2), Hlen2.
  fold T. unfold setTimeout, modify.
  destruct blocking.
  - unfold bind at 1, modify, bind at 1, get. simpl.
    rewrite Hci2, Hci.
    destruct (currentInterpreter s) as [i|] eqn:Hcur; [|done].
    unfold setWaitMode, bind at 1, interpreter. simpl.
    rewrite Hint2, Hint.
    destruct (interpreters s !! i) as [it|] eqn:Hit; [|done].
    unfold modify. intros [= <-]. simpl.
    rewrite Htim2, Htim, Hclk2, Hclk, Hsp2, Hsp, Hn2, Hnext.
    split; [by exists w2|]. split; [done|]. split; [done|]. split; [done|].
    split; [done|]. split; [done|]. exists i. eexists. split; [done|].
    rewrite Hint2, Hint, lookup_alter_eq, Hit. simpl. done.
  - unfold ret. intros [= <-]. simpl.
    rewrite Htim2, Htim, Hclk2, Hclk, Hsp2, Hsp, Hbl2, Hbl, Hint2, Hint, Hn2, Hnext.
    split; [by exists w2|]. done.
Qed.

(** ** Time *)

(** What [remove c] does to the parent of a bubble [b]. *)
Lemma remove_parent c s b w :
  wf s → bubbles s !! b = Some w →
  ∃ w', bubbles (snd (Window_Bubble.remove c s)) !! b = Some w' ∧
        parent w' = (if decide (b = c) then None else parent w).
Proof.
  intros Hwf Hb.
  destruct (remove_outcome c s Hwf)
    as [[Hc ->]|[(wc & Hc & Hp & ->)|(wc & scene & tid & l & Hc & Hp & _ & _ & _ & ->)]];
    cbn [snd].
  - exists w. split; [done|]. destruct (decide (b = c)) as [->|Hne]; [congruence|done].
  - exists w. split; [done|]. destruct (decide (b = c)) as [->|Hne]; [congruence|done].
  - assert (is_Some (bubbles (removed c tid l s) !! b)) as [w' Hw'].
    { apply removed_bubble_is_Some. eauto. }
    exists w'. split; [done|].
    apply removed_bubble in Hw' as (w0 & Hw0 & _ & _ & Hpar & _).
    rewrite Hb in Hw0. by injection Hw0 as <-.
Qed.

Lemma fire_all_parent ts s b w :
  wf s → bubbles s !! b = Some w →
  ∃ w', bubbles (foldl fire s ts) !! b = Some w' ∧
        parent w' = (if decide (b ∈ handler <$> ts) then None else parent w).
Proof.
  revert s w. induction ts as [|t ts IH]; intros s w Hwf Hb.
  - exists w. split; [done|].
    destruct (decide (b ∈ handler <$> [])) as [H|]; [|done].
    by apply elem_of_nil in H.
  - change (foldl fire s (t :: ts)) with (foldl fire (fire s t) ts).
    rewrite fmap_cons.
    destruct (remove_parent (handler t) s b w Hwf Hb) as (w1 & Hw1 & Hp1).
    destruct (IH (fire s t) w1) as (w' & Hw' & Hp'); [by apply wf_remove|done|].
    exists w'. split; [done|]. rewrite Hp', Hp1.
    destruct (decide (b = handler t)) as [->|Hne].
    + rewrite (decide_True (P := handler t ∈ handler t :: _)) by left.
      by case_decide.
    + destruct (decide (b ∈ handler <$> ts)) as [Hin|Hnin].
      * by rewrite decide_True by by right.
      * rewrite decide_False; [done|]. rewrite not_elem_of_cons. done.
Qed.

Lemma advance_parent dt s b w :
  wf s → bubbles s !! b = Some w →
  ∃ w', bubbles (advance dt s) !! b = Some w' ∧
        parent w' = (if decide (b ∈ handler <$> filter (λ t, due t ≤ clock s + dt) (timers s))
                     then None else parent w).
Proof.
  intros [H1 H2 H3 H4 H5] Hb. unfold advance.
  apply fire_all_parent; [|done].
  split; try assumption.
  simpl. intros t [_ Ht]%list_elem_of_filter. by apply H4.
Qed.

Lemma fire_all_fields ts s :
  wf s →
  blockingSpeechBubble (foldl fire s ts) = blockingSpeechBubble s ∧
  interpreters (foldl fire s ts) = interpreters s ∧
  currentInterpreter (foldl fire s ts) = currentInterpreter s.
Proof.
  revert s. induction ts as [|t ts IH]; intros s Hwf; [done|]. simpl.
  destruct (IH (fire s t)) as (-> & -> & ->); [by apply wf_remove|].
  unfold fire.
  by destruct (remove_outcome (handler t) s Hwf)
    as [[_ ->]|[(w & _ & _ & ->)|(w & scene & tid & l & _ & _ & _ & _ & _ & ->)]].
Qed.

Lemma advance_fields dt s :
  wf s →
  blockingSpeechBubble (advance dt s) = blockingSpeechBubble s ∧
  interpreters (advance dt s) = interpreters s ∧
  currentInterpreter (advance dt s) = currentInterpreter s.
Proof.
  intros [H1 H2 H3 H4 H5]. unfold advance.
  edestruct fire_all_fields as (-> & -> & ->); [|done].
  split; try assumption.
  simpl. intros t [_ Ht]%list_elem_of_filter. by apply H4.
Qed.

(** The timer of a fresh bubble is the only one that removes it. *)
Lemma fresh_timer_due b T at_ dt s :
  wf s → nextBubble s = b →
  b ∈ handler <$> filter (λ t, due t ≤ dt) (enqueue (mkTimer b T at_) (timers s))
  ↔ at_ ≤ dt.
Proof.
  intros Hwf Hb. rewrite list_elem_of_fmap. split.
  - intros (t & Ht & [Hd [Heq|Hin]%elem_of_enqueue]%list_elem_of_filter).
    + by rewrite Heq in Hd.
    + apply (wf_timers _ Hwf) in Hin. lia.
  - intros Hd. exists (mkTimer b T at_). split; [done|].
    apply list_elem_of_filter. split; [done|]. apply elem_of_enqueue. by left.
Qed.

Lemma updateWaitMode_bubble base i it b w s :
  interpreters s !! i = Some it → _waitMode it = WAITMODE_BUBBLE →
  blockingSpeechBubble s = Some b → bubbles s !! b = Some w →
  Game_Interpreter.updateWaitMode base i s
  = (Normal (bool_decide (is_Some (parent w))), s).
Proof.
  intros Hi Hm Hbl Hb.
  unfold Game_Interpreter.updateWaitMode, bind at 1, interpreter. rewrite Hi, Hm.
  simpl. unfold bind at 1, get. rewrite Hbl.
  unfold Window_Bubble.isActive, bind. by rewrite (this_ok _ _ _ Hb).
Qed.

Lemma show_then_advance h text target duration blocking s s' dt :
  wf s →
  showBubble h text target duration blocking s = (Normal tt, s') →
  let b := nextBubble s in
  let len := foldl Window_Bubble.flushTextState 0 (textStates h text) in
  let T := Num.or duration (Num.mul (Num.ofZ len) (Num.ofZ 150)) in
  ∃ w', bubbles (advance dt s') !! b = Some w' ∧
        (is_Some (parent w') ↔ dt < timerDelay T).
Proof.
  intros Hwf Hshow b len T.
  destruct (showBubble_inv _ _ _ _ _ _ _ Hwf Hshow)
    as (Hwf' & (w & Hw & _ & _ & Hp & _) & Htim & Hclk & _).
  fold b len T in Htim.
  destruct (advance_parent dt s' b w Hwf' Hw) as (w' & Hw' & Hp').
  exists w'. split; [done|]. rewrite Hp', Htim, Hclk.
  pose proof (fresh_timer_due b T (clock s + timerDelay T) (clock s + dt) s Hwf eq_refl)
    as Hdue.
  destruct (decide (b ∈ handler <$>
              filter (λ t, due t ≤ clock s + dt)
                (enqueue (mkTimer b T (clock s + timerDelay T)) (timers s)))) as [Hin|Hnin].
  - apply Hdue in Hin. split; [by intros []|lia].
  - rewrite Hp. split; [|eauto]. intros _.
    destruct (Z_lt_le_dec dt (timerDelay T)) as [|Hle]; [done|].
    exfalso. apply Hnin, Hdue. lia.
Qed.

Lemma commandShow_interpreter h interp args s s' :
  commandShow h interp args s = (Normal tt, s') →
  ∃ it, interpreters s !! interp = Some it.
Proof.
  unfold commandShow, bind at 1, modify.
  unfold bind at 1, getCurrentEvent, bind at 1, get. simpl.
  unfold bind at 1, interpreter. simpl.
  destruct (interpreters s !! interp) as [it|]; [eauto|done].
Qed.

Lemma wf_set_currentInterpreter v s : wf s → wf (set_currentInterpreter v s).
Proof. by apply wf_ext. Qed.



(** C10. When [Number(durationMs)] is [NaN], the [show] command does
    what it does for a [durationMs] that converts to 0, and the expiry it
    schedules has the delay [visibleLength * 150]. *)
Theorem nan_duration_is_auto_duration h interp args zero s :
  toNumber h (durationMs args) = Num.NaN →
  toNumber h zero = Num.ofZ 0 →
  let visibleLength :=
    foldl Window_Bubble.flushTextState 0 (textStates h (text args)) in
  let T := Num.mul (Num.ofZ visibleLength) (Num.ofZ 150) in
  commandShow h interp args s
  = commandShow h interp
      (mkShowArgs (text args) (targetSelector args) (targetSelectorId args)
         zero (isBlocking args)) s ∧
  (∀ s', reachable s → commandShow h interp args s = (Normal tt, s') →
         mkTimer (nextBubble s) T (clock s + timerDelay T) ∈ timers s').
Proof.
  intros Hnan Hzero visibleLength T. split.
  - unfold commandShow, bind. simpl.
    destruct (getCurrentEvent h (set_currentInterpreter (Some interp) s))
      as [[currentEvent|e] s1]; [|done].
    rewrite Hnan, Hzero. by apply showBubble_falsy_duration.
  - intros s' Hwf%reachable_wf Hshow.
    destruct (commandShow_interpreter _ _ _ _ _ Hshow) as [it Hit].
    rewrite (commandShow_eq _ _ _ _ _ Hit), Hnan in Hshow.
    apply (wf_set_currentInterpreter (Some interp)) in Hwf.
    destruct (showBubble_inv _ _ _ _ _ _ _ Hwf Hshow) as (_ & _ & Htim & _).
    rewrite Htim. apply elem_of_enqueue. by left.
Qed.

(** ** The sample game *)

Lemma start_reachable : reachable Sample.start.
Proof. eexists. apply rtc_refl. Qed.

Lemma crowded_reachable : reachable Sample.crowded.
Proof.
  exists {[ 0%nat := mkInterpreter 3 "" ]}.
  eapply rtc_l; [apply (step_show Sample.host 0%nat Sample.hello)|].
  eapply rtc_l; [apply (step_create Sample.host)|].
  eapply rtc_l; [apply (step_tick Sample.host)|].
  eapply rtc_l; [apply (step_show Sample.host 0%nat Sample.greeting)|].
  apply rtc_refl.
Qed.

Lemma one_displayed_bubble_per_target_witness :
  (∀ b1 b2, targets Sample.crowded b1 "e3" → displayed Sample.crowded b1 →
            targets Sample.crowded b2 "e3" → displayed Sample.crowded b2 → b1 = b2) ∧
  (∀ b, targets Sample.crowded b "e3" → displayed Sample.crowded b →
        last (stackOf Sample.crowded "e3") = Some b) ∧
  (∀ b, last (stackOf Sample.crowded "e3") = Some b →
        targets Sample.crowded b "e3" ∧ displayed Sample.crowded b) ∧
  (∀ b w, targets Sample.crowded b "e3" → bubbles Sample.crowded !! b = Some w →
          is_Some (parent w) →
          last (stackOf Sample.crowded "e3") ≠ Some b → visible w = false) ∧
  (∀ b, targets Sample.crowded b "e3" →
        (attached Sample.crowded b ↔ b ∈ stackOf Sample.crowded "e3")) ∧
  NoDup (stackOf Sample.crowded "e3") ∧
  (∃ log, history log Sample.crowded) ∧
  (∀ log b b', history log Sample.crowded →
     targets Sample.crowded b "e3" → displayed Sample.crowded b →
     targets Sample.crowded b' "e3" → attached Sample.crowded b' →
     b' ≠ b → (0 < rank log b' < rank log b)%nat).
Proof.
  exact (one_displayed_bubble_per_target Sample.crowded "e3" crowded_reachable).
Defined.

Lemma lifo_visibility_resumes_witness :
  ∃ s1 s2 s3,
    Window_Bubble.addTo Sample.host 0 7%nat Sample.pair = (Normal tt, s1) ∧
    Window_Bubble.addTo Sample.host 1 7%nat s1 = (Normal tt, s2) ∧
    Window_Bubble.remove 1 s2 = (Normal tt, s3) ∧
    (attached s2 0%nat ∧ ¬ displayed s2 0%nat ∧ displayed s2 1%nat) ∧
    (displayed s3 0%nat ∧ ¬ attached s3 1%nat).
Proof.
  eapply (lifo_visibility_resumes Sample.host 7%nat 0%nat 1%nat _ _ "e3" [] Sample.pair).
  - discriminate.
  - vm_compute. reflexivity.
  - vm_compute. reflexivity.
  - reflexivity.
  - reflexivity.
  - reflexivity.
  - reflexivity.
  - vm_compute. reflexivity.
  - vm_compute. eexists. reflexivity.
  - vm_compute. eexists. reflexivity.
Defined.

(** The claim that no exception leaves the command fails on a follower
    index that is out of range: the handler throws, and no bubble exists
    afterwards. *)
Lemma out_of_range_follower_throws :
  commandShow Sample.host 0%nat Sample.lost Sample.start
  = (Throw TypeError, set_currentInterpreter (Some 0%nat) Sample.start).
Proof. vm_compute. reflexivity. Qed.

Lemma unresolved_target_throws_witness :
  commandShow Sample.host 0%nat Sample.lost Sample.start
  = (Throw TypeError, set_currentInterpreter (Some 0%nat) Sample.start).
Proof.
  eapply (unresolved_target_throws Sample.host 0%nat _ Sample.lost Sample.start).
  - vm_compute. reflexivity.
  - left. vm_compute. reflexivity.
Defined.

Lemma attach_detach_teardown_idempotent_witness :
  Window_Bubble.addTo Sample.host 1 7%nat Sample.ticked = (Normal tt, Sample.ticked) ∧
  Window_Bubble.remove 1 Sample.loaded = (Normal tt, Sample.loaded) ∧
  Scene_Map.terminate (snd (Scene_Map.terminate Sample.ticked))
    = (Normal tt, snd (Scene_Map.terminate Sample.ticked)).
Proof.
  destruct (bubbles Sample.ticked !! 1%nat) as [w|] eqn:Ew; [|by vm_compute in Ew].
  destruct (bubbles Sample.loaded !! 1%nat) as [v|] eqn:Ev; [|by vm_compute in Ev].
  pose proof (attach_detach_teardown_idempotent Sample.host 7%nat 1%nat w
                Sample.ticked (snd (Scene_Map.terminate Sample.ticked)) Ew)
    as (Hadd & _ & Hend).
  pose proof (attach_detach_teardown_idempotent Sample.host 7%nat 1%nat v
                Sample.loaded Sample.loaded Ev)
    as (_ & Hremove & _).
  vm_compute in Ew. injection Ew as <-.
  vm_compute in Ev. injection Ev as <-.
  split; [|split].
  - apply Hadd. eexists. reflexivity.
  - apply Hremove. reflexivity.
  - apply Hend. vm_compute. reflexivity.
Defined.

Lemma falsy_selector_falls_back_to_event_id_witness :
  commandShow Sample.host 0%nat Sample.lost Sample.start
  = showBubble Sample.host "Hi" (getEventById Sample.host "Follower")
      (toNumber Sample.host "0") true
      (set_currentInterpreter (Some 0%nat) Sample.start).
Proof.
  eapply (falsy_selector_falls_back_to_event_id Sample.host 0%nat _ Sample.lost
            VUndefined Sample.start).
  - vm_compute. reflexivity.
  - vm_compute. do 4 right. left.
  - reflexivity.
Defined.

Lemma nan_duration_is_auto_duration_witness :
  commandShow Sample.host 0%nat Sample.vague Sample.start
  = commandShow Sample.host 0%nat Sample.hello Sample.start ∧
  mkTimer 0%nat (Num.mul (Num.ofZ 10) (Num.ofZ 150)) 1500
    ∈ timers (snd (commandShow Sample.host 0%nat Sample.vague Sample.start)).
Proof.
  destruct (nan_duration_is_auto_duration Sample.host 0%nat Sample.vague "0" Sample.start)
    as [Hsame Htimer].
  - vm_compute. reflexivity.
  - vm_compute. reflexivity.
  - split; [exact Hsame|].
    apply (Htimer _ start_reachable). vm_compute. reflexivity.
Defined.

(** ** What a call does to the other bubbles *)

Lemma addTo_bubble h c scene s b w :
  wf s → bubbles s !! b = Some w →
  ∃ w', bubbles (snd (Window_Bubble.addTo h c scene s)) !! b = Some w' ∧
        targetCharacter w' = targetCharacter w ∧
        (c ≠ b → parent w' = parent w) ∧
        (∀ wc, bubbles s !! c = Some wc →
               Window_Bubble.targetId (targetCharacter wc)
               ≠ Window_Bubble.targetId (targetCharacter w) →
               visible w' = visible w).
Proof.
  intros Hwf Hb.
  destruct (addTo_outcome h c scene s Hwf)
    as [->|[(wc & _ & _ & ->)|(wc & tid & l & pos & Hc & _ & Htc & Hl & Hnin & _ & ->)]];
    cbn [snd]; [by exists w..|].
  assert (is_Some (bubbles (added c scene tid l pos s) !! b)) as [w' Hw'].
  { apply added_bubble_is_Some. eauto. }
  exists w'. split; [done|].
  apply added_bubble in Hw' as (w0 & Hw0 & Htgt & _ & Hpar & Hvis).
  rewrite Hb in Hw0. injection Hw0 as <-.
  split; [done|]. split.
  - intros Hne. by rewrite Hpar, decide_False.
  - intros wc' Hc' Hdiff. rewrite Hc in Hc'. injection Hc' as <-.
    rewrite Hvis. rewrite decide_False by (intros ->; congruence).
    rewrite decide_False; [done|].
    intros Hlast%last_Some_elem_of. apply list_elem_of_filter in Hlast as [_ Hin].
    destruct (wf_stack _ Hwf _ _ Hl) as [_ Hel].
    destruct (Hel _ Hin) as (w1 & Hw1 & Ht1 & _).
    rewrite Hb in Hw1. injection Hw1 as <-. congruence.
Qed.

Lemma remove_bubble c s b w :
  wf s → bubbles s !! b = Some w →
  ∃ w', bubbles (snd (Window_Bubble.remove c s)) !! b = Some w' ∧
        targetCharacter w' = targetCharacter w ∧
        parent w' = (if decide (b = c) then None else parent w) ∧
        (∀ wc, bubbles s !! c = Some wc →
               Window_Bubble.targetId (targetCharacter wc)
               ≠ Window_Bubble.targetId (targetCharacter w) →
               visible w' = visible w).
Proof.
  intros Hwf Hb.
  destruct (remove_outcome c s Hwf)
    as [[Hc ->]|[(wc & Hc & Hp & ->)|(wc & scene & tid & l & Hc & Hp & Htc & Hl & _ & ->)]];
    cbn [snd].
  - exists w. repeat split; try done.
    destruct (decide (b = c)) as [->|Hne]; [congruence|done].
  - exists w. repeat split; try done.
    destruct (decide (b = c)) as [->|Hne]; [congruence|done].
  - assert (is_Some (bubbles (removed c tid l s) !! b)) as [w' Hw'].
    { apply removed_bubble_is_Some. eauto. }
    exists w'. split; [done|].
    apply removed_bubble in Hw' as (w0 & Hw0 & Htgt & _ & Hpar & Hvis).
    rewrite Hb in Hw0. injection Hw0 as <-.
    split; [done|]. split; [done|].
    intros wc' Hc' Hdiff. rewrite Hc in Hc'. injection Hc' as <-.
    rewrite Hvis. rewrite decide_False; [done|].
    intros Hlast%last_Some_elem_of. apply list_elem_of_filter in Hlast as [_ Hin].
    destruct (wf_stack _ Hwf _ _ Hl) as [_ Hel].
    destruct (Hel _ Hin) as (w1 & Hw1 & Ht1 & _).
    rewrite Hb in Hw1. injection Hw1 as <-. congruence.
Qed.

(** The stack of another target is not written. *)
Lemma addTo_stack h c scene s wc tid :
  wf s → bubbles s !! c = Some wc →
  Window_Bubble.targetId (targetCharacter wc) ≠ Normal tid →
  activeBubbles (snd (Window_Bubble.addTo h c scene s)) !! tid = activeBubbles s !! tid.
Proof.
  intros Hwf Hc Hne.
  destruct (addTo_outcome h c scene s Hwf)
    as [->|[(wc' & _ & _ & ->)|(wc' & tid' & l & pos & Hc' & _ & Htc & _ & _ & _ & ->)]];
    cbn [snd]; [done..|].
  rewrite Hc in Hc'. injection Hc' as <-.
  simpl. rewrite !lookup_insert_ne; [done|congruence..].
Qed.

Lemma remove_stack c s wc tid :
  wf s → bubbles s !! c = Some wc →
  Window_Bubble.targetId (targetCharacter wc) ≠ Normal tid →
  activeBubbles (snd (Window_Bubble.remove c s)) !! tid = activeBubbles s !! tid.
Proof.
  intros Hwf Hc Hne.
  destruct (remove_outcome c s Hwf)
    as [[_ ->]|[(wc' & _ & _ & ->)|(wc' & scene & tid' & l & Hc' & _ & Htc & _ & _ & ->)]];
    cbn [snd]; [done..|].
  rewrite Hc in Hc'. injection Hc' as <-.
  simpl. rewrite lookup_insert_ne; [done|congruence].
Qed.

(** ** One tick *)

Lemma updateAnimation_eq h s :
  Game_Player.updateAnimation h s = forEach (speechBubbles s) (visit h) s.
Proof. reflexivity. Qed.

Lemma forEach_cons_inv {A} (f : A → M unit) a l s s' :
  forEach (a :: l) f s = (Normal tt, s') →
  ∃ s1, f a s = (Normal tt, s1) ∧ forEach l f s1 = (Normal tt, s').
Proof.
  simpl. unfold bind. destruct (f a s) as [[[]|e] s1]; [|done]. eauto.
Qed.

Lemma isPlayerWithinDistance_eq h b w s :
  bubbles s !! b = Some w →
  Window_Bubble.isPlayerWithinDistance h b s
  = (Normal (withinDistance h (targetCharacter w)), s).
Proof.
  intros Hb. unfold Window_Bubble.isPlayerWithinDistance, bind.
  by rewrite (this_ok _ _ _ Hb).
Qed.

Lemma isOtherBubbleActive_eq b w tid l s :
  bubbles s !! b = Some w →
  Window_Bubble.targetId (targetCharacter w) = Normal tid →
  activeBubbles s !! tid = Some l →
  Window_Bubble.isOtherBubbleActive b s
  = (Normal (match last l with Some c => bool_decide (c ≠ b) | None => false end), s).
Proof.
  intros Hb Ht Hl. unfold Window_Bubble.isOtherBubbleActive, bind.
  by rewrite (activeBubble_ok _ _ _ _ _ Hb Ht Hl).
Qed.

Lemma visit_eq h b w tid l s :
  bubbles s !! b = Some w →
  Window_Bubble.targetId (targetCharacter w) = Normal tid →
  activeBubbles s !! tid = Some l →
  visit h b s
  = if withinDistance h (targetCharacter w) &&
       negb (match last l with Some c => bool_decide (c ≠ b) | None => false end)
    then Window_Bubble.addTo h b (_scene h) s
    else Window_Bubble.remove b s.
Proof.
  intros Hb Ht Hl. unfold visit, bind at 1.
  rewrite (isPlayerWithinDistance_eq _ _ _ _ Hb).
  destruct (withinDistance h (targetCharacter w)); [|done].
  unfold bind at 1, bind at 1.
  rewrite (isOtherBubbleActive_eq _ _ _ _ _ Hb Ht Hl). unfold ret.
  by destruct (negb _).
Qed.

Lemma visit_cases h c s :
  wf s →
  visit h c s = (Throw TypeError, s) ∨
  visit h c s = Window_Bubble.addTo h c (_scene h) s ∨
  visit h c s = Window_Bubble.remove c s.
Proof.
  intros Hwf. destruct (bubbles s !! c) as [wc|] eqn:Hc.
  - destruct (wf_target _ Hwf _ _ Hc) as (tid & l & Ht & Hl & _).
    rewrite (visit_eq _ _ _ _ _ _ Hc Ht Hl). destruct (_ && _); eauto.
  - left. unfold visit, bind, Window_Bubble.isPlayerWithinDistance, bind.
    unfold Window_Bubble.this. by rewrite Hc.
Qed.

Lemma wf_visit h c : preserves wf (visit h c).
Proof.
  intros s Hwf.
  destruct (visit_cases h c s Hwf) as [->|[->| ->]];
    [done|by apply wf_addTo|by apply wf_remove].
Qed.

Lemma visit_bubble h c s b w :
  wf s → bubbles s !! b = Some w →
  ∃ w', bubbles (snd (visit h c s)) !! b = Some w' ∧
        targetCharacter w' = targetCharacter w ∧
        (c ≠ b → parent w' = parent w) ∧
        (∀ wc, bubbles s !! c = Some wc →
               Window_Bubble.targetId (targetCharacter wc)
               ≠ Window_Bubble.targetId (targetCharacter w) →
               visible w' = visible w).
Proof.
  intros Hwf Hb.
  destruct (visit_cases h c s Hwf) as [->|[->| ->]].
  - by exists w.
  - by apply addTo_bubble.
  - destruct (remove_bubble c s b w Hwf Hb) as (w' & Hw' & Ht & Hp & Hv).
    exists w'. repeat split; try done.
    intros Hne. by rewrite Hp, decide_False.
Qed.

Lemma visit_stack h c s wc tid :
  wf s → bubbles s !! c = Some wc →
  Window_Bubble.targetId (targetCharacter wc) ≠ Normal tid →
  activeBubbles (snd (visit h c s)) !! tid = activeBubbles s !! tid.
Proof.
  intros Hwf Hc Hne.
  destruct (visit_cases h c s Hwf) as [->|[->| ->]];
    [done|by eapply addTo_stack|by eapply remove_stack].
Qed.

Lemma visit_domain h c s b :
  wf s → is_Some (bubbles (snd (visit h c s)) !! b) → is_Some (bubbles s !! b).
Proof.
  intros Hwf.
  destruct (visit_cases h c s Hwf) as [->|[->| ->]]; [done| |].
  - destruct (addTo_outcome h c (_scene h) s Hwf)
      as [->|[(wc & _ & _ & ->)|(wc & tid & l & pos & _ & _ & _ & _ & _ & _ & ->)]];
      cbn [snd]; [done..|]. apply added_bubble_is_Some.
  - destruct (remove_outcome c s Hwf)
      as [[_ ->]|[(wc & _ & _ & ->)|(wc & scene & tid & l & _ & _ & _ & _ & _ & ->)]];
      cbn [snd]; [done..|]. apply removed_bubble_is_Some.
Qed.

Lemma visit_targets h c s b tid :
  wf s → (targets (snd (visit h c s)) b tid ↔ targets s b tid).
Proof.
  intros Hwf. split.
  - intros (w' & Hw' & Ht').
    destruct (visit_domain h c s b Hwf) as [w Hw]; [eauto|].
    destruct (visit_bubble h c s b w Hwf Hw) as (w2 & Hw2 & Htc & _).
    rewrite Hw' in Hw2. injection Hw2 as <-. exists w. by rewrite <- Htc.
  - intros (w & Hw & Ht).
    destruct (visit_bubble h c s b w Hwf Hw) as (w' & Hw' & Htc & _).
    exists w'. by rewrite Htc.
Qed.

(** A bubble out of range is detached by the tick. *)
Lemma tick_far h l : ∀ s s' b w,
  wf s → bubbles s !! b = Some w →
  withinDistance h (targetCharacter w) = false →
  b ∈ l ∨ parent w = None →
  forEach l (visit h) s = (Normal tt, s') →
  ∃ w', bubbles s' !! b = Some w' ∧ parent w' = None.
Proof.
  induction l as [|c l IH]; intros s s' b w Hwf Hb Hfar Hin Hrun.
  - injection Hrun as <-. destruct Hin as [Hin|Hp]; [by apply elem_of_nil in Hin|eauto].
  - apply forEach_cons_inv in Hrun as (s1 & Hc & Hrun).
    assert (s1 = snd (visit h c s)) as -> by by rewrite Hc.
    destruct (visit_bubble h c s b w Hwf Hb) as (w1 & Hw1 & Htc & Hpar & _).
    apply (IH (snd (visit h c s)) s' b w1); [by apply wf_visit|done|by rewrite Htc| |done].
    destruct (decide (c = b)) as [->|Hne].
    + right. clear Hpar.
      destruct (wf_target _ Hwf _ _ Hb) as (tid & lb & Ht & Hl & _).
      rewrite (visit_eq _ _ _ _ _ _ Hb Ht Hl), Hfar in Hw1. simpl in Hw1.
      destruct (remove_bubble b s b w Hwf Hb) as (w2 & Hw2 & _ & Hp2 & _).
      rewrite Hw1 in Hw2. injection Hw2 as <-. by rewrite decide_True in Hp2.
    + rewrite (Hpar Hne). destruct Hin as [Hin|Hp]; [|by right].
      left. apply elem_of_cons in Hin as [->|Hin]; done.
Qed.

Lemma targets_tid s b w tid wc c :
  wf s → bubbles s !! b = Some w →
  Window_Bubble.targetId (targetCharacter w) = Normal tid →
  bubbles s !! c = Some wc → ¬ targets s c tid →
  Window_Bubble.targetId (targetCharacter wc)
  ≠ Window_Bubble.targetId (targetCharacter w).
Proof.
  intros Hwf Hb Ht Hc Hn Heq. apply Hn. exists wc. split; [done|]. congruence.
Qed.

(** Once displayed, a bubble within range stays displayed through the
    visits of the bubbles of other targets and of itself. *)
Lemma tick_near_after h tid l : ∀ s s' b,
  wf s → targets s b tid → displayed s b →
  (∀ w, bubbles s !! b = Some w → withinDistance h (targetCharacter w) = true) →
  (∀ c, c ∈ l → targets s c tid → c = b) →
  forEach l (visit h) s = (Normal tt, s') →
  displayed s' b.
Proof.
  induction l as [|c l IH]; intros s s' b Hwf Ht Hd Hnear Hsolo Hrun.
  - by injection Hrun as <-.
  - apply forEach_cons_inv in Hrun as (s1 & Hc & Hrun).
    assert (s1 = snd (visit h c s)) as -> by by rewrite Hc.
    destruct Hd as (w & Hw & Hp & Hv).
    destruct Ht as (w0 & Hw0 & Ht). rewrite Hw in Hw0. injection Hw0 as <-.
    destruct (visit_bubble h c s b w Hwf Hw) as (w1 & Hw1 & Htc & Hpar & Hvis).
    apply (IH (snd (visit h c s)) s' b); [by apply wf_visit| | | | |done].
    + exists w1. by rewrite Htc.
    + destruct (decide (c = b)) as [->|Hne].
      * clear Hpar Hvis.
        destruct (wf_target _ Hwf _ _ Hw) as (tid' & lb & Ht' & Hl & _).
        assert (last lb = Some b) as Hlast.
        { assert (last (stackOf s tid') = Some b) as Hlast.
          { apply wf_displayed_top; [done|by exists w|by exists w]. }
          unfold stackOf in Hlast. by rewrite Hl in Hlast. }
        rewrite (visit_eq _ _ _ _ _ _ Hw Ht' Hl), (Hnear _ Hw), Hlast.
        rewrite bool_decide_eq_false_2 by (intros H; by apply H).
        simpl. rewrite (addTo_attached _ _ _ _ _ Hw Hp). by exists w.
      * destruct (bubbles s !! c) as [wc|] eqn:Hwc.
        -- exists w1. split; [done|]. rewrite (Hpar Hne). split; [done|].
           rewrite (Hvis wc eq_refl); [done|].
           eapply targets_tid; try done. intros Htc'. apply Hne, Hsolo; [left|done].
        -- exfalso. revert Hc. unfold visit, bind, Window_Bubble.isPlayerWithinDistance, bind.
           unfold Window_Bubble.this. by rewrite Hwc.
    + intros w' Hw'. rewrite Hw1 in Hw'. injection Hw' as <-. rewrite Htc. by apply Hnear.
    + intros c' Hc' Htc'. apply Hsolo; [by right|]. by apply (visit_targets h c s).
Qed.

(** A bubble within range with no rival on its target is displayed by
    the tick. *)
Lemma tick_near_before h tid l : ∀ s s' b,
  wf s → targets s b tid →
  (∀ w, bubbles s !! b = Some w → withinDistance h (targetCharacter w) = true) →
  (∀ c, c ∈ stackOf s tid → c = b) →
  (∀ c, c ∈ l → targets s c tid → c = b) →
  b ∈ l →
  forEach l (visit h) s = (Normal tt, s') →
  displayed s' b.
Proof.
  induction l as [|c l IH]; intros s s' b Hwf Ht Hnear Hstack Hsolo Hin Hrun.
  - by apply elem_of_nil in Hin.
  - apply forEach_cons_inv in Hrun as (s1 & Hc & Hrun).
    assert (s1 = snd (visit h c s)) as Hs1 by by rewrite Hc.
    destruct Ht as (w & Hw & Ht).
    destruct (decide (c = b)) as [->|Hne].
    + apply (tick_near_after h tid l s1 s' b); try done.
      * subst s1. by apply wf_visit.
      * subst s1. apply visit_targets; [done|]. by exists w.
      * (* the visit of [b] itself *)
        destruct (wf_target _ Hwf _ _ Hw) as (tid' & lb & Ht' & Hl & Hpl).
        rewrite Ht in Ht'. injection Ht' as <-.
        assert (match last lb with Some c => bool_decide (c ≠ b) | None => false end
                = false) as Hother.
        { destruct (last lb) as [c|] eqn:Hlast; [|done].
          apply bool_decide_eq_false_2. intros Hcb. apply Hcb, Hstack.
          unfold stackOf. rewrite Hl. simpl. by apply last_Some_elem_of. }
        rewrite (visit_eq _ _ _ _ _ _ Hw Ht Hl), (Hnear _ Hw), Hother in Hc.
        simpl in Hc.
        destruct (addTo_outcome h b (_scene h) s Hwf)
          as [E|[(w0 & Hw0 & Hp & E)|(w0 & tid0 & l0 & pos & Hw0 & _ & _ & _ & _ & _ & E)]];
          rewrite E in Hc; [done| |]; injection Hc as <-.
        -- rewrite Hw in Hw0. injection Hw0 as <-.
           exists w. split; [done|]. split; [done|].
           destruct (wf_bubble_stack _ _ _ _ Hwf Hw Ht) as [Hs Hv].
           apply (Hv Hp). apply Hs in Hp. unfold stackOf in *. rewrite Hl in *.
           simpl in *. destruct (last lb) as [c|] eqn:Hlast.
           ++ f_equal. apply Hstack. by apply last_Some_elem_of.
           ++ apply last_None in Hlast. subst. by apply elem_of_nil in Hp.
        -- assert (is_Some (bubbles (added b (_scene h) tid0 l0 pos s) !! b)) as [w' Hw'].
           { apply added_bubble_is_Some. eauto. }
           exists w'. split; [done|].
           apply added_bubble in Hw' as (w1 & _ & _ & _ & Hp' & Hv').
           rewrite decide_True in Hp' by done. rewrite decide_True in Hv' by done.
           rewrite Hp'. eauto.
      * intros w' Hw'. subst s1.
        destruct (visit_bubble h b s b w Hwf Hw) as (w1 & Hw1 & Htc & _).
        rewrite Hw' in Hw1. injection Hw1 as <-. rewrite Htc. by apply Hnear.
      * intros c' Hc' Htc'. apply Hsolo; [by right|]. subst s1.
        by apply (visit_targets h b s).
    + assert (b ∈ l) as Hin' by (apply elem_of_cons in Hin as [->|Hin]; done).
      destruct (bubbles s !! c) as [wc|] eqn:Hwc; cycle 1.
      { exfalso. revert Hc. unfold visit, bind, Window_Bubble.isPlayerWithinDistance, bind.
        unfold Window_Bubble.this. by rewrite Hwc. }
      assert (Window_Bubble.targetId (targetCharacter wc) ≠ Normal tid) as Hdiff.
      { rewrite <- Ht. eapply targets_tid; try done.
        intros Htc'. apply Hne, Hsolo; [left|done]. }
      subst s1.
      destruct (visit_bubble h c s b w Hwf Hw) as (w1 & Hw1 & Htc & _).
      apply (IH (snd (visit h c s)) s' b); try done.
      * by apply wf_visit.
      * exists w1. by rewrite Htc.
      * intros w' Hw'. rewrite Hw1 in Hw'. injection Hw' as <-. rewrite Htc.
        by apply Hnear.
      * intros c'. unfold stackOf. rewrite (visit_stack h c s wc tid Hwf Hwc Hdiff).
        apply Hstack.
      * intros c' Hc' Htc'. apply Hsolo; [by right|]. by apply (visit_targets h c s).
Qed.

(** C6. The proximity predicate of a bubble compares the squared
    distance between the player's real position and the target's position
    with the squared [Distance], inclusively: it holds when the two are
    equal and fails when the squared distance is strictly greater.  In a
    tick that completes, a notetag bubble beyond the bound ends detached,
    and one exactly on the bound ends displayed when no other bubble
    competes for its target. *)
Theorem proximity_bound_is_inclusive h b w s s' :
  bubbles s !! b = Some w →
  let xDist := Num.sub (_realX h) (characterX h (targetCharacter w)) in
  let yDist := Num.sub (_realY h) (characterY h (targetCharacter w)) in
  let squared := Num.add (Num.mul xDist xDist) (Num.mul yDist yDist) in
  let bound := Num.mul (Distance h) (Distance h) in
  (Num.eqb squared bound = true →
     Window_Bubble.isPlayerWithinDistance h b s = (Normal true, s)) ∧
  (Num.ltb bound squared = true →
     Window_Bubble.isPlayerWithinDistance h b s = (Normal false, s)) ∧
  (reachable s → b ∈ speechBubbles s →
   Game_Player.updateAnimation h s = (Normal tt, s') →
     (Num.ltb bound squared = true → ¬ attached s' b) ∧
     (Num.eqb squared bound = true →
      ∀ tid, targets s b tid →
             (∀ c, c ∈ stackOf s tid → c = b) →
             (∀ c, c ∈ speechBubbles s → targets s c tid → c = b) →
             displayed s' b)).
Proof.
  intros Hb xDist yDist squared bound.
  split; [|split].
  - intros H. rewrite (isPlayerWithinDistance_eq _ _ _ _ Hb).
    unfold withinDistance. fold xDist yDist squared bound. by rewrite (eqb_leb _ _ H).
  - intros H. rewrite (isPlayerWithinDistance_eq _ _ _ _ Hb).
    unfold withinDistance. fold xDist yDist squared bound. by rewrite (ltb_not_leb _ _ H).
  - intros Hwf%reachable_wf Hin Hrun. rewrite updateAnimation_eq in Hrun. split.
    + intros H (w' & Hw' & Hp).
      destruct (tick_far h (speechBubbles s) s s' b w Hwf Hb) as (w1 & Hw1 & Hp1);
        [|by left|done|].
      { unfold withinDistance. fold xDist yDist squared bound. by apply ltb_not_leb. }
      rewrite Hw' in Hw1. injection Hw1 as <-. rewrite Hp1 in Hp. by destruct Hp.
    + intros H tid Ht Hstack Hsolo.
      apply (tick_near_before h tid (speechBubbles s) s s' b); try done.
      intros w0 Hw0. rewrite Hb in Hw0. injection Hw0 as <-.
      unfold withinDistance. fold xDist yDist squared bound. by apply eqb_leb.
Qed.

Lemma loaded_reachable : reachable Sample.loaded.
Proof.
  exists {[ 0%nat := mkInterpreter 3 "" ]}.
  eapply rtc_l; [apply (step_show Sample.host 0%nat Sample.hello)|].
  eapply rtc_l; [apply (step_create Sample.host)|].
  apply rtc_refl.
Qed.

Lemma proximity_bound_is_inclusive_witness :
  Window_Bubble.isPlayerWithinDistance Sample.host 1 Sample.loaded
    = (Normal true, Sample.loaded) ∧
  Window_Bubble.isPlayerWithinDistance Sample.hostFar 1 Sample.loaded
    = (Normal false, Sample.loaded) ∧
  displayed (snd (Game_Player.updateAnimation Sample.host Sample.loaded)) 1%nat ∧
  ¬ attached (snd (Game_Player.updateAnimation Sample.hostFar Sample.loaded)) 1%nat.
Proof.
  destruct (bubbles Sample.loaded !! 1%nat) as [w|] eqn:Ew; [|by vm_compute in Ew].
  pose proof (proximity_bound_is_inclusive Sample.host 1%nat w Sample.loaded
                (snd (Game_Player.updateAnimation Sample.host Sample.loaded)) Ew)
    as (Hnear & _ & Htick).
  pose proof (proximity_bound_is_inclusive Sample.hostFar 1%nat w Sample.loaded
                (snd (Game_Player.updateAnimation Sample.hostFar Sample.loaded)) Ew)
    as (_ & Hfar & Htick').
  assert (speechBubbles Sample.loaded = [1%nat]) as Hlist by (vm_compute; reflexivity).
  assert (stackOf Sample.loaded "e3" = []) as Hstack by (vm_compute; reflexivity).
  assert (targets Sample.loaded 1%nat "e3") as Htarget.
  { exists w. split; [done|]. vm_compute in Ew. injection Ew as <-. reflexivity. }
  destruct Htick as [_ Hshown]; [apply loaded_reachable|rewrite Hlist; left| |].
  { vm_compute. reflexivity. }
  destruct Htick' as [Hgone _]; [apply loaded_reachable|rewrite Hlist; left| |].
  { vm_compute. reflexivity. }
  vm_compute in Ew. injection Ew as <-.
  split; [|split; [|split]].
  - apply Hnear. vm_compute. reflexivity.
  - apply Hfar. vm_compute. reflexivity.
  - apply (Hshown eq_refl "e3" Htarget).
    + rewrite Hstack. intros c Hc. by apply elem_of_nil in Hc.
    + rewrite Hlist. intros c Hc%list_elem_of_singleton. done.
  - apply Hgone. vm_compute. reflexivity.
Defined.

(** ** From a command to the expiry of its bubble *)

Lemma timed_ext b D0 D s s' :
  bubbles s' = bubbles s → nextBubble s' = nextBubble s →
  activeBubbles s' = activeBubbles s → timers s' = timers s →
  speechBubbles s' = speechBubbles s → clock s' = clock s →
  timed b D0 D s → timed b D0 D s'.
Proof.
  intros Hb Hn Ha Ht Hs Hc [H1 H2 H3 H4 H5 H6 H7]. unfold pending in *.
  split; unfold pending; rewrite ?Hb, ?Hn, ?Ht, ?Hs, ?Hc; try assumption.
  revert H1. by apply wf_ext.
Qed.

Lemma addTo_fields h c scene s :
  wf s →
  let s' := snd (Window_Bubble.addTo h c scene s) in
  nextBubble s' = nextBubble s ∧ speechBubbles s' = speechBubbles s ∧
  blockingSpeechBubble s' = blockingSpeechBubble s ∧
  currentInterpreter s' = currentInterpreter s ∧
  interpreters s' = interpreters s ∧ timers s' = timers s ∧ clock s' = clock s.
Proof.
  intros Hwf.
  by destruct (addTo_outcome h c scene s Hwf)
    as [->|[(w & _ & _ & ->)|(w & tid & l & pos & _ & _ & _ & _ & _ & _ & ->)]].
Qed.

Lemma remove_fields c s :
  wf s →
  let s' := snd (Window_Bubble.remove c s) in
  nextBubble s' = nextBubble s ∧ speechBubbles s' = speechBubbles s ∧
  blockingSpeechBubble s' = blockingSpeechBubble s ∧
  currentInterpreter s' = currentInterpreter s ∧
  interpreters s' = interpreters s ∧ timers s' = timers s ∧ clock s' = clock s.
Proof.
  intros Hwf.
  by destruct (remove_outcome c s Hwf)
    as [[_ ->]|[(w & _ & _ & ->)|(w & scene & tid & l & _ & _ & _ & _ & _ & ->)]].
Qed.

Lemma timed_addTo b D0 D h c scene :
  c ≠ b → preserves (timed b D0 D) (Window_Bubble.addTo h c scene).
Proof.
  intros Hne s [H1 H2 H3 (w & Hw & Hp) H5 H6 H7]. unfold pending in *.
  destruct (addTo_fields h c scene s H1) as (Hn & Hs & _ & _ & _ & Ht & Hc).
  destruct (addTo_bubble h c scene s b w H1 Hw) as (w' & Hw' & _ & Hpar & _).
  split; unfold pending; rewrite ?Hn, ?Hs, ?Ht, ?Hc; try assumption.
  - by apply wf_addTo.
  - exists w'. split; [done|]. by rewrite (Hpar Hne).
Qed.

Lemma timed_remove b D0 D c :
  c ≠ b → preserves (timed b D0 D) (Window_Bubble.remove c).
Proof.
  intros Hne s [H1 H2 H3 (w & Hw & Hp) H5 H6 H7]. unfold pending in *.
  destruct (remove_fields c s H1) as (Hn & Hs & _ & _ & _ & Ht & Hc).
  destruct (remove_bubble c s b w H1 Hw) as (w' & Hw' & _ & Hpar & _).
  split; unfold pending; rewrite ?Hn, ?Hs, ?Ht, ?Hc; try assumption.
  - by apply wf_remove.
  - exists w'. split; [done|]. rewrite Hpar, decide_False; [done|congruence].
Qed.

Lemma timed_initialize b D0 D h target text :
  triple (timed b D0 D) (Window_Bubble.initialize h target text)
    (λ c s, timed b D0 D s ∧ c ≠ b ∧ (c < nextBubble s)%nat) (timed b D0 D).
Proof.
  intros s Hs. pose proof Hs as [H1 H2 H3 (w & Hw & Hp) H5 H6 H7].
  unfold pending in *. rewrite initialize_eq.
  destruct (Window_Bubble.targetId target) as [tid|e] eqn:Ht; [|done].
  destruct (constructed_fields h target text tid s)
    as (Hbub & Hnext & Hsp & _ & _ & _ & Htim & Hclk).
  split; [|split; lia].
  split; unfold pending; rewrite ?Hbub, ?Hnext, ?Hsp, ?Htim, ?Hclk; try assumption.
  - by apply wf_constructed.
  - lia.
  - exists w. split; [|done]. rewrite lookup_insert_ne; [done|lia].
Qed.

Lemma pending_setTimeout b c timeout s :
  c ≠ b → pending b (snd (setTimeout c timeout s)) ↔ pending b s.
Proof.
  intros Hne. unfold pending. simpl. split.
  - intros (t & [->|Hin]%elem_of_enqueue & Ht); [done|eauto].
  - intros (t & Hin & Ht). exists t. split; [|done]. apply elem_of_enqueue. by right.
Qed.

Lemma timed_setTimeout b D0 D c timeout s :
  c ≠ b → (c < nextBubble s)%nat →
  timed b D0 D s → timed b D0 D (snd (setTimeout c timeout s)).
Proof.
  intros Hne Hc [H1 H2 H3 (w & Hw & Hp) H5 H6 H7].
  split; rewrite ?pending_setTimeout by done; try assumption.
  - destruct H1 as [W1 W2 W3 W4 W5]. split; try assumption.
    simpl. intros t [->|Hin]%elem_of_enqueue; [done|]. by apply W4.
  - exists w. split; [done|]. by rewrite pending_setTimeout.
  - simpl. intros t [->|Hin]%elem_of_enqueue; [done|]. by apply H5.
Qed.

Lemma timed_showBubble b D0 D h text target duration blocking :
  preserves (timed b D0 D) (showBubble h text target duration blocking).
Proof.
  apply triple_final. unfold showBubble.
  eapply triple_bind; [apply timed_initialize|].
  intros c.
  apply (triple_of_preserves (λ s, timed b D0 D s ∧ c ≠ b ∧ (c < nextBubble s)%nat));
    [|by intros s [H _]].
  apply preserves_bind.
  { intros s (Hs & Hne & Hc). split; [by apply timed_addTo|]. split; [done|].
    destruct (addTo_fields h c (_scene h) s (timed_wf _ _ _ _ Hs)) as (-> & _). done. }
  intros _. apply preserves_bind.
  { apply preserves_bind; [apply preserves_readonly, readonly_this|].
    intros w s (Hs & Hne & Hc). split; [by apply timed_setTimeout|done]. }
  intros _. destruct blocking; [|by apply preserves_readonly].
  apply preserves_bind.
  { intros s (Hs & Hne & Hc). simpl. split; [|done]. revert Hs. by apply timed_ext. }
  intros _. apply preserves_bind; [by apply preserves_readonly|].
  intros s1. destruct (currentInterpreter s1); [|by apply preserves_readonly].
  apply preserves_bind; [apply preserves_readonly, readonly_interpreter|].
  intros _ s (Hs & Hne & Hc). simpl. split; [|done]. revert Hs. by apply timed_ext.
Qed.

Lemma timed_commandShow b D0 D h interp args :
  preserves (timed b D0 D) (commandShow h interp args).
Proof.
  apply preserves_bind.
  { intros s Hs. revert Hs. by apply timed_ext. }
  intros _. apply preserves_bind; [apply preserves_readonly, readonly_getCurrentEvent|].
  intros currentEvent. apply timed_showBubble.
Qed.

Lemma timed_createBubble b D0 D h e :
  preserves (timed b D0 D) (Scene_Map.createBubble h e).
Proof.
  unfold Scene_Map.createBubble.
  destruct (event e) as [meta|]; [|by apply preserves_readonly].
  destruct (meta !! NOTETAG_BUBBLE) as [[|t]|]; try by apply preserves_readonly.
  apply triple_final.
  eapply triple_bind; [apply timed_initialize|].
  intros c s ([H1 H2 H3 H4 H5 H6 H7] & Hne & Hc). simpl. split; try assumption.
  - destruct H1 as [W1 W2 W3 W4 W5]. split; try assumption.
    simpl. intros x [Hx| ->%list_elem_of_singleton]%elem_of_app; [by apply W5|done].
  - simpl. intros [Hx| Hx%list_elem_of_singleton]%elem_of_app; [done|congruence].
Qed.

Lemma timed_createDisplayObjects b D0 D h :
  preserves (timed b D0 D) (Scene_Map.createDisplayObjects h).
Proof. apply preserves_forEach. intros e _. apply timed_createBubble. Qed.

Lemma timed_terminate b D0 D : preserves (timed b D0 D) Scene_Map.terminate.
Proof.
  intros s0 Hs0.
  change (Scene_Map.terminate s0)
    with ((forEach (speechBubbles s0) Window_Bubble.remove >>
           modify (set_speechBubbles (λ _, []))) s0).
  apply (preserves_bind (timed b D0 D)
           (forEach (speechBubbles s0) Window_Bubble.remove)); [| |done].
  - apply preserves_forEach. intros c Hc. apply timed_remove.
    intros ->. by apply (timed_command _ _ _ _ Hs0).
  - intros _ s [H1 H2 H3 H4 H5 H6 H7]. simpl. split; try assumption.
    + destruct H1 as [W1 W2 W3 W4 W5]. split; try assumption.
      simpl. intros x Hx. by apply elem_of_nil in Hx.
    + simpl. apply not_elem_of_nil.
Qed.

Lemma timed_visit b D0 D h c : c ≠ b → preserves (timed b D0 D) (visit h c).
Proof.
  intros Hne s Hs.
  destruct (visit_cases h c s (timed_wf _ _ _ _ Hs)) as [->|[->| ->]];
    [done|by apply timed_addTo|by apply timed_remove].
Qed.

Lemma timed_updateAnimation b D0 D h :
  preserves (timed b D0 D) (Game_Player.updateAnimation h).
Proof.
  intros s Hs. rewrite updateAnimation_eq.
  apply preserves_forEach; [|done].
  intros c Hc. apply timed_visit. intros ->. by apply (timed_command _ _ _ _ Hs).
Qed.

Lemma fire_all_frame ts s :
  wf s →
  nextBubble (foldl fire s ts) = nextBubble s ∧
  speechBubbles (foldl fire s ts) = speechBubbles s ∧
  timers (foldl fire s ts) = timers s ∧
  clock (foldl fire s ts) = clock s.
Proof.
  revert s. induction ts as [|t ts IH]; intros s Hwf; [done|].
  change (foldl fire s (t :: ts)) with (foldl fire (fire s t) ts).
  destruct (IH (fire s t)) as (-> & -> & -> & ->); [by apply wf_remove|].
  destruct (remove_fields (handler t) s Hwf) as (? & ? & _ & _ & _ & ? & ?). done.
Qed.

Lemma advance_frame dt s :
  wf s →
  nextBubble (advance dt s) = nextBubble s ∧
  speechBubbles (advance dt s) = speechBubbles s ∧
  timers (advance dt s) = filter (λ t, ¬ due t ≤ clock s + dt) (timers s) ∧
  clock (advance dt s) = clock s + dt.
Proof.
  intros [H1 H2 H3 H4 H5]. unfold advance.
  edestruct fire_all_frame as (-> & -> & -> & ->); [|done].
  split; try assumption.
  simpl. intros t [_ Ht]%list_elem_of_filter. by apply H4.
Qed.

Lemma wf_advance dt s : wf s → wf (advance dt s).
Proof. intros Hwf. by apply (follows_advance s), follows_refl. Qed.

Lemma pending_dec b s : pending b s ∨ ¬ pending b s.
Proof.
  destruct (decide (b ∈ handler <$> timers s)) as [Hin|Hnin].
  - left. apply list_elem_of_fmap in Hin as (t & -> & Hin). by exists t.
  - right. intros (t & Hin & <-). apply Hnin, list_elem_of_fmap. eauto.
Qed.

Lemma timed_advance b D0 D dt s :
  0 ≤ dt → timed b D0 D s → timed b D0 D (advance dt s).
Proof.
  intros Hdt [H1 H2 H3 (w & Hw & Hp) H5 H6 H7].
  destruct (advance_frame dt s H1) as (Hn & Hs & Ht & Hc).
  destruct (advance_parent dt s b w H1 Hw) as (w' & Hw' & Hp').
  assert (b ∈ handler <$> filter (λ t, due t ≤ clock s + dt) (timers s)
          ↔ pending b s ∧ D ≤ clock s + dt) as Hfired.
  { rewrite list_elem_of_fmap. split.
    - intros (t & Hb & [Hd Hin]%list_elem_of_filter).
      split; [by exists t|]. by rewrite <- (H5 t Hin).
    - intros [(t & Hin & Hb) Hd]. exists t. split; [done|].
      apply list_elem_of_filter. split; [|done]. by rewrite (H5 t Hin). }
  assert (pending b (advance dt s) ↔ pending b s ∧ clock s + dt < D) as Hlater.
  { unfold pending. rewrite Ht. split.
    - intros (t & [Hd Hin]%list_elem_of_filter & Hb).
      split; [by exists t|]. rewrite <- (H5 t Hin Hb). lia.
    - intros [(t & Hin & Hb) Hd]. exists t. split; [|done].
      apply list_elem_of_filter. split; [|done]. rewrite (H5 t Hin Hb). lia. }
  split; rewrite ?Hn, ?Hs, ?Hc; try assumption.
  - by apply wf_advance.
  - exists w'. split; [done|]. rewrite Hp', Hlater.
    destruct (decide (b ∈ handler <$> _)) as [Hin|Hnin].
    + apply Hfired in Hin as [_ Hd]. split; [by intros []|]. intros [_ ?]. lia.
    + rewrite Hp. split.
      * intros Hpend. split; [done|].
        destruct (Z_lt_le_dec (clock s + dt) D) as [|Hle]; [done|].
        exfalso. by apply Hnin, Hfired.
      * by intros [? _].
  - rewrite Ht. intros t [_ Hin]%list_elem_of_filter. by apply H5.
  - intros [_ Hlt]%Hlater. by left.
  - intros Hnp. destruct (Z_lt_le_dec (clock s + dt) D) as [Hlt|]; [|done].
    assert (¬ pending b s) as Hnp' by (intros Hpend; by apply Hnp, Hlater).
    apply H7 in Hnp'. lia.
Qed.

Lemma timed_ambient b D0 D s s' : ambient s s' → timed b D0 D s → timed b D0 D s'.
Proof.
  destruct 1; intros Hs.
  - eapply (triple_final (timed b D0 D)); [|done].
    eapply triple_weaken; [apply timed_initialize|done|by intros c s1 [H _]|done].
  - by apply timed_showBubble.
  - by apply timed_commandShow.
  - by apply timed_createDisplayObjects.
  - by apply timed_terminate.
  - by apply timed_updateAnimation.
  - revert Hs. by apply timed_ext.
  - by apply timed_advance.
Qed.

Lemma timed_run b D0 D s s' : rtc ambient s s' → timed b D0 D s → timed b D0 D s'.
Proof. induction 1; [done|]. intros Hs. apply IHrtc. by eapply timed_ambient. Qed.

(** While a timed bubble's clock is before the expiry it is attached, and
    it is attached only then, or at the instant of the command. *)
Lemma timed_attached_iff b D0 D s :
  timed b D0 D s →
  (clock s < D → attached s b) ∧
  (attached s b → clock s < D ∨ clock s = D0).
Proof.
  intros [H1 H2 H3 (w & Hw & Hp) H5 H6 H7]. split.
  - intros Hlt. exists w. split; [done|]. apply Hp.
    destruct (pending_dec b s) as [|Hn]; [done|]. apply H7 in Hn. lia.
  - intros (w' & Hw' & Hp'). rewrite Hw in Hw'. injection Hw' as <-.
    by apply H6, Hp.
Qed.

Lemma show_timed h text target duration blocking s s' :
  wf s →
  showBubble h text target duration blocking s = (Normal tt, s') →
  let len := foldl Window_Bubble.flushTextState 0 (textStates h text) in
  let T := Num.or duration (Num.mul (Num.ofZ len) (Num.ofZ 150)) in
  timed (nextBubble s) (clock s) (clock s + timerDelay T) s'.
Proof.
  intros Hwf Hshow len T.
  destruct (showBubble_inv _ _ _ _ _ _ _ Hwf Hshow)
    as (Hwf' & (w & Hw & _ & _ & Hp & _) & Htim & Hclk & Hsp & Hnext & _).
  fold len T in Htim.
  assert (pending (nextBubble s) s') as Hpend.
  { eexists. rewrite Htim. split; [apply elem_of_enqueue; by left|done]. }
  split; try done.
  - lia.
  - rewrite Hsp. intros Hin%(wf_notetag _ Hwf). lia.
  - exists w. split; [done|]. rewrite Hp. split; eauto.
  - rewrite Htim. intros t [->|Hin]%elem_of_enqueue Ht; [done|].
    apply (wf_timers _ Hwf) in Hin. lia.
  - intros _. right. done.
Qed.

Lemma attached_isActive s b w :
  bubbles s !! b = Some w → (attached s b ↔ is_Some (parent w)).
Proof.
  intros Hw. split.
  - intros (w' & Hw' & Hp). rewrite Hw in Hw'. by injection Hw' as <-.
  - intros Hp. by exists w.
Qed.


(** C4. After a [show] command with the blocking flag, the command's
    bubble is the tracked one and the interpreter is in the bubble wait
    mode; [updateWaitMode] is true at once; as time passes it is true
    exactly until the bubble's timer has fired, when the bubble is removed,
    and false from then on, also when ticks, scene loads and other commands
    happen in between, as long as the bubble is still the tracked one; and
    in any state it is true exactly when the tracked bubble is attached. *)
Theorem blocking_show_waits_until_expiry h interp args base s s' :
  reachable s →
  String.eqb (toLowerCase (isBlocking args)) "true" = true →
  commandShow h interp args s = (Normal tt, s') →
  let b := nextBubble s in
  let visibleLength :=
    foldl Window_Bubble.flushTextState 0 (textStates h (text args)) in
  let T := Num.or (toNumber h (durationMs args))
             (Num.mul (Num.ofZ visibleLength) (Num.ofZ 150)) in
  blockingSpeechBubble s' = Some b ∧
  (∃ it, interpreters s' !! interp = Some it ∧ _waitMode it = WAITMODE_BUBBLE) ∧
  Game_Interpreter.updateWaitMode base interp s' = (Normal true, s') ∧
  (∀ dt, 0 ≤ dt →
     Game_Interpreter.updateWaitMode base interp (advance dt s')
     = (Normal (bool_decide (dt < timerDelay T)), advance dt s')) ∧
  (∀ s'' it2, rtc ambient s' s'' →
     interpreters s'' !! interp = Some it2 → _waitMode it2 = WAITMODE_BUBBLE →
     blockingSpeechBubble s'' = Some b →
     (clock s'' < clock s + timerDelay T →
        Game_Interpreter.updateWaitMode base interp s'' = (Normal true, s'')) ∧
     (clock s + timerDelay T ≤ clock s'' → clock s < clock s'' →
        Game_Interpreter.updateWaitMode base interp s'' = (Normal false, s''))) ∧
  (∀ s2 it2 w2,
     interpreters s2 !! interp = Some it2 → _waitMode it2 = WAITMODE_BUBBLE →
     blockingSpeechBubble s2 = Some b → bubbles s2 !! b = Some w2 →
     Game_Interpreter.updateWaitMode base interp s2
     = (Normal (bool_decide (is_Some (parent w2))), s2)).
Proof.
  intros Hwf%reachable_wf Hblocking Hshow b visibleLength T.
  destruct (commandShow_interpreter _ _ _ _ _ Hshow) as [it Hit].
  rewrite (commandShow_eq _ _ _ _ _ Hit), Hblocking in Hshow.
  apply (wf_set_currentInterpreter (Some interp)) in Hwf.
  destruct (showBubble_inv _ _ _ _ _ _ _ Hwf Hshow)
    as (Hwf' & (w & Hw & _ & _ & Hp & _) & _ & _ & _ & _ & Hbl
        & (i & it' & Hi & Hit' & Hmode)).
  change (nextBubble (set_currentInterpreter (Some interp) s)) with b in Hw, Hbl.
  injection Hi as <-.
  assert (∀ dt, ∃ w', bubbles (advance dt s') !! b = Some w' ∧
                      (is_Some (parent w') ↔ dt < timerDelay T)) as Hadv.
  { intros dt. apply (show_then_advance _ _ _ _ _ _ _ dt Hwf Hshow). }
  split; [done|]. split; [eauto|]. split; [|split; [|split]].
  - rewrite (updateWaitMode_bubble _ _ _ _ _ _ Hit' Hmode Hbl Hw), Hp.
    by rewrite bool_decide_eq_true_2.
  - intros dt Hdt. destruct (Hadv dt) as (w' & Hw' & Hp').
    destruct (advance_fields dt s' Hwf') as (Hbl' & Hint' & _).
    rewrite (updateWaitMode_bubble base interp it' b w'); try done; try congruence.
    by rewrite (bool_decide_ext _ _ Hp').
  - intros s'' it2 Hrun Hi2 Hm2 Hb2.
    pose proof (timed_run b (clock s) (clock s + timerDelay T) s' s'' Hrun
                  (show_timed _ _ _ _ _ _ _ Hwf Hshow)) as Ht.
    destruct (timed_attached_iff _ _ _ _ Ht) as [Hin Hout].
    destruct (timed_attached _ _ _ _ Ht) as (w2 & Hw2 & _).
    rewrite (updateWaitMode_bubble base interp it2 b w2) by done.
    rewrite (attached_isActive _ _ _ Hw2) in Hin, Hout. split.
    + intros Hlt. by rewrite bool_decide_eq_true_2 by by apply Hin.
    + intros Hle Hpast. rewrite bool_decide_eq_false_2; [done|].
      intros Hp2%Hout. simpl in Hp2. lia.
  - intros s2 it2 w2 Hi2 Hm2 Hb2 Hw2. by apply (updateWaitMode_bubble _ _ it2 b).
Qed.

(** The run of the sample game after its first command: a scene load, a
    tick and a second command. *)
Lemma shown_to_crowded : rtc ambient Sample.shown Sample.crowded.
Proof.
  eapply rtc_l; [apply (ambient_create Sample.host)|].
  eapply rtc_l; [apply (ambient_tick Sample.host)|].
  eapply rtc_l; [apply (ambient_show Sample.host 0%nat Sample.greeting)|].
  apply rtc_refl.
Qed.

Lemma shown_to_crowded_later dt :
  0 ≤ dt → rtc ambient Sample.shown (advance dt Sample.crowded).
Proof.
  intros Hdt. eapply rtc_r; [apply shown_to_crowded|]. by apply ambient_advance.
Qed.

Lemma blocking_show_waits_until_expiry_witness :
  blockingSpeechBubble Sample.shown = Some 0%nat ∧
  Game_Interpreter.updateWaitMode (ret false) 0%nat Sample.shown
    = (Normal true, Sample.shown) ∧
  Game_Interpreter.updateWaitMode (ret false) 0%nat (advance 1499 Sample.shown)
    = (Normal true, advance 1499 Sample.shown) ∧
  Game_Interpreter.updateWaitMode (ret false) 0%nat (advance 1500 Sample.shown)
    = (Normal false, advance 1500 Sample.shown) ∧
  Game_Interpreter.updateWaitMode (ret false) 0%nat (advance 1499 Sample.crowded)
    = (Normal true, advance 1499 Sample.crowded) ∧
  Game_Interpreter.updateWaitMode (ret false) 0%nat (advance 1500 Sample.crowded)
    = (Normal false, advance 1500 Sample.crowded).
Proof.
  destruct (blocking_show_waits_until_expiry Sample.host 0%nat Sample.hello (ret false)
              Sample.start Sample.shown start_reachable)
    as (Hb & _ & Hnow & Hlater & Hrun & _).
  - vm_compute. reflexivity.
  - vm_compute. reflexivity.
  - split; [exact Hb|]. split; [exact Hnow|]. split; [|split; [|split]].
    + apply (Hlater 1499). lia.
    + apply (Hlater 1500). lia.
    + eapply (Hrun (advance 1499 Sample.crowded)).
      * apply shown_to_crowded_later. lia.
      * vm_compute. reflexivity.
      * vm_compute. reflexivity.
      * vm_compute. reflexivity.
      * vm_compute. reflexivity.
    + eapply (Hrun (advance 1500 Sample.crowded)).
      * apply shown_to_crowded_later. lia.
      * vm_compute. reflexivity.
      * vm_compute. reflexivity.
      * vm_compute. reflexivity.
      * vm_compute. discriminate.
      * vm_compute. reflexivity.
Defined.


(** * Further properties *)

(** ** The closed forms, bubble by bubble *)

Lemma added_self b scene tid l pos s w :
  bubbles s !! b = Some w →
  bubbles (added b scene tid l pos s) !! b
  = Some (set_visible true (set_parent (Some scene) (set_position pos.1 pos.2 w))).
Proof.
  intros Hb. unfold added. simpl.
  rewrite lookup_alter_eq, lookup_hideTop.
  rewrite decide_False by (by intros H%last_filter_ne).
  by rewrite !lookup_alter_eq, Hb.
Qed.

Lemma added_other b scene tid l pos s b' :
  b' ≠ b →
  bubbles (added b scene tid l pos s) !! b'
  = if decide (last (filter (λ c, c ≠ b) l) = Some b')
    then set_visible false <$> bubbles s !! b' else bubbles s !! b'.
Proof.
  intros Hne. unfold added. simpl.
  rewrite lookup_alter_ne by done. rewrite lookup_hideTop.
  by rewrite !lookup_alter_ne by done.
Qed.

Lemma added_stacks b scene tid l pos s :
  activeBubbles (added b scene tid l pos s)
  = <[tid := filter (λ c, c ≠ b) l ++ [b]]> (activeBubbles s).
Proof. unfold added. simpl. apply insert_insert_eq. Qed.

Lemma removed_self b tid l s w :
  bubbles s !! b = Some w →
  bubbles (removed b tid l s) !! b = Some (set_parent None w).
Proof.
  intros Hb. unfold removed. simpl. rewrite lookup_showTop.
  rewrite decide_False by (by intros H%last_filter_ne).
  by rewrite lookup_alter_eq, Hb.
Qed.

Lemma removed_other b tid l s b' :
  b' ≠ b →
  bubbles (removed b tid l s) !! b'
  = if decide (last (filter (λ c, c ≠ b) l) = Some b')
    then set_visible true <$> bubbles s !! b' else bubbles s !! b'.
Proof.
  intros Hne. unfold removed. simpl. rewrite lookup_showTop.
  by rewrite !lookup_alter_ne by done.
Qed.

Lemma removed_stacks b tid l s :
  activeBubbles (removed b tid l s) = <[tid := filter (λ c, c ≠ b) l]> (activeBubbles s).
Proof. done. Qed.

Lemma filter_ne_snoc (b : nat) (l : list nat) :
  b ∉ l → filter (λ c, c ≠ b) (l ++ [b]) = l.
Proof.
  intros Hb. rewrite filter_app, filter_ne_id by done.
  rewrite filter_cons_False by (by intros []). simpl. apply app_nil_r.
Qed.

Lemma stackOf_lookup s tid l : activeBubbles s !! tid = Some l → stackOf s tid = l.
Proof. unfold stackOf. by intros ->. Qed.

Lemma find_sprite_none h w :
  (∀ sprite, sprite ∈ _characterSprites h → _character sprite ≠ targetCharacter w) →
  Window_Bubble.characterSprite h w = None.
Proof.
  unfold Window_Bubble.characterSprite.
  induction (_characterSprites h) as [|sp l IH]; intros H; [done|].
  simpl. rewrite bool_decide_eq_false_2 by (apply H; by left).
  apply IH. intros sprite Hin. apply H. by right.
Qed.

Lemma find_sprite_some h w sprite :
  Window_Bubble.characterSprite h w = Some sprite →
  sprite ∈ _characterSprites h ∧ _character sprite = targetCharacter w.
Proof.
  unfold Window_Bubble.characterSprite.
  induction (_characterSprites h) as [|sp l IH]; [done|].
  simpl. case_bool_decide as E.
  - intros [= <-]. split; [by left|done].
  - intros [Hin ?]%IH. split; [by right|done].
Qed.

(** ** Target identities *)

Lemma targetId_inj c c' tid :
  Window_Bubble.targetId c = Normal tid →
  Window_Bubble.targetId c' = Normal tid →
  c = c'.
Proof.
  destruct c, c'; simpl; intros H1 H2; try done;
    rewrite <- H2 in H1; injection H1 as H1; try done.
  - by apply pretty_Z_inj in H1 as ->.
  - by apply pretty_Z_inj in H1 as ->.
Qed.


(** ** Line breaks in notetags *)








(** ** The Distance parameter *)

Lemma mul_opp_opp (d : number) : Num.mul (SFopp d) (SFopp d) = Num.mul d d.
Proof. destruct d as [[]|[]| |[] m e]; reflexivity. Qed.

Lemma loadDistance_opp raw :
  loadDistance (SFopp raw) = SFopp (loadDistance raw) ∨
  (loadDistance (SFopp raw) = Num.ofZ 2 ∧ loadDistance raw = Num.ofZ 2).
Proof. destruct raw as [[]|[]| |[] m e]; auto. Qed.

(** X3. The loaded Distance is never 0 and never [NaN]: a parameter that
    is 0 or not a number gives 2.  The proximity test uses the square of
    the Distance only, so a negative parameter acts as the positive one. *)
Theorem distance_falls_back_and_ignores_sign raw h b s :
  Num.truthy (Distance (loadParameters raw h)) = true ∧
  (Num.truthy raw = false → Distance (loadParameters raw h) = Num.ofZ 2) ∧
  (Num.truthy raw = true → Distance (loadParameters raw h) = raw) ∧
  Window_Bubble.isPlayerWithinDistance (loadParameters (SFopp raw) h) b s
  = Window_Bubble.isPlayerWithinDistance (loadParameters raw h) b s.
Proof.
  split; [|split; [|split]].
  - simpl. unfold loadDistance, Num.or. by destruct (Num.truthy raw) eqn:E.
  - simpl. unfold loadDistance, Num.or. by intros ->.
  - simpl. unfold loadDistance, Num.or. by intros ->.
  - unfold Window_Bubble.isPlayerWithinDistance, bind. simpl.
    destruct (Window_Bubble.this b s) as [[w|e] s1]; [|done].
    destruct (loadDistance_opp raw) as [->|[-> ->]]; [|done].
    by rewrite mul_opp_opp.
Qed.

(** ** Construction *)

(** X4. Constructing a bubble shows nothing and hides nothing: the new
    object is detached, every other bubble and every stack is as it was. *)
Theorem construction_changes_no_display h target text s b s' :
  reachable s →
  Window_Bubble.initialize h target text s = (Normal b, s') →
  b = nextBubble s ∧
  bubbles s !! b = None ∧
  (∃ w, bubbles s' !! b = Some w ∧ targetCharacter w = target ∧ parent w = None) ∧
  (∀ c, c ≠ b → bubbles s' !! c = bubbles s !! c) ∧
  (∀ tid, stackOf s' tid = stackOf s tid) ∧
  (∀ c, displayed s' c ↔ displayed s c).
Proof.
  intros Hwf%reachable_wf. rewrite initialize_eq.
  destruct (Window_Bubble.targetId target) as [tid|e] eqn:Ht; [|done].
  intros [= <- <-].
  destruct (constructed_fields h target text tid s) as (Hbub & _).
  assert (bubbles s !! nextBubble s = None) as Hnew.
  { apply eq_None_not_Some. intros H%(wf_fresh _ Hwf). lia. }
  split; [done|]. split; [done|]. split; [|split; [|split]].
  - eexists. rewrite Hbub, lookup_insert_eq. done.
  - intros c Hc. rewrite Hbub. by apply lookup_insert_ne.
  - intros t. unfold stackOf. rewrite constructed_activeBubbles.
    destruct (decide (t = tid)) as [->|]; [|done]. by destruct (activeBubbles s !! tid).
  - intros c. unfold displayed. rewrite Hbub.
    destruct (decide (c = nextBubble s)) as [->|Hc].
    + rewrite lookup_insert_eq, Hnew. split.
      * intros (w & [= <-] & [p Hp] & _). done.
      * by intros (w & ? & _).
    + by rewrite lookup_insert_ne.
Qed.

Lemma construction_changes_no_display_witness :
  (∃ w, bubbles Sample.constructed !! 0%nat = Some w ∧ targetCharacter w = VPlayer ∧
        parent w = None) ∧
  (displayed Sample.constructed 0%nat ↔ displayed Sample.start 0%nat).
Proof.
  destruct (construction_changes_no_display Sample.host VPlayer "0123456789"
              Sample.start 0%nat Sample.constructed start_reachable)
    as (_ & _ & Hnew & _ & _ & Hsame).
  - vm_compute. reflexivity.
  - split; [exact Hnew|apply Hsame].
Defined.

(** ** Placement *)

(** X5. [addTo] on a detached bubble whose target has a sprite places
    the window centred on the first sprite of the target and 10 pixels
    above it, makes it a child of the scene and shows it. *)
Theorem bubble_is_placed_above_its_sprite h b w scene sprite s :
  reachable s →
  bubbles s !! b = Some w → parent w = None →
  Window_Bubble.characterSprite h w = Some sprite →
  ∃ s' w',
    Window_Bubble.addTo h b scene s = (Normal tt, s') ∧
    bubbles s' !! b = Some w' ∧
    _character sprite = targetCharacter w ∧
    x w' = Num.sub (spriteX sprite) (Num.div (Num.ofZ (width w)) (Num.ofZ 2)) ∧
    y w' = Num.sub (Num.sub (Num.sub (spriteY sprite) (spriteHeight sprite))
                      (Num.ofZ (height w))) (Num.ofZ 10) ∧
    width w' = width w ∧ height w' = height w ∧
    parent w' = Some scene ∧ visible w' = true.
Proof.
  intros Hwf%reachable_wf Hb Hp Hsp.
  destruct (wf_target _ Hwf b w Hb) as (tid & l & Ht & Hl & _).
  eexists _, _. split.
  - eapply (addTo_detached h b w scene tid l); try done.
    unfold Window_Bubble.targetPosition. by rewrite Hsp.
  - split; [by apply added_self|]. split; [|done].
    by apply find_sprite_some in Hsp as [_ ?].
Qed.

Lemma bubble_is_placed_above_its_sprite_witness :
  ∃ s' w',
    Window_Bubble.addTo Sample.host 1 7%nat Sample.loaded = (Normal tt, s') ∧
    bubbles s' !! 1%nat = Some w' ∧
    x w' = Num.sub (Num.ofZ 196) (Num.div (Num.ofZ (width w')) (Num.ofZ 2)) ∧
    y w' = Num.sub (Num.sub (Num.sub (Num.ofZ 200) (Num.ofZ 48))
                      (Num.ofZ (height w'))) (Num.ofZ 10) ∧
    parent w' = Some 7%nat ∧ visible w' = true.
Proof.
  destruct (bubbles Sample.loaded !! 1%nat) as [w|] eqn:Ew; [|by vm_compute in Ew].
  destruct (bubble_is_placed_above_its_sprite Sample.host 1 w 7%nat
              (mkSprite (VEvent 3) (Num.ofZ 196) (Num.ofZ 200) (Num.ofZ 48))
              Sample.loaded loaded_reachable Ew)
    as (s' & w' & Hadd & Hw' & _ & Hx & Hy & Hwd & Hht & Hp & Hv).
  - vm_compute in Ew. injection Ew as <-. reflexivity.
  - vm_compute in Ew. injection Ew as <-. reflexivity.
  - exists s', w'. rewrite Hwd, Hht. done.
Defined.

(** X6. [showBubble] on a character that has no sprite in the scene
    throws out of [addTo]: the bubble object exists afterwards but is
    detached, no expiry is scheduled, and the blocking bubble and the
    interpreters are as before. *)
Theorem show_without_sprite_throws h text target tid duration blocking s :
  Window_Bubble.targetId target = Normal tid →
  (∀ sprite, sprite ∈ _characterSprites h → _character sprite ≠ target) →
  ∃ s' w,
    showBubble h text target duration blocking s = (Throw TypeError, s') ∧
    bubbles s' !! nextBubble s = Some w ∧ targetCharacter w = target ∧
    parent w = None ∧
    nextBubble s' = S (nextBubble s) ∧
    timers s' = timers s ∧
    blockingSpeechBubble s' = blockingSpeechBubble s ∧
    interpreters s' = interpreters s.
Proof.
  intros Ht Hsp. unfold showBubble, bind at 1.
  rewrite initialize_eq, Ht.
  destruct (constructed_fields h target text tid s)
    as (Hbub & Hnext & _ & Hbl & _ & Hint & Htim & _).
  set (s1 := constructed h target text tid s) in *.
  set (w := mkBubble target (foldl Window_Bubble.flushTextState 0 (textStates h text))
              (Window_Bubble.getRectForText h text).1
              (Window_Bubble.getRectForText h text).2
              (Num.ofZ 0) (Num.ofZ 0) None true) in *.
  assert (bubbles s1 !! nextBubble s = Some w) as Hw.
  { rewrite Hbub. apply lookup_insert_eq. }
  exists s1, w. split; [|done].
  unfold bind at 1.
  by rewrite (addTo_no_sprite h (nextBubble s) w (_scene h) s1 Hw eq_refl
                (find_sprite_none h w Hsp)).
Qed.

Lemma show_without_sprite_throws_witness :
  ∃ s' w,
    showBubble Sample.host "Hi" (VFollower 1) (Num.ofZ 0) true Sample.start
    = (Throw TypeError, s') ∧
    bubbles s' !! 0%nat = Some w ∧ parent w = None ∧ timers s' = [].
Proof.
  destruct (show_without_sprite_throws Sample.host "Hi" (VFollower 1) "f1"
              (Num.ofZ 0) true Sample.start)
    as (s' & w & Hshow & Hw & _ & Hp & _ & Htim & _).
  - reflexivity.
  - intros sprite Hin. vm_compute in Hin. 
    repeat (apply elem_of_cons in Hin as [->|Hin]; [done|]).
    by apply elem_of_nil in Hin.
  - exists s', w. done.
Defined.

(** ** One target at a time *)

Lemma wf_stack_targets s tid l b w :
  wf s → activeBubbles s !! tid = Some l → b ∈ l → bubbles s !! b = Some w →
  Window_Bubble.targetId (targetCharacter w) = Normal tid.
Proof.
  intros Hwf Hl Hin Hb.
  destruct (wf_stack _ Hwf tid l Hl) as [_ H].
  destruct (H b Hin) as (w' & Hw' & Ht & _). congruence.
Qed.

(** X7. [addTo] and [remove] on a bubble of one target leave the
    bubbles and the stacks of every other target exactly as they were. *)
Theorem other_targets_are_untouched h c scene s wc b w :
  reachable s →
  bubbles s !! c = Some wc → bubbles s !! b = Some w →
  Window_Bubble.targetId (targetCharacter wc)
  ≠ Window_Bubble.targetId (targetCharacter w) →
  bubbles (snd (Window_Bubble.addTo h c scene s)) !! b = Some w ∧
  bubbles (snd (Window_Bubble.remove c s)) !! b = Some w ∧
  (∀ tid, Window_Bubble.targetId (targetCharacter wc) ≠ Normal tid →
     stackOf (snd (Window_Bubble.addTo h c scene s)) tid = stackOf s tid ∧
     stackOf (snd (Window_Bubble.remove c s)) tid = stackOf s tid).
Proof.
  intros Hwf%reachable_wf Hc Hb Hne.
  assert (b ≠ c) as Hbc by (intros ->; congruence).
  split; [|split].
  - destruct (addTo_outcome h c scene s Hwf)
      as [->|[(w1 & _ & _ & ->)|(w1 & tid & l & pos & Hw1 & _ & Ht & Hl & _ & _ & ->)]];
      [done..|].
    cbn [snd]. rewrite added_other by done.
    rewrite decide_False; [done|].
    intros Hin%last_Some_elem_of%list_elem_of_filter.
    destruct Hin as [_ Hin].
    pose proof (wf_stack_targets _ _ _ _ _ Hwf Hl Hin Hb). congruence.
  - destruct (remove_outcome c s Hwf)
      as [[_ ->]|[(w1 & _ & _ & ->)|(w1 & sc & tid & l & Hw1 & _ & Ht & Hl & _ & ->)]];
      [done..|].
    cbn [snd]. rewrite removed_other by done.
    rewrite decide_False; [done|].
    intros Hin%last_Some_elem_of%list_elem_of_filter.
    destruct Hin as [_ Hin].
    pose proof (wf_stack_targets _ _ _ _ _ Hwf Hl Hin Hb). congruence.
  - intros tid Htid. unfold stackOf.
    by rewrite (addTo_stack h c scene s wc tid), (remove_stack c s wc tid).
Qed.

Lemma ticked_reachable : reachable Sample.ticked.
Proof.
  destruct loaded_reachable as [i Hrun]. exists i.
  eapply rtc_r; [exact Hrun|]. apply (step_tick Sample.host).
Qed.

Lemma other_targets_are_untouched_witness :
  bubbles (snd (Window_Bubble.remove 1 Sample.ticked)) !! 0%nat
  = bubbles Sample.ticked !! 0%nat.
Proof.
  destruct (bubbles Sample.ticked !! 1%nat) as [wc|] eqn:Ec; [|by vm_compute in Ec].
  destruct (bubbles Sample.ticked !! 0%nat) as [w|] eqn:Eb; [|by vm_compute in Eb].
  apply (other_targets_are_untouched Sample.host 1 7%nat Sample.ticked wc 0 w
           ticked_reachable Ec Eb).
  vm_compute in Ec, Eb. injection Ec as <-. injection Eb as <-. done.
Defined.

(** ** Hidden bubbles *)

(** X8. Removing an attached bubble that is not the displayed one of
    its target leaves the displayed one on screen; the removed bubble
    leaves the stack, whose order is otherwise kept. *)
Theorem removing_a_hidden_bubble_keeps_the_displayed_one s b d tid :
  reachable s →
  targets s b tid → targets s d tid →
  attached s b → displayed s d → b ≠ d →
  ∃ s',
    Window_Bubble.remove b s = (Normal tt, s') ∧
    displayed s' d ∧ ¬ attached s' b ∧
    stackOf s' tid = filter (λ c, c ≠ b) (stackOf s tid).
Proof.
  intros Hwf%reachable_wf Hb Hd (w & Hw & [sc Hp]) Hdis Hne.
  pose proof (wf_displayed_top _ _ _ Hwf Hd Hdis) as Htop.
  destruct Hb as (w' & Hw' & Ht). rewrite Hw in Hw'. injection Hw' as <-.
  destruct (wf_target _ Hwf b w Hw) as (tid' & l & Ht' & Hl & _).
  rewrite Ht in Ht'. injection Ht' as <-.
  rewrite (stackOf_lookup _ _ _ Hl) in Htop |- *.
  exists (removed b tid l s). split; [by eapply remove_attached|].
  assert (last (filter (λ c, c ≠ b) l) = Some d) as Hlast.
  { apply last_filter_keep; [done|congruence]. }
  split; [|split].
  - destruct Hdis as (wd & Hwd & Hpd & _).
    exists (set_visible true wd). split; [|done].
    rewrite removed_other by congruence. by rewrite decide_True, Hwd.
  - intros (w2 & Hw2 & [p2 Hp2]).
    rewrite (removed_self _ _ _ _ _ Hw) in Hw2. by injection Hw2 as <-.
  - apply stackOf_lookup. rewrite removed_stacks. apply lookup_insert_eq.
Qed.

Lemma removing_a_hidden_bubble_keeps_the_displayed_one_witness :
  ∃ s',
    Window_Bubble.remove 1 Sample.crowded = (Normal tt, s') ∧
    displayed s' 2%nat ∧ ¬ attached s' 1%nat ∧
    stackOf s' "e3" = filter (λ c, c ≠ 1%nat) (stackOf Sample.crowded "e3").
Proof.
  apply (removing_a_hidden_bubble_keeps_the_displayed_one Sample.crowded 1 2 "e3"
           crowded_reachable).
  - eexists. split; vm_compute; reflexivity.
  - eexists. split; vm_compute; reflexivity.
  - eexists. split; [vm_compute; reflexivity|]. vm_compute. eauto.
  - eexists. split; [vm_compute; reflexivity|]. split; [|vm_compute; reflexivity].
    vm_compute. eauto.
  - done.
Defined.

(** ** Attach, then detach *)

(** X9. Attaching a detached bubble and removing it again restores
    every stack and every other bubble: the bubble it had covered is
    displayed again, and nothing else has changed. *)
Theorem attach_then_detach_restores h scene b w s :
  reachable s →
  bubbles s !! b = Some w → parent w = None →
  is_Some (Window_Bubble.characterSprite h w) →
  ∃ s1 s2,
    Window_Bubble.addTo h b scene s = (Normal tt, s1) ∧
    Window_Bubble.remove b s1 = (Normal tt, s2) ∧
    activeBubbles s2 = activeBubbles s ∧
    (∀ c, c ≠ b → bubbles s2 !! c = bubbles s !! c) ∧
    (∃ w2, bubbles s2 !! b = Some w2 ∧ parent w2 = None ∧
           targetCharacter w2 = targetCharacter w) ∧
    (∀ c, displayed s2 c ↔ displayed s c).
Proof.
  intros Hwf%reachable_wf Hb Hp Hsp.
  destruct (wf_target _ Hwf b w Hb) as (tid & l & Ht & Hl & Hin).
  assert (b ∉ l) as Hbl.
  { intros H%Hin. rewrite Hp in H. by destruct H. }
  destruct (targetPosition_sprite h w Hsp) as [pos Hpos].
  set (s1 := added b scene tid l pos s).
  assert (bubbles s1 !! b
          = Some (set_visible true (set_parent (Some scene) (set_position pos.1 pos.2 w))))
    as Hb1 by by apply added_self.
  assert (activeBubbles s1 !! tid = Some (l ++ [b])) as Hl1.
  { unfold s1. rewrite added_stacks, filter_ne_id by done. apply lookup_insert_eq. }
  set (s2 := removed b tid (l ++ [b]) s1).
  assert (∀ c, c ≠ b → bubbles s2 !! c = bubbles s !! c) as Hothers.
  { intros c Hc. unfold s2. rewrite removed_other by done.
    rewrite filter_ne_snoc by done. unfold s1. rewrite added_other by done.
    rewrite filter_ne_id by done.
    destruct (decide (last l = Some c)) as [Hlast|]; [|done].
    destruct (wf_stack _ Hwf tid l Hl) as [_ Hst].
    destruct (Hst c (last_Some_elem_of _ _ Hlast)) as (wc & Hwc & _ & Hv).
    rewrite Hwc. simpl. f_equal. apply Hv in Hlast.
    destruct wc. simpl in *. by subst. }
  exists s1, s2. split; [by eapply addTo_detached|].
  split; [by eapply (remove_attached b _ scene tid (l ++ [b]) s1)|].
  split; [|split; [done|split]].
  - unfold s2. rewrite removed_stacks, filter_ne_snoc by done.
    unfold s1. rewrite added_stacks, insert_insert_eq. by apply insert_id.
  - eexists. split; [by apply removed_self|done].
  - intros c. unfold displayed. destruct (decide (c = b)) as [->|Hc].
    + unfold s2. rewrite (removed_self _ _ _ _ _ Hb1), Hb. split.
      * intros (w2 & [= <-] & [p2 Hp2] & _). done.
      * intros (w2 & [= <-] & [p2 Hp2] & _). congruence.
    + by rewrite Hothers.
Qed.

Lemma attach_then_detach_restores_witness :
  ∃ s1 s2,
    Window_Bubble.addTo Sample.host 1 7%nat Sample.loaded = (Normal tt, s1) ∧
    Window_Bubble.remove 1 s1 = (Normal tt, s2) ∧
    activeBubbles s2 = activeBubbles Sample.loaded ∧
    (∀ c, displayed s2 c ↔ displayed Sample.loaded c).
Proof.
  destruct (bubbles Sample.loaded !! 1%nat) as [w|] eqn:Ew; [|by vm_compute in Ew].
  destruct (attach_then_detach_restores Sample.host 7%nat 1 w Sample.loaded
              loaded_reachable Ew)
    as (s1 & s2 & H1 & H2 & H3 & _ & _ & H4).
  - vm_compute in Ew. injection Ew as <-. reflexivity.
  - vm_compute in Ew. injection Ew as <-. vm_compute. eauto.
  - exists s1, s2. done.
Defined.

(** ** Objects in use *)

Lemma sound_ext s s' :
  bubbles s' = bubbles s → nextBubble s' = nextBubble s →
  activeBubbles s' = activeBubbles s → timers s' = timers s →
  speechBubbles s' = speechBubbles s →
  blockingSpeechBubble s' = blockingSpeechBubble s →
  sound s → sound s'.
Proof.
  intros Hb Hn Ha Ht Hs Hbl [H1 H2 H3].
  split; rewrite ?Hb, ?Hn, ?Hbl; try assumption.
  revert H1. by apply wf_ext.
Qed.

Lemma sound_addTo h c scene : preserves sound (Window_Bubble.addTo h c scene).
Proof.
  intros s [H1 H2 H3].
  destruct (addTo_fields h c scene s H1) as (Hn & _ & Hbl & _).
  split; rewrite ?Hn, ?Hbl; try assumption.
  - by apply wf_addTo.
  - intros b [w Hw]%H2.
    destruct (addTo_bubble h c scene s b w H1 Hw) as (w' & Hw' & _). eauto.
Qed.

Lemma sound_remove c : preserves sound (Window_Bubble.remove c).
Proof.
  intros s [H1 H2 H3].
  destruct (remove_fields c s H1) as (Hn & _ & Hbl & _).
  split; rewrite ?Hn, ?Hbl; try assumption.
  - by apply wf_remove.
  - intros b [w Hw]%H2.
    destruct (remove_bubble c s b w H1 Hw) as (w' & Hw' & _). eauto.
Qed.

Lemma sound_initialize h target text :
  triple sound (Window_Bubble.initialize h target text)
    (λ c s, sound s ∧ (c < nextBubble s)%nat) sound.
Proof.
  intros s Hs. pose proof Hs as [H1 H2 H3]. rewrite initialize_eq.
  destruct (Window_Bubble.targetId target) as [tid|e] eqn:Ht; [|done].
  destruct (constructed_fields h target text tid s)
    as (Hbub & Hnext & _ & Hbl & _).
  split; [|lia].
  split; rewrite ?Hbub, ?Hnext, ?Hbl.
  - by apply wf_constructed.
  - intros b Hb. destruct (decide (b = nextBubble s)) as [->|Hne].
    + rewrite lookup_insert_eq. eauto.
    + rewrite lookup_insert_ne by done. apply H2. lia.
  - intros b Hb%H3. lia.
Qed.

Lemma sound_setTimeout c timeout s :
  (c < nextBubble s)%nat → sound s → sound (snd (setTimeout c timeout s)).
Proof.
  intros Hc [H1 H2 H3]. split; try assumption.
  destruct H1 as [W1 W2 W3 W4 W5]. split; try assumption.
  simpl. intros t [->|Hin]%elem_of_enqueue; [done|]. by apply W4.
Qed.

Lemma sound_showBubble h text target duration blocking :
  preserves sound (showBubble h text target duration blocking).
Proof.
  apply triple_final. unfold showBubble.
  eapply triple_bind; [apply sound_initialize|].
  intros c.
  apply (triple_of_preserves (λ s, sound s ∧ (c < nextBubble s)%nat));
    [|by intros s [H _]].
  apply preserves_bind.
  { intros s [Hs Hc]. split; [by apply sound_addTo|].
    destruct (addTo_fields h c (_scene h) s (sound_wf _ Hs)) as (-> & _). done. }
  intros _. apply preserves_bind.
  { apply preserves_bind; [apply preserves_readonly, readonly_this|].
    intros w s [Hs Hc]. split; [by apply sound_setTimeout|done]. }
  intros _. destruct blocking; [|by apply preserves_readonly].
  apply preserves_bind.
  { intros s [[H1 H2 H3] Hc]. simpl. split; [|done]. split; try assumption.
    - revert H1. by apply wf_ext.
    - simpl. by intros b [= <-]. }
  intros _. apply preserves_bind; [by apply preserves_readonly|].
  intros s1. destruct (currentInterpreter s1); [|by apply preserves_readonly].
  apply preserves_bind; [apply preserves_readonly, readonly_interpreter|].
  intros _ s [Hs Hc]. simpl. split; [|done]. revert Hs. by apply sound_ext.
Qed.

Lemma sound_commandShow h interp args : preserves sound (commandShow h interp args).
Proof.
  apply preserves_bind.
  { intros s Hs. revert Hs. by apply sound_ext. }
  intros _. apply preserves_bind; [apply preserves_readonly, readonly_getCurrentEvent|].
  intros currentEvent. apply sound_showBubble.
Qed.

Lemma sound_createBubble h e : preserves sound (Scene_Map.createBubble h e).
Proof.
  unfold Scene_Map.createBubble.
  destruct (event e) as [meta|]; [|by apply preserves_readonly].
  destruct (meta !! NOTETAG_BUBBLE) as [[|t]|]; try by apply preserves_readonly.
  apply triple_final.
  eapply triple_bind; [apply sound_initialize|].
  intros c s [[H1 H2 H3] Hc]. simpl. split; try assumption.
  destruct H1 as [W1 W2 W3 W4 W5]. split; try assumption.
  simpl. intros x [Hx| ->%list_elem_of_singleton]%elem_of_app; [by apply W5|done].
Qed.

Lemma sound_createDisplayObjects h : preserves sound (Scene_Map.createDisplayObjects h).
Proof. apply preserves_forEach. intros e _. apply sound_createBubble. Qed.

Lemma sound_terminate : preserves sound Scene_Map.terminate.
Proof.
  apply preserves_bind; [by apply preserves_readonly|].
  intros s1. apply preserves_bind.
  { apply preserves_forEach. intros b _. apply sound_remove. }
  intros _ s [H1 H2 H3]. simpl. split; try assumption.
  destruct H1 as [W1 W2 W3 W4 W5]. split; try assumption.
  simpl. intros x Hx. by apply elem_of_nil in Hx.
Qed.

Lemma sound_visit h c : preserves sound (visit h c).
Proof.
  intros s Hs.
  destruct (visit_cases h c s (sound_wf _ Hs)) as [->|[->| ->]];
    [done|by apply sound_addTo|by apply sound_remove].
Qed.

Lemma sound_updateAnimation h : preserves sound (Game_Player.updateAnimation h).
Proof.
  intros s Hs. rewrite updateAnimation_eq.
  apply preserves_forEach; [|done]. intros c _. apply sound_visit.
Qed.

Lemma sound_fire_all (ts : list Timer) s : sound s → sound (foldl fire s ts).
Proof.
  revert s. induction ts as [|t ts IH]; intros s Hs; [done|].
  simpl. apply IH. by apply sound_remove.
Qed.

Lemma sound_advance dt s : sound s → sound (advance dt s).
Proof.
  intros [H1 H2 H3]. unfold advance. apply sound_fire_all.
  split; try assumption.
  destruct H1 as [W1 W2 W3 W4 W5]. split; try assumption.
  simpl. intros t [_ Ht]%list_elem_of_filter. by apply W4.
Qed.

Lemma sound_initial interps : sound (initial interps).
Proof. split; [apply wf_initial|simpl; lia|done]. Qed.

Lemma sound_step s s' : step s s' → sound s → sound s'.
Proof.
  destruct 1; intros Hs.
  - eapply (triple_final sound); [|done].
    eapply triple_weaken; [apply sound_initialize|done|by intros c s1 [H _]|done].
  - by apply sound_addTo.
  - by apply sound_remove.
  - by apply sound_showBubble.
  - by apply sound_commandShow.
  - by apply sound_createDisplayObjects.
  - by apply sound_terminate.
  - by apply sound_updateAnimation.
  - revert Hs. by apply sound_ext.
  - by apply sound_advance.
Qed.

Lemma reachable_sound s : reachable s → sound s.
Proof.
  intros [interps Hrun]. revert s Hrun. apply rtc_ind_r.
  - apply sound_initial.
  - intros s s' _ Hstep Hs. by eapply sound_step.
Qed.

(** In a sound state [remove] returns. *)
Lemma remove_returns c s :
  sound s → (c < nextBubble s)%nat →
  ∃ s', Window_Bubble.remove c s = (Normal tt, s').
Proof.
  intros [H1 H2 H3] [w Hw]%H2.
  destruct (remove_outcome c s H1)
    as [[Hn _]|[(w1 & _ & _ & ->)|(w1 & sc & tid & l & _ & _ & _ & _ & _ & ->)]];
    [congruence|eauto..].
Qed.

(** ** Teardown *)

Lemma forEach_remove l : ∀ s,
  sound s → (∀ c, c ∈ l → (c < nextBubble s)%nat) →
  ∃ s', forEach l Window_Bubble.remove s = (Normal tt, s') ∧
        sound s' ∧
        nextBubble s' = nextBubble s ∧ speechBubbles s' = speechBubbles s ∧
        blockingSpeechBubble s' = blockingSpeechBubble s ∧
        interpreters s' = interpreters s ∧
        timers s' = timers s ∧ clock s' = clock s ∧
        ∀ b w, bubbles s !! b = Some w →
          ∃ w', bubbles s' !! b = Some w' ∧
                parent w' = (if decide (b ∈ l) then None else parent w).
Proof.
  induction l as [|c l IH]; intros s Hs Hl.
  { exists s. do 8 (split; [done|]). intros b w Hw. exists w.
    split; [done|]. rewrite decide_False; [done|]. apply not_elem_of_nil. }
  destruct (remove_returns c s Hs) as [s1 H1]; [apply Hl; by left|].
  pose proof (sound_remove c s Hs) as Hs1. rewrite H1 in Hs1. simpl in Hs1.
  destruct (remove_fields c s (sound_wf _ Hs)) as (Hn & Hsp & Hbl & _ & Hint & Htim & Hclk).
  rewrite H1 in Hn, Hsp, Hbl, Hint, Htim, Hclk. simpl in Hn, Hsp, Hbl, Hint, Htim, Hclk.
  destruct (IH s1 Hs1) as (s' & H' & Hs' & Hn' & Hsp' & Hbl' & Hint' & Htim' & Hclk' & Hpar).
  { intros d Hd. rewrite Hn. apply Hl. by right. }
  exists s'. split.
  { simpl. unfold bind. by rewrite H1. }
  split; [done|]. do 6 (split; [congruence|]).
  intros b w Hw.
  destruct (remove_bubble c s b w (sound_wf _ Hs) Hw) as (w1 & Hw1 & _ & Hp1 & _).
  rewrite H1 in Hw1. simpl in Hw1.
  destruct (Hpar b w1 Hw1) as (w' & Hw' & Hp'). exists w'. split; [done|].
  rewrite Hp', Hp1.
  destruct (decide (b = c)) as [->|Hne].
  - rewrite (decide_True (P := c ∈ c :: l)) by by left. by destruct (decide (c ∈ l)).
  - destruct (decide (b ∈ l)) as [Hin|Hnin].
    + rewrite decide_True; [done|]. by right.
    + rewrite decide_False; [done|]. by intros [?|?]%elem_of_cons.
Qed.

(** X10. In a state of a run the teardown of the scene returns: every
    notetag bubble is detached afterwards and their list is empty, while
    the bubbles of commands stay attached or detached as they were, and
    the timers and the tracked blocking bubble are untouched. *)
Theorem teardown_detaches_the_notetag_bubbles s :
  reachable s →
  ∃ s',
    Scene_Map.terminate s = (Normal tt, s') ∧
    speechBubbles s' = [] ∧
    (∀ b, b ∈ speechBubbles s → ¬ attached s' b) ∧
    (∀ b, b ∉ speechBubbles s → (attached s' b ↔ attached s b)) ∧
    timers s' = timers s ∧
    blockingSpeechBubble s' = blockingSpeechBubble s.
Proof.
  intros Hs%reachable_sound.
  destruct (forEach_remove (speechBubbles s) s Hs)
    as (s1 & H1 & Hs1 & Hn & Hsp & Hbl & Hint & Htim & Hclk & Hpar).
  { apply (wf_notetag _ (sound_wf _ Hs)). }
  exists (set_speechBubbles (λ _, []) s1). split.
  { unfold Scene_Map.terminate, bind, get. by rewrite H1. }
  split; [done|]. split; [|split; [|done]].
  - intros b Hb (w' & Hw' & [p Hp]). simpl in Hw'.
    assert (is_Some (bubbles s !! b)) as [w Hw].
    { apply (sound_bubble _ Hs). rewrite <- Hn.
      apply (wf_fresh _ (sound_wf _ Hs1)). eauto. }
    destruct (Hpar b w Hw) as (w1 & Hw1 & Hp1).
    rewrite decide_True in Hp1 by done. congruence.
  - intros b Hb. split.
    + intros (w' & Hw' & Hp). simpl in Hw'.
      assert (is_Some (bubbles s !! b)) as [w Hw].
      { apply (sound_bubble _ Hs). rewrite <- Hn.
        apply (wf_fresh _ (sound_wf _ Hs1)). eauto. }
      destruct (Hpar b w Hw) as (w1 & Hw1 & Hp1).
      rewrite decide_False in Hp1 by done.
      exists w. split; [done|]. congruence.
    + intros (w & Hw & Hp).
      destruct (Hpar b w Hw) as (w1 & Hw1 & Hp1).
      rewrite decide_False in Hp1 by done.
      exists w1. split; [done|]. congruence.
Qed.

Lemma teardown_detaches_the_notetag_bubbles_witness :
  ∃ s',
    Scene_Map.terminate Sample.crowded = (Normal tt, s') ∧
    speechBubbles s' = [] ∧ ¬ attached s' 1%nat ∧ attached s' 2%nat.
Proof.
  destruct (teardown_detaches_the_notetag_bubbles Sample.crowded crowded_reachable)
    as (s' & Ht & He & Hn & Hc & _).
  exists s'. split; [done|]. split; [done|]. split.
  - apply Hn. vm_compute. by left.
  - apply Hc.
    + vm_compute. intros [E|E]%elem_of_cons; [done|by apply elem_of_nil in E].
    + eexists. split; [vm_compute; reflexivity|]. vm_compute. eauto.
Defined.

(** ** The wait check *)

(** X11. In a state of a run the wait check of an interpreter only
    reads: in another wait mode it is the engine's check; in the bubble
    wait mode it returns whether the tracked bubble is attached, and it
    throws only when no blocking bubble was ever shown.  It never resets
    the wait mode. *)
Theorem wait_check_reads_the_tracked_bubble base i it s :
  reachable s →
  interpreters s !! i = Some it →
  (_waitMode it ≠ WAITMODE_BUBBLE → Game_Interpreter.updateWaitMode base i s = base s) ∧
  (_waitMode it = WAITMODE_BUBBLE →
     match blockingSpeechBubble s with
     | Some b => Game_Interpreter.updateWaitMode base i s = (Normal (isAttached s b), s)
     | None => Game_Interpreter.updateWaitMode base i s = (Throw TypeError, s)
     end).
Proof.
  intros Hs%reachable_sound Hi.
  unfold Game_Interpreter.updateWaitMode, bind, interpreter. rewrite Hi. split.
  - intros Hm. by apply String.eqb_neq in Hm as ->.
  - intros ->. rewrite String.eqb_refl. unfold get.
    destruct (blockingSpeechBubble s) as [b|] eqn:Hb; [|done].
    destruct (sound_bubble _ Hs b (sound_blocking _ Hs b Hb)) as [w Hw].
    unfold Window_Bubble.isActive, bind, isAttached.
    by rewrite (this_ok _ _ _ Hw), Hw.
Qed.

Lemma wait_check_reads_the_tracked_bubble_witness :
  Game_Interpreter.updateWaitMode (ret false) 0%nat Sample.crowded
  = (Normal true, Sample.crowded).
Proof.
  destruct (wait_check_reads_the_tracked_bubble (ret false) 0%nat
              (mkInterpreter 3 "bubble") Sample.crowded crowded_reachable)
    as [_ H].
  - vm_compute. reflexivity.
  - apply H. reflexivity.
Defined.

(** ** What a tick leaves behind *)

Lemma visit_shows h c w tid l s :
  bubbles s !! c = Some w →
  Window_Bubble.targetId (targetCharacter w) = Normal tid →
  activeBubbles s !! tid = Some l →
  visit h c s = if shows h c w l then Window_Bubble.addTo h c (_scene h) s
                else Window_Bubble.remove c s.
Proof. apply visit_eq. Qed.

Lemma visit_Normal h c s s1 :
  wf s → visit h c s = (Normal tt, s1) →
  ∃ w tid l, bubbles s !! c = Some w ∧
             Window_Bubble.targetId (targetCharacter w) = Normal tid ∧
             activeBubbles s !! tid = Some l ∧
             (is_Some (parent w) ↔ c ∈ l).
Proof.
  intros Hwf Hv. destruct (bubbles s !! c) as [w|] eqn:Hc.
  - destruct (wf_target _ Hwf _ _ Hc) as (tid & l & Ht & Hl & Hin). by exists w, tid, l.
  - exfalso. revert Hv. unfold visit, bind, Window_Bubble.isPlayerWithinDistance, bind.
    unfold Window_Bubble.this. by rewrite Hc.
Qed.

Lemma settled_visit h c s : settled h c s → visit h c s = (Normal tt, s).
Proof.
  intros (w & tid & l & Hw & Ht & Hl & Hc).
  rewrite (visit_shows _ _ _ _ _ _ Hw Ht Hl).
  destruct (shows h c w l).
  - by eapply addTo_attached.
  - by eapply remove_detached.
Qed.

Lemma shows_true h c w l :
  shows h c w l = true ↔
  withinDistance h (targetCharacter w) = true ∧ (last l = None ∨ last l = Some c).
Proof.
  unfold shows. rewrite andb_true_iff, negb_true_iff.
  destruct (last l) as [d|].
  - rewrite bool_decide_eq_false. split.
    + intros [Hn Hd]. split; [done|]. right. f_equal.
      destruct (decide (d = c)); [done|]. by destruct Hd.
    + intros [Hn [Hl|[= ->]]]; [done|]. split; [done|]. intros Hc. by apply Hc.
  - split; [intros [? _]; auto|by intros [? _]].
Qed.

(** The visit of a bubble settles it. *)
Lemma visit_settles h c s s1 :
  wf s → visit h c s = (Normal tt, s1) → settled h c s1.
Proof.
  intros Hwf Hv.
  destruct (visit_Normal _ _ _ _ Hwf Hv) as (w & tid & l & Hw & Ht & Hl & Hin).
  rewrite (visit_shows _ _ _ _ _ _ Hw Ht Hl) in Hv.
  destruct (shows h c w l) eqn:Hgo.
  - destruct (addTo_outcome h c (_scene h) s Hwf)
      as [E|[(w0 & Hw0 & Hp & E)|(w0 & tid0 & l0 & pos & Hw0 & Hp & Ht0 & Hl0 & _ & _ & E)]];
      rewrite E in Hv; [done| |]; injection Hv as <-.
    + rewrite Hw in Hw0. injection Hw0 as <-.
      exists w, tid, l. by rewrite Hgo.
    + rewrite Hw in Hw0. injection Hw0 as <-.
      rewrite Ht in Ht0. injection Ht0 as <-.
      eexists _, tid, _. split; [by apply added_self|]. split; [done|].
      split; [rewrite added_stacks; apply lookup_insert_eq|].
      apply shows_true in Hgo as [Hnear _].
      replace (shows _ _ _ _) with true; [simpl; eauto|].
      symmetry. apply shows_true. split; [done|]. right. apply last_snoc.
  - destruct (remove_outcome c s Hwf)
      as [[Hn _]|[(w0 & Hw0 & Hp & E)|(w0 & sc & tid0 & l0 & Hw0 & Hp & Ht0 & Hl0 & _ & E)]];
      [congruence| |]; rewrite E in Hv; injection Hv as <-.
    + rewrite Hw in Hw0. injection Hw0 as <-.
      exists w, tid, l. by rewrite Hgo.
    + rewrite Hw in Hw0. injection Hw0 as <-.
      rewrite Ht in Ht0. injection Ht0 as <-.
      rewrite Hl in Hl0. injection Hl0 as <-.
      eexists _, tid, _. split; [by apply removed_self|]. split; [done|].
      split; [rewrite removed_stacks; apply lookup_insert_eq|].
      replace (shows _ _ _ _) with false; [done|].
      symmetry. apply not_true_iff_false. intros [Hnear Htop]%shows_true.
      simpl in Hnear. apply not_true_iff_false in Hgo. apply Hgo, shows_true.
      split; [done|]. destruct Htop as [Htop|Htop].
      * apply last_None in Htop. left. apply last_None.
        destruct l as [|d l' _] using rev_ind; [done|].
        rewrite filter_app in Htop. apply app_eq_nil in Htop as [_ Htop].
        destruct (decide (d = c)) as [->|Hd].
        -- exfalso. apply Hgo, shows_true. split; [done|]. right. apply last_snoc.
        -- by rewrite filter_cons_True in Htop.
      * by apply last_filter_ne in Htop.
Qed.

Lemma shows_congr h c w w' l l' :
  targetCharacter w' = targetCharacter w → last l' = last l →
  shows h c w' l' = shows h c w l.
Proof. unfold shows. by intros -> ->. Qed.

Lemma shows_far h c w l :
  withinDistance h (targetCharacter w) = false → shows h c w l = false.
Proof. unfold shows. by intros ->. Qed.

(** The visit of one bubble keeps every other bubble settled. *)
Lemma visit_keeps_settled h a c s s1 :
  wf s → settled h c s → visit h a s = (Normal tt, s1) → settled h c s1.
Proof.
  intros Hwf Hc Hv.
  destruct (decide (a = c)) as [->|Hne]; [by eapply visit_settles|].
  destruct Hc as (w & tid & l & Hw & Ht & Hl & Hc).
  destruct (visit_Normal _ _ _ _ Hwf Hv) as (wa & tida & la & Hwa & Hta & Hla & Hina).
  rewrite (visit_shows _ _ _ _ _ _ Hwa Hta Hla) in Hv.
  destruct (shows h a wa la) eqn:Hgo.
  - destruct (addTo_outcome h a (_scene h) s Hwf)
      as [E|[(w0 & Hw0 & Hp & E)
            |(w0 & tid0 & l0 & pos & Hw0 & Hp & Ht0 & Hl0 & Hnin & _ & E)]];
      rewrite E in Hv; [done| |]; injection Hv as <-.
    { by exists w, tid, l. }
    rewrite Hwa in Hw0. injection Hw0 as <-.
    rewrite Hta in Ht0. injection Ht0 as <-.
    rewrite Hla in Hl0. injection Hl0 as <-.
    apply shows_true in Hgo as [Hnear Htop].
    assert (la = []) as ->.
    { destruct Htop as [Htop|Htop]; [by apply last_None|].
      by apply last_Some_elem_of in Htop. }
    destruct (decide (tida = tid)) as [->|Htid].
    + exfalso. rewrite Hl in Hla. injection Hla as ->.
      assert (shows h c w [] = true) as Hs.
      { apply shows_true. split; [|auto]. by rewrite (targetId_inj _ _ _ Ht Hta). }
      rewrite Hs in Hc.
      destruct (wf_target _ Hwf c w Hw) as (tid' & l' & Ht' & Hl' & Hin').
      rewrite Ht in Ht'. injection Ht' as <-.
      rewrite Hl in Hl'. injection Hl' as <-.
      apply Hin' in Hc. by apply elem_of_nil in Hc.
    + exists w, tid, l. split; [|split; [done|split; [|done]]].
      * rewrite added_other by done. by rewrite decide_False.
      * rewrite added_stacks. by rewrite lookup_insert_ne.
  - destruct (remove_outcome a s Hwf)
      as [[Hn _]|[(w0 & Hw0 & Hp & E)
                 |(w0 & sc & tid0 & l0 & Hw0 & Hp & Ht0 & Hl0 & Hin0 & E)]];
      [congruence| |]; rewrite E in Hv; injection Hv as <-.
    { by exists w, tid, l. }
    rewrite Hwa in Hw0. injection Hw0 as <-.
    rewrite Hta in Ht0. injection Ht0 as <-.
    rewrite Hla in Hl0. injection Hl0 as <-.
    destruct (remove_bubble a s c w Hwf Hw) as (w1 & Hw1 & Htc & Hp1 & _).
    rewrite (remove_attached _ _ _ _ _ _ Hwa Hp Hta Hla) in Hw1. cbn [snd] in Hw1.
    rewrite decide_False in Hp1 by done.
    destruct (decide (tida = tid)) as [->|Htid].
    + rewrite Hl in Hla. injection Hla as <-.
      exists w1, tid, (filter (λ x, x ≠ a) l). split; [done|].
      split; [by rewrite Htc|].
      split; [rewrite removed_stacks; apply lookup_insert_eq|].
      rewrite Hp1.
      destruct (withinDistance h (targetCharacter w)) eqn:Hnear.
      * assert (∃ d, last l = Some d ∧ d ≠ a) as (d & Hd & Hda).
        { unfold shows in Hgo.
          rewrite <- (targetId_inj _ _ _ Ht Hta), Hnear in Hgo. simpl in Hgo.
          destruct (last l) as [d|]; [|done]. exists d. split; [done|].
          apply negb_false_iff in Hgo. by apply bool_decide_eq_true in Hgo. }
        rewrite (shows_congr h c w w1 l (filter (λ x, x ≠ a) l)) ; [done..|].
        rewrite Hd. by apply last_filter_keep.
      * rewrite shows_far in Hc by done. rewrite shows_far by by rewrite Htc. done.
    + exists w1, tid, l. split; [done|]. split; [by rewrite Htc|].
      split; [rewrite removed_stacks; by rewrite lookup_insert_ne|].
      rewrite Hp1. by rewrite (shows_congr h c w w1 l l).
Qed.

Lemma tick_settles h l : ∀ s s' (done : list nat),
  wf s → (∀ c, c ∈ done → settled h c s) →
  forEach l (visit h) s = (Normal tt, s') →
  ∀ c, c ∈ done ++ l → settled h c s'.
Proof.
  induction l as [|a l IH]; intros s s' done Hwf Hdone Hrun.
  - injection Hrun as <-. by rewrite app_nil_r.
  - apply forEach_cons_inv in Hrun as (s1 & Ha & Hrun).
    intros c Hc. apply (IH s1 s' (done ++ [a])); try done.
    + pose proof (wf_visit h a s Hwf) as H. by rewrite Ha in H.
    + intros d [Hd| ->%list_elem_of_singleton]%elem_of_app.
      * eapply visit_keeps_settled; [done|by apply Hdone|done].
      * by eapply visit_settles.
    + by rewrite <- app_assoc.
Qed.

Lemma forEach_settled h l s :
  (∀ c, c ∈ l → settled h c s) → forEach l (visit h) s = (Normal tt, s).
Proof.
  induction l as [|a l IH]; intros Hl; [done|].
  simpl. unfold bind. rewrite settled_visit by (apply Hl; by left).
  apply IH. intros c Hc. apply Hl. by right.
Qed.

Lemma forEach_visit_fields h l : ∀ s,
  wf s →
  let s' := snd (forEach l (visit h) s) in
  nextBubble s' = nextBubble s ∧ speechBubbles s' = speechBubbles s ∧
  blockingSpeechBubble s' = blockingSpeechBubble s ∧
  currentInterpreter s' = currentInterpreter s ∧
  interpreters s' = interpreters s ∧ timers s' = timers s ∧ clock s' = clock s.
Proof.
  induction l as [|a l IH]; intros s Hwf; [done|].
  simpl. unfold bind.
  assert (let s1 := snd (visit h a s) in
          nextBubble s1 = nextBubble s ∧ speechBubbles s1 = speechBubbles s ∧
          blockingSpeechBubble s1 = blockingSpeechBubble s ∧
          currentInterpreter s1 = currentInterpreter s ∧
          interpreters s1 = interpreters s ∧ timers s1 = timers s ∧
          clock s1 = clock s) as H1.
  { destruct (visit_cases h a s Hwf) as [->|[->| ->]];
      [done|by apply addTo_fields|by apply remove_fields]. }
  pose proof (wf_visit h a s Hwf) as Hwf1.
  destruct (visit h a s) as [[[]|e] s1]; [|done].
  specialize (IH s1 Hwf1). simpl in *.
  destruct H1 as (<- & <- & <- & <- & <- & <- & <-). done.
Qed.

Lemma forEach_visit_parent h l : ∀ s b w,
  wf s → b ∉ l → bubbles s !! b = Some w →
  ∃ w', bubbles (snd (forEach l (visit h) s)) !! b = Some w' ∧ parent w' = parent w.
Proof.
  induction l as [|a l IH]; intros s b w Hwf Hb Hw; [by exists w|].
  apply not_elem_of_cons in Hb as [Hba Hb].
  destruct (visit_bubble h a s b w Hwf Hw) as (w1 & Hw1 & _ & Hp1 & _).
  pose proof (wf_visit h a s Hwf) as Hwf1.
  simpl. unfold bind. destruct (visit h a s) as [[[]|e] s1]; simpl in *.
  - destruct (IH s1 b w1 Hwf1 Hb Hw1) as (w' & Hw' & Hp').
    exists w'. split; [done|]. rewrite Hp'. by apply Hp1.
  - exists w1. split; [done|]. by apply Hp1.
Qed.

Lemma forEach_visit_domain h l : ∀ s b,
  wf s → is_Some (bubbles (snd (forEach l (visit h) s)) !! b) → is_Some (bubbles s !! b).
Proof.
  induction l as [|a l IH]; intros s b Hwf; [done|].
  pose proof (wf_visit h a s Hwf) as Hwf1.
  pose proof (visit_domain h a s b Hwf) as Hd.
  simpl. unfold bind. destruct (visit h a s) as [[[]|e] s1]; simpl in *; [|done].
  intros H. by apply Hd, IH.
Qed.

(** X12. A tick that returns leaves nothing to do: a second tick, with
    the player and the characters where they were, changes nothing. *)
Theorem second_tick_changes_nothing h s s' :
  reachable s →
  Game_Player.updateAnimation h s = (Normal tt, s') →
  Game_Player.updateAnimation h s' = (Normal tt, s').
Proof.
  intros Hwf%reachable_wf Hrun. rewrite updateAnimation_eq in *.
  destruct (forEach_visit_fields h (speechBubbles s) s Hwf) as (_ & Hsp & _).
  rewrite Hrun in Hsp. simpl in Hsp. rewrite Hsp.
  apply forEach_settled. intros c Hc.
  apply (tick_settles h (speechBubbles s) s s' [] Hwf); [|done..].
  by intros d Hd%elem_of_nil.
Qed.

Lemma second_tick_changes_nothing_witness :
  Game_Player.updateAnimation Sample.host Sample.ticked = (Normal tt, Sample.ticked).
Proof.
  apply (second_tick_changes_nothing Sample.host Sample.loaded Sample.ticked
           loaded_reachable).
  vm_compute. reflexivity.
Defined.

(** X13. After a tick that returns, a notetag bubble is attached exactly
    when the player is within distance of its target and it is the last
    bubble of the target's stack, and then it is displayed: a notetag
    bubble that another bubble covers is taken off the scene. *)
Theorem tick_keeps_no_covered_notetag_bubble h s s' b :
  reachable s →
  Game_Player.updateAnimation h s = (Normal tt, s') →
  b ∈ speechBubbles s →
  ∃ w tid,
    bubbles s' !! b = Some w ∧
    Window_Bubble.targetId (targetCharacter w) = Normal tid ∧
    (attached s' b ↔
       withinDistance h (targetCharacter w) = true ∧ last (stackOf s' tid) = Some b) ∧
    (attached s' b → displayed s' b).
Proof.
  intros Hwf%reachable_wf Hrun Hb. rewrite updateAnimation_eq in Hrun.
  assert (wf s') as Hwf'.
  { pose proof (preserves_forEach wf (speechBubbles s) (visit h)
                  (λ c _, wf_visit h c) s Hwf) as H. by rewrite Hrun in H. }
  destruct (tick_settles h (speechBubbles s) s s' [] Hwf) with (c := b)
    as (w & tid & l & Hw & Ht & Hl & Hc); [by intros c Hc%elem_of_nil|done|done|].
  destruct (wf_target _ Hwf' b w Hw) as (tid' & l' & Ht' & Hl' & Hin).
  rewrite Ht in Ht'. injection Ht' as <-.
  rewrite Hl in Hl'. injection Hl' as <-.
  assert (attached s' b ↔
          withinDistance h (targetCharacter w) = true ∧ last (stackOf s' tid) = Some b)
    as Hiff.
  { rewrite (attached_isActive _ _ _ Hw), (stackOf_lookup _ _ _ Hl). split.
    - intros Hp. destruct (shows h b w l) eqn:Hgo.
      + apply shows_true in Hgo as [Hnear [Htop|Htop]]; [|done].
        apply Hin in Hp. apply last_None in Htop. subst. by apply elem_of_nil in Hp.
      + rewrite Hc in Hp. by destruct Hp.
    - intros [Hnear Htop].
      replace (shows h b w l) with true in Hc; [done|].
      symmetry. apply shows_true. auto. }
  exists w, tid. split; [done|]. split; [done|]. split; [done|].
  intros [_ Htop]%Hiff. by apply (wf_top_displayed _ _ _ Hwf' Htop).
Qed.

Lemma tick_keeps_no_covered_notetag_bubble_witness :
  ¬ attached (snd (Game_Player.updateAnimation Sample.host Sample.crowded)) 1%nat.
Proof.
  destruct (tick_keeps_no_covered_notetag_bubble Sample.host Sample.crowded
              (snd (Game_Player.updateAnimation Sample.host Sample.crowded)) 1%nat
              crowded_reachable)
    as (w & tid & Hw & Ht & Hiff & _).
  - vm_compute. reflexivity.
  - vm_compute. by left.
  - intros [_ Htop]%Hiff.
    vm_compute in Hw. injection Hw as <-.
    vm_compute in Ht. injection Ht as <-.
    vm_compute in Htop. discriminate Htop.
Defined.

(** X14. A tick attaches and detaches notetag bubbles only: a bubble
    shown by a command stays attached or detached as it was, and the tick
    creates no bubble, starts no timer and leaves the tracked blocking
    bubble and the interpreters alone, however it completes. *)
Theorem tick_leaves_command_bubbles h s b :
  reachable s → b ∉ speechBubbles s →
  let s' := snd (Game_Player.updateAnimation h s) in
  (attached s' b ↔ attached s b) ∧
  nextBubble s' = nextBubble s ∧ speechBubbles s' = speechBubbles s ∧
  timers s' = timers s ∧
  blockingSpeechBubble s' = blockingSpeechBubble s ∧
  interpreters s' = interpreters s.
Proof.
  intros Hwf%reachable_wf Hb. rewrite updateAnimation_eq.
  destruct (forEach_visit_fields h (speechBubbles s) s Hwf)
    as (Hn & Hsp & Hbl & _ & Hint & Htim & _).
  split; [|done]. split.
  - intros (w' & Hw' & Hp').
    destruct (forEach_visit_domain h (speechBubbles s) s b Hwf) as [w Hw]; [eauto|].
    destruct (forEach_visit_parent h (speechBubbles s) s b w Hwf Hb Hw)
      as (w1 & Hw1 & Hp1).
    exists w. split; [done|]. congruence.
  - intros (w & Hw & Hp).
    destruct (forEach_visit_parent h (speechBubbles s) s b w Hwf Hb Hw)
      as (w1 & Hw1 & Hp1).
    exists w1. split; [done|]. congruence.
Qed.

Lemma tick_leaves_command_bubbles_witness :
  attached (snd (Game_Player.updateAnimation Sample.hostFar Sample.crowded)) 2%nat
  ↔ attached Sample.crowded 2%nat.
Proof.
  apply (tick_leaves_command_bubbles Sample.hostFar Sample.crowded 2%nat
           crowded_reachable).
  vm_compute. intros [E|E]%elem_of_cons; [done|by apply elem_of_nil in E].
Defined.

(** ** Loading a scene *)

Lemma forEach_app {A} (f : A → M unit) l1 l2 s :
  forEach (l1 ++ l2) f s
  = match forEach l1 f s with
    | (Normal _, s1) => forEach l2 f s1
    | (Throw e, s1) => (Throw e, s1)
    end.
Proof.
  revert s. induction l1 as [|a l1 IH]; intros s; [done|].
  simpl. unfold bind. destruct (f a s) as [[[]|e] s1]; [apply IH|done].
Qed.

Lemma createBubble_text h e meta t s :
  event e = Some meta → meta !! NOTETAG_BUBBLE = Some (MetaText t) →
  Scene_Map.createBubble h e s
  = (Normal tt,
     set_speechBubbles (λ l, l ++ [nextBubble s])
       (constructed h (VEvent (mapEventId e)) (Scene_Map.replaceNewlines t)
          ("e" +:+ pretty (mapEventId e)) s)).
Proof.
  intros He Hm. unfold Scene_Map.createBubble. rewrite He, Hm.
  unfold bind. by rewrite initialize_eq.
Qed.

Lemma createBubble_textless h e meta s :
  event e = Some meta → meta !! NOTETAG_BUBBLE = Some MetaTrue →
  Scene_Map.createBubble h e s = (Throw TypeError, s).
Proof. intros He Hm. unfold Scene_Map.createBubble. by rewrite He, Hm. Qed.

Lemma hasNotetag_text e :
  Scene_Map.hasNotetag e = true →
  (∀ meta, event e = Some meta → meta !! NOTETAG_BUBBLE ≠ Some MetaTrue) →
  ∃ meta t, event e = Some meta ∧ meta !! NOTETAG_BUBBLE = Some (MetaText t).
Proof.
  unfold Scene_Map.hasNotetag. destruct (event e) as [meta|]; [|done].
  intros [v Hv]%bool_decide_eq_true Hne. destruct v as [|t].
  - by destruct (Hne meta).
  - eauto.
Qed.

Lemma forEach_createBubble h l : ∀ s,
  (∀ e, e ∈ l → ∃ meta t, event e = Some meta ∧
                          meta !! NOTETAG_BUBBLE = Some (MetaText t)) →
  ∃ s',
    forEach l (Scene_Map.createBubble h) s = (Normal tt, s') ∧
    speechBubbles s' = speechBubbles s ++ seq (nextBubble s) (length l) ∧
    nextBubble s' = (nextBubble s + length l)%nat ∧
    (∀ b, (b < nextBubble s)%nat → bubbles s' !! b = bubbles s !! b) ∧
    (∀ i e, l !! i = Some e →
       ∃ w, bubbles s' !! (nextBubble s + i)%nat = Some w ∧
            targetCharacter w = VEvent (mapEventId e) ∧ parent w = None) ∧
    timers s' = timers s ∧
    blockingSpeechBubble s' = blockingSpeechBubble s.
Proof.
  induction l as [|e l IH]; intros s Hl.
  { exists s. split; [done|]. split; [by rewrite app_nil_r|].
    split; [simpl; lia|]. by repeat split. }
  destruct (Hl e) as (meta & t & He & Hm); [by left|].
  set (s1 := set_speechBubbles (λ l, l ++ [nextBubble s])
               (constructed h (VEvent (mapEventId e)) (Scene_Map.replaceNewlines t)
                  ("e" +:+ pretty (mapEventId e)) s)).
  destruct (constructed_fields h (VEvent (mapEventId e)) (Scene_Map.replaceNewlines t)
              ("e" +:+ pretty (mapEventId e)) s)
    as (Hbub & Hnext & Hsp & Hbl & _ & _ & Htim & _).
  destruct (IH s1) as (s' & Hrun & Hsp' & Hn' & Hold & Hnew & Htim' & Hbl').
  { intros e' He'. apply Hl. by right. }
  exists s'. split.
  { simpl. unfold bind. by rewrite (createBubble_text h e meta t s He Hm). }
  change (nextBubble s1) with
    (nextBubble (constructed h (VEvent (mapEventId e)) (Scene_Map.replaceNewlines t)
                   ("e" +:+ pretty (mapEventId e)) s)) in *.
  change (bubbles s1) with
    (bubbles (constructed h (VEvent (mapEventId e)) (Scene_Map.replaceNewlines t)
                ("e" +:+ pretty (mapEventId e)) s)) in *.
  rewrite Hnext in *. rewrite Hbub in *.
  split; [|split; [|split; [|split; [|split]]]].
  - rewrite Hsp'. unfold s1. cbn [speechBubbles set_speechBubbles].
    rewrite Hsp. by rewrite <- app_assoc.
  - rewrite Hn'. simpl. lia.
  - intros b Hb. rewrite Hold by lia. apply lookup_insert_ne. lia.
  - intros [|i] e' He'.
    + injection He' as <-. rewrite Nat.add_0_r, Hold by lia.
      rewrite lookup_insert_eq. eauto.
    + destruct (Hnew i e' He') as (w & Hw & Hw'). exists w. split; [|done].
      by replace (nextBubble s + S i)%nat with (S (nextBubble s) + i)%nat by lia.
  - by rewrite Htim'.
  - by rewrite Hbl'.
Qed.

(** X15. Loading a scene whose notetags all carry a text creates one
    bubble for each event with the notetag, in the order of the map's
    events, and lists them as notetag bubbles.  All of them are detached:
    nothing is shown before the next tick.  The bubbles that existed are
    as they were, and no timer is started. *)
Theorem scene_load_creates_detached_bubbles h s :
  (∀ e meta, e ∈ events h → event e = Some meta →
             meta !! NOTETAG_BUBBLE ≠ Some MetaTrue) →
  let tagged := filter (λ e, Scene_Map.hasNotetag e = true) (events h) in
  ∃ s',
    Scene_Map.createDisplayObjects h s = (Normal tt, s') ∧
    speechBubbles s' = speechBubbles s ++ seq (nextBubble s) (length tagged) ∧
    nextBubble s' = (nextBubble s + length tagged)%nat ∧
    (∀ b, (b < nextBubble s)%nat → bubbles s' !! b = bubbles s !! b) ∧
    (∀ i e, tagged !! i = Some e →
       ∃ w, bubbles s' !! (nextBubble s + i)%nat = Some w ∧
            targetCharacter w = VEvent (mapEventId e) ∧ parent w = None) ∧
    timers s' = timers s ∧
    blockingSpeechBubble s' = blockingSpeechBubble s.
Proof.
  intros Htext tagged. apply forEach_createBubble.
  intros e [Htag Hin]%list_elem_of_filter.
  apply hasNotetag_text; [done|]. intros meta. by apply Htext.
Qed.

Lemma scene_load_creates_detached_bubbles_witness :
  ∃ s',
    Scene_Map.createDisplayObjects Sample.host Sample.shown = (Normal tt, s') ∧
    speechBubbles s' = [1%nat] ∧
    ∃ w, bubbles s' !! 1%nat = Some w ∧ targetCharacter w = VEvent 3 ∧ parent w = None.
Proof.
  destruct (scene_load_creates_detached_bubbles Sample.host Sample.shown)
    as (s' & Hrun & Hsp & _ & _ & Hnew & _).
  - intros e meta Hin He. vm_compute in Hin.
    apply elem_of_cons in Hin as [->|Hin]; [|by apply elem_of_nil in Hin].
    injection He as <-. vm_compute. discriminate.
  - exists s'. split; [done|]. split; [done|].
    apply (Hnew 0%nat (mkMapEvent 3 (Some {[ NOTETAG_BUBBLE := MetaText "Fine weather today!" ]}))).
    reflexivity.
Defined.

(** X16. Loading a scene stops with a [TypeError] at the first event
    whose notetag has no text: the bubbles of the events before it exist
    and are listed, and the events after it get no bubble. *)
Theorem scene_load_stops_at_a_textless_notetag h s pre e post meta :
  filter (λ e, Scene_Map.hasNotetag e = true) (events h) = pre ++ e :: post →
  (∀ e' meta', e' ∈ pre → event e' = Some meta' →
               meta' !! NOTETAG_BUBBLE ≠ Some MetaTrue) →
  event e = Some meta → meta !! NOTETAG_BUBBLE = Some MetaTrue →
  ∃ s',
    Scene_Map.createDisplayObjects h s = (Throw TypeError, s') ∧
    speechBubbles s' = speechBubbles s ++ seq (nextBubble s) (length pre) ∧
    nextBubble s' = (nextBubble s + length pre)%nat.
Proof.
  intros Hsplit Hpre He Hm.
  destruct (forEach_createBubble h pre s) as (s' & Hrun & Hsp & Hn & _).
  { intros e' Hin. apply hasNotetag_text.
    - assert (e' ∈ filter (λ e, Scene_Map.hasNotetag e = true) (events h)) as Hf.
      { rewrite Hsplit. apply elem_of_app. by left. }
      by apply list_elem_of_filter in Hf as [? _].
    - intros meta'. by apply Hpre. }
  exists s'. split; [|done].
  unfold Scene_Map.createDisplayObjects. rewrite Hsplit, forEach_app, Hrun.
  simpl. unfold bind. by rewrite (createBubble_textless h e meta s' He Hm).
Qed.

Lemma scene_load_stops_at_a_textless_notetag_witness :
  ∃ s',
    Scene_Map.createDisplayObjects Trial.hostTextless Sample.start
    = (Throw TypeError, s') ∧
    speechBubbles s' = [0%nat] ∧ nextBubble s' = 1%nat.
Proof.
  apply (scene_load_stops_at_a_textless_notetag Trial.hostTextless Sample.start
           [mkMapEvent 3 (Some {[ NOTETAG_BUBBLE := MetaText "Fine weather today!" ]})]
           (mkMapEvent 4 (Some {[ NOTETAG_BUBBLE := MetaTrue ]}))
           [mkMapEvent 5 (Some {[ NOTETAG_BUBBLE := MetaText "Hello\nWorld" ]})]
           {[ NOTETAG_BUBBLE := MetaTrue ]}).
  - reflexivity.
  - intros e' meta' ->%list_elem_of_singleton [= <-]. vm_compute. discriminate.
  - reflexivity.
  - reflexivity.
Defined.

(** ** The [show] command, in closed form *)

Lemma constructed_stack h target text tid s :
  activeBubbles (constructed h target text tid s) !! tid = Some (stackOf s tid).
Proof. rewrite constructed_activeBubbles. by rewrite decide_True. Qed.

Lemma showBubble_closed h text target duration blocking s s' :
  wf s →
  showBubble h text target duration blocking s = (Normal tt, s') →
  let b := nextBubble s in
  let len := foldl Window_Bubble.flushTextState 0 (textStates h text) in
  let T := Num.or duration (Num.mul (Num.ofZ len) (Num.ofZ 150)) in
  ∃ tid pos,
    Window_Bubble.targetId target = Normal tid ∧
    let s3 := set_timers (enqueue (mkTimer b T (clock s + timerDelay T)))
                (added b (_scene h) tid (stackOf s tid) pos
                   (constructed h target text tid s)) in
    if blocking
    then ∃ i it, currentInterpreter s = Some i ∧ interpreters s !! i = Some it ∧
                 s' = set_interpreters
                        (alter (λ it, mkInterpreter (_eventId it) WAITMODE_BUBBLE) i)
                        (set_blockingSpeechBubble (Some b) s3)
    else s' = s3.
Proof.
  intros Hwf Hshow b len T.
  revert Hshow. unfold showBubble, bind at 1. rewrite initialize_eq.
  destruct (Window_Bubble.targetId target) as [tid|e] eqn:Ht; [|done].
  fold b.
  pose proof (wf_constructed h target text tid s Hwf Ht) as Hwf1.
  destruct (constructed_fields h target text tid s)
    as (Hbub & Hnext & Hsp & Hbl & Hci & Hint & Htim & Hclk).
  fold b in Hbub.
  pose proof (constructed_stack h target text tid s) as Hst.
  set (s1 := constructed h target text tid s) in *.
  set (w1 := mkBubble target len (Window_Bubble.getRectForText h text).1
               (Window_Bubble.getRectForText h text).2 (Num.ofZ 0) (Num.ofZ 0) None true).
  assert (bubbles s1 !! b = Some w1) as Hw1.
  { rewrite Hbub. apply lookup_insert_eq. }
  unfold bind at 1.
  destruct (addTo_outcome h b (_scene h) s1 Hwf1)
    as [->|[(w & Hw & Hp & _)|(w & tid' & l & pos & Hw & _ & Ht' & Hl' & _ & _ & ->)]];
    [done| |].
  { rewrite Hw1 in Hw. injection Hw as <-. by destruct Hp. }
  rewrite Hw1 in Hw. injection Hw as <-.
  simpl in Ht'. rewrite Ht in Ht'. injection Ht' as <-.
  rewrite Hst in Hl'. injection Hl' as <-.
  set (s2 := added b (_scene h) tid (stackOf s tid) pos s1).
  pose proof (added_self b (_scene h) tid (stackOf s tid) pos s1 w1 Hw1) as Hw2.
  destruct (added_fields b (_scene h) tid (stackOf s tid) pos s1)
    as (Hn2 & Hsp2 & Hbl2 & Hci2 & Hint2 & Htim2 & Hclk2).
  fold s2 in Hw2, Hn2, Hsp2, Hbl2, Hci2, Hint2, Htim2, Hclk2.
  unfold bind at 1, bind at 1. rewrite (this_ok _ _ _ Hw2).
  change (textLength _) with len. fold T.
  unfold setTimeout, modify. rewrite Hclk2, Hclk.
  destruct blocking.
  - unfold bind at 1, modify, bind at 1, get.
    cbn [currentInterpreter set_blockingSpeechBubble set_timers].
    rewrite Hci2, Hci.
    destruct (currentInterpreter s) as [i|] eqn:Hcur; [|done].
    unfold setWaitMode, bind at 1, interpreter.
    cbn [interpreters set_blockingSpeechBubble set_timers].
    rewrite Hint2, Hint.
    destruct (interpreters s !! i) as [it|] eqn:Hit; [|done].
    unfold modify. intros [= <-]. exists tid, pos. split; [done|]. by exists i, it.
  - unfold ret. intros [= <-]. by exists tid, pos.
Qed.

(** ** The target selectors *)

(** X17. Each selector the command documents picks its target when the
    lookup finds a character: the player, the event that runs the command,
    the event with the given id or with the id held by the given variable,
    and the follower with the given index or with the index held by the
    given variable.  For the player the Target ID is ignored. *)
Theorem selector_picks_the_documented_target h interp it args s :
  interpreters s !! interp = Some it →
  let id := targetSelectorId args in
  let selects target :=
    commandShow h interp args s
    = showBubble h (text args) target (toNumber h (durationMs args))
        (String.eqb (toLowerCase (isBlocking args)) "true")
        (set_currentInterpreter (Some interp) s) in
  (targetSelector args = COMMAND_ARG_TARGET_PLAYER → selects VPlayer) ∧
  (targetSelector args = COMMAND_ARG_TARGET_SELF →
     truthyValue (_events h (pretty (_eventId it))) = true →
     selects (_events h (pretty (_eventId it)))) ∧
  (targetSelector args = COMMAND_ARG_TARGET_EVENT →
     truthyValue (_events h id) = true → selects (_events h id)) ∧
  (targetSelector args = COMMAND_ARG_TARGET_EVENTBYVAR →
     truthyValue (_events h (variableValue h id)) = true →
     selects (_events h (variableValue h id))) ∧
  (targetSelector args = COMMAND_ARG_TARGET_FOLLOWER →
     truthyValue (followerData h id) = true → selects (followerData h id)) ∧
  (targetSelector args = COMMAND_ARG_TARGET_FOLLOWERBYVAR →
     truthyValue (followerData h (variableValue h id)) = true →
     selects (followerData h (variableValue h id))).
Proof.
  intros Hi id selects. subst id selects. cbv beta.
  rewrite (commandShow_eq _ _ _ _ _ Hi). unfold selectorTable, orValue.
  repeat split; intros ->.
  - by rewrite (ownProperty_entry _ _ _ _ VPlayer)
      by (unfold selectorEntries; rewrite !elem_of_cons; auto 10).
  - intros Hv. rewrite (ownProperty_entry _ _ _ _ (_events h (pretty (_eventId it))))
      by (unfold selectorEntries; rewrite !elem_of_cons; auto 10).
    by rewrite Hv.
  - intros Hv. rewrite (ownProperty_entry _ _ _ _ (_events h (targetSelectorId args)))
      by (unfold selectorEntries; rewrite !elem_of_cons; auto 10).
    by rewrite Hv.
  - intros Hv.
    rewrite (ownProperty_entry _ _ _ _ (_events h (variableValue h (targetSelectorId args))))
      by (unfold selectorEntries; rewrite !elem_of_cons; auto 10).
    by rewrite Hv.
  - intros Hv. rewrite (ownProperty_entry _ _ _ _ (followerData h (targetSelectorId args)))
      by (unfold selectorEntries; rewrite !elem_of_cons; auto 10).
    by rewrite Hv.
  - intros Hv.
    rewrite (ownProperty_entry _ _ _ _
               (followerData h (variableValue h (targetSelectorId args))))
      by (unfold selectorEntries; rewrite !elem_of_cons; auto 10).
    by rewrite Hv.
Qed.

Lemma selector_picks_the_documented_target_witness :
  commandShow Sample.host 0%nat Sample.greeting Sample.ticked
  = showBubble Sample.host "Hi" (VEvent 3) (Num.ofZ 500) false
      (set_currentInterpreter (Some 0%nat) Sample.ticked).
Proof.
  destruct (selector_picks_the_documented_target Sample.host 0%nat
              (mkInterpreter 3 "bubble") Sample.greeting Sample.ticked)
    as (_ & Hself & _).
  - vm_compute. reflexivity.
  - apply Hself; reflexivity.
Defined.

Lemma ownProperty_unlisted h currentEvent id key :
  key ∉ [ COMMAND_ARG_TARGET_SELF; COMMAND_ARG_TARGET_PLAYER; COMMAND_ARG_TARGET_EVENT;
          COMMAND_ARG_TARGET_EVENTBYVAR; COMMAND_ARG_TARGET_FOLLOWER;
          COMMAND_ARG_TARGET_FOLLOWERBYVAR ] →
  ownProperty key (selectorEntries h currentEvent id) = None.
Proof.
  intros Hkey. rewrite !not_elem_of_cons in Hkey.
  destruct Hkey as (H1 & H2 & H3 & H4 & H5 & H6 & _).
  unfold selectorEntries, ownProperty.
  by rewrite !(proj2 (String.eqb_neq _ _)) by done.
Qed.

Lemma showBubble_no_character h text t duration blocking s :
  showBubble h text (VOther t) duration blocking s = (Throw TypeError, s).
Proof. unfold showBubble, bind. by rewrite initialize_eq. Qed.

(** X18. A selector that is none of the six documented names is taken
    as the key of an event: the command shows the bubble on
    [$gameMap._events[selector]].  When the selector is the name of a
    property that every object inherits, the command throws a
    [TypeError] instead, having written only [currentInterpreter]. *)
Theorem unlisted_selector_names_an_event h interp it args s :
  interpreters s !! interp = Some it →
  targetSelector args ∉
    [ COMMAND_ARG_TARGET_SELF; COMMAND_ARG_TARGET_PLAYER; COMMAND_ARG_TARGET_EVENT;
      COMMAND_ARG_TARGET_EVENTBYVAR; COMMAND_ARG_TARGET_FOLLOWER;
      COMMAND_ARG_TARGET_FOLLOWERBYVAR ] →
  (targetSelector args ∉ inheritedKeys →
     commandShow h interp args s
     = showBubble h (text args) (_events h (targetSelector args))
         (toNumber h (durationMs args))
         (String.eqb (toLowerCase (isBlocking args)) "true")
         (set_currentInterpreter (Some interp) s)) ∧
  (targetSelector args ∈ inheritedKeys →
     commandShow h interp args s
     = (Throw TypeError, set_currentInterpreter (Some interp) s)).
Proof.
  intros Hi Hkey. rewrite (commandShow_eq _ _ _ _ _ Hi).
  unfold selectorTable. rewrite (ownProperty_unlisted _ _ _ _ Hkey). split.
  - intros Hn. by rewrite bool_decide_eq_false_2.
  - intros Hin. rewrite bool_decide_eq_true_2 by done.
    apply showBubble_no_character.
Qed.

Lemma unlisted_selector_names_an_event_witness :
  commandShow Sample.host 0%nat (mkShowArgs "Hi" "3" "1" "0" "false") Sample.start
  = showBubble Sample.host "Hi" (VEvent 3) (Num.ofZ 0) false
      (set_currentInterpreter (Some 0%nat) Sample.start) ∧
  commandShow Sample.host 0%nat (mkShowArgs "Hi" "toString" "1" "0" "false") Sample.start
  = (Throw TypeError, set_currentInterpreter (Some 0%nat) Sample.start).
Proof.
  split.
  - apply (unlisted_selector_names_an_event Sample.host 0%nat (mkInterpreter 3 "")
             (mkShowArgs "Hi" "3" "1" "0" "false") Sample.start).
    + reflexivity.
    + cbn [targetSelector]. unfold inheritedKeys. intros H.
      repeat (apply elem_of_cons in H as [H|H]; [discriminate H|]).
      by apply elem_of_nil in H.
    + cbn [targetSelector]. unfold inheritedKeys. intros H.
      repeat (apply elem_of_cons in H as [H|H]; [discriminate H|]).
      by apply elem_of_nil in H.
  - apply (unlisted_selector_names_an_event Sample.host 0%nat (mkInterpreter 3 "")
             (mkShowArgs "Hi" "toString" "1" "0" "false") Sample.start).
    + reflexivity.
    + cbn [targetSelector]. unfold inheritedKeys. intros H.
      repeat (apply elem_of_cons in H as [H|H]; [discriminate H|]).
      by apply elem_of_nil in H.
    + cbn [targetSelector]. unfold inheritedKeys. rewrite !elem_of_cons. auto 10.
Defined.

(** ** What a command writes *)

Lemma showBubble_fields h text target duration blocking s s' :
  wf s →
  showBubble h text target duration blocking s = (Normal tt, s') →
  currentInterpreter s' = currentInterpreter s ∧
  if blocking
  then ∃ i, currentInterpreter s = Some i ∧
            blockingSpeechBubble s' = Some (nextBubble s) ∧
            interpreters s'
            = alter (λ it, mkInterpreter (_eventId it) WAITMODE_BUBBLE) i (interpreters s)
  else blockingSpeechBubble s' = blockingSpeechBubble s ∧
       interpreters s' = interpreters s.
Proof.
  intros Hwf Hshow.
  destruct (showBubble_closed _ _ _ _ _ _ _ Hwf Hshow) as (tid & pos & Ht & H).
  cbv zeta in H. destruct blocking.
  - destruct H as (i & it & Hci & Hit & ->).
    unfold constructed. destruct (activeBubbles s !! tid); simpl; eauto.
  - subst s'. unfold constructed. by destruct (activeBubbles s !! tid).
Qed.

Lemma commandShow_fields h interp args s s' :
  wf s →
  commandShow h interp args s = (Normal tt, s') →
  currentInterpreter s' = Some interp ∧
  if String.eqb (toLowerCase (isBlocking args)) "true"
  then blockingSpeechBubble s' = Some (nextBubble s) ∧
       interpreters s'
       = alter (λ it, mkInterpreter (_eventId it) WAITMODE_BUBBLE) interp (interpreters s)
  else blockingSpeechBubble s' = blockingSpeechBubble s ∧
       interpreters s' = interpreters s.
Proof.
  intros Hwf Hshow.
  destruct (commandShow_interpreter _ _ _ _ _ Hshow) as [it Hit].
  rewrite (commandShow_eq _ _ _ _ _ Hit) in Hshow.
  apply (wf_set_currentInterpreter (Some interp)) in Hwf.
  destruct (showBubble_fields _ _ _ _ _ _ _ Hwf Hshow) as [Hci H].
  split; [done|].
  destruct (String.eqb _ _); [|done].
  by destruct H as (i & [= <-] & ? & ?).
Qed.

(** X19. A [show] command that returns has recorded its interpreter as
    the current one.  With the blocking flag it tracks its own bubble and
    puts exactly that interpreter into the bubble wait mode; every other
    interpreter is untouched.  Without the flag it writes neither the
    tracked bubble nor any interpreter. *)
Theorem show_writes_only_its_interpreter h interp args s s' :
  reachable s →
  commandShow h interp args s = (Normal tt, s') →
  currentInterpreter s' = Some interp ∧
  if String.eqb (toLowerCase (isBlocking args)) "true"
  then blockingSpeechBubble s' = Some (nextBubble s) ∧
       interpreters s'
       = alter (λ it, mkInterpreter (_eventId it) WAITMODE_BUBBLE) interp (interpreters s)
  else blockingSpeechBubble s' = blockingSpeechBubble s ∧
       interpreters s' = interpreters s.
Proof. intros Hwf%reachable_wf. by apply commandShow_fields. Qed.

Lemma show_writes_only_its_interpreter_witness :
  blockingSpeechBubble Sample.crowded = blockingSpeechBubble Sample.ticked ∧
  interpreters Sample.crowded = interpreters Sample.ticked.
Proof.
  apply (show_writes_only_its_interpreter Sample.host 0%nat Sample.greeting
           Sample.ticked Sample.crowded ticked_reachable).
  vm_compute. reflexivity.
Defined.

(** ** One tracked bubble for all interpreters *)

(** X20. The blocking bubble is tracked in one place for all
    interpreters, and the wait check never resets the wait mode: an
    interpreter that is in the bubble wait mode, for instance since an
    earlier bubble of its own, waits for the blocking bubble that another
    interpreter shows, until that bubble expires. *)
Theorem bubble_wait_mode_follows_the_latest_blocking_show
    h j args base i it s s' :
  reachable s → i ≠ j →
  interpreters s !! i = Some it → _waitMode it = WAITMODE_BUBBLE →
  String.eqb (toLowerCase (isBlocking args)) "true" = true →
  commandShow h j args s = (Normal tt, s') →
  let visibleLength :=
    foldl Window_Bubble.flushTextState 0 (textStates h (text args)) in
  let T := Num.or (toNumber h (durationMs args))
             (Num.mul (Num.ofZ visibleLength) (Num.ofZ 150)) in
  blockingSpeechBubble s' = Some (nextBubble s) ∧
  interpreters s' !! i = Some it ∧
  (∀ dt, 0 ≤ dt →
     Game_Interpreter.updateWaitMode base i (advance dt s')
     = (Normal (bool_decide (dt < timerDelay T)), advance dt s')) ∧
  (∀ s2 it2, interpreters s2 !! i = Some it2 → _waitMode it2 = WAITMODE_BUBBLE →
     snd (Game_Interpreter.updateWaitMode base i s2) = s2).
Proof.
  intros Hwf%reachable_wf Hij Hi Hmode Hblocking Hshow visibleLength T.
  destruct (commandShow_fields _ _ _ _ _ Hwf Hshow) as [_ H].
  rewrite Hblocking in H. destruct H as [Hbl Hint].
  assert (interpreters s' !! i = Some it) as Hi'.
  { rewrite Hint. by rewrite lookup_alter_ne. }
  split; [done|]. split; [done|]. split.
  - intros dt Hdt.
    destruct (commandShow_interpreter _ _ _ _ _ Hshow) as [itj Hitj].
    rewrite (commandShow_eq _ _ _ _ _ Hitj) in Hshow.
    apply (wf_set_currentInterpreter (Some j)) in Hwf.
    destruct (show_then_advance _ _ _ _ _ _ _ dt Hwf Hshow) as (w' & Hw' & Hp').
    destruct (showBubble_inv _ _ _ _ _ _ _ Hwf Hshow) as (Hwf' & _).
    destruct (advance_fields dt s' Hwf') as (Hbl' & Hint' & _).
    rewrite (updateWaitMode_bubble base i it (nextBubble s) w');
      try done; try congruence.
    by rewrite (bool_decide_ext _ _ Hp').
  - intros s2 it2 Hi2 Hm2.
    unfold Game_Interpreter.updateWaitMode, bind, interpreter.
    rewrite Hi2, Hm2. simpl. unfold get.
    destruct (blockingSpeechBubble s2) as [b|]; [|done].
    unfold Window_Bubble.isActive, bind, Window_Bubble.this.
    by destruct (bubbles s2 !! b).
Qed.

Lemma first_reachable : reachable Trial.first.
Proof.
  exists {[ 0%nat := mkInterpreter 3 ""; 1%nat := mkInterpreter 3 "" ]}.
  eapply rtc_l; [apply (step_show Sample.host 0%nat Sample.hello)|]. apply rtc_refl.
Qed.

Lemma bubble_wait_mode_follows_the_latest_blocking_show_witness :
  Game_Interpreter.updateWaitMode (ret false) 0%nat (advance 2999 Trial.second)
  = (Normal true, advance 2999 Trial.second) ∧
  Game_Interpreter.updateWaitMode (ret false) 0%nat (advance 3000 Trial.second)
  = (Normal false, advance 3000 Trial.second).
Proof.
  destruct (bubble_wait_mode_follows_the_latest_blocking_show Sample.host 1%nat
              Trial.remark (ret false) 0%nat (mkInterpreter 3 "bubble")
              Trial.first Trial.second first_reachable)
    as (_ & _ & Hwait & _).
  - done.
  - vm_compute. reflexivity.
  - reflexivity.
  - reflexivity.
  - vm_compute. reflexivity.
  - split.
    + apply (Hwait 2999). lia.
    + apply (Hwait 3000). lia.
Defined.

(** ** Stacks and timers *)

Lemma filter_all {A} (P : A → Prop) `{!∀ x, Decision (P x)} (l : list A) :
  (∀ x, P x) → filter P l = l.
Proof.
  intros HP. induction l as [|a l IH]; [done|].
  by rewrite filter_cons_True, IH.
Qed.

Lemma remove_stackOf c s tid :
  wf s →
  stackOf (snd (Window_Bubble.remove c s)) tid = filter (λ x, x ≠ c) (stackOf s tid).
Proof.
  intros Hwf.
  assert (∀ l, activeBubbles s !! tid = Some l → c ∈ l →
               ∃ w sc, bubbles s !! c = Some w ∧ parent w = Some sc ∧
                       Window_Bubble.targetId (targetCharacter w) = Normal tid) as Hin.
  { intros l Hl Hc. destruct (wf_stack _ Hwf tid l Hl) as [_ Hst].
    destruct (Hst c Hc) as (w & Hw & Ht & _).
    destruct (wf_target _ Hwf c w Hw) as (tid' & l' & Ht' & Hl' & Hp).
    rewrite Ht in Ht'. injection Ht' as <-. rewrite Hl in Hl'. injection Hl' as <-.
    apply Hp in Hc as [sc Hsc]. by exists w, sc. }
  assert (∀ w, bubbles s !! c = Some w →
               parent w = None ∨
               Window_Bubble.targetId (targetCharacter w) ≠ Normal tid →
               c ∉ stackOf s tid) as Hout.
  { intros w Hw Hor Hc. unfold stackOf in Hc.
    destruct (activeBubbles s !! tid) as [l|] eqn:Hl; [|by apply elem_of_nil in Hc].
    destruct (Hin l eq_refl Hc) as (w' & sc & Hw' & Hp & Ht).
    rewrite Hw in Hw'. injection Hw' as <-. destruct Hor; congruence. }
  destruct (remove_outcome c s Hwf)
    as [[Hn ->]|[(w & Hw & Hp & ->)|(w & sc & tid0 & l0 & Hw & Hp & Ht & Hl & _ & ->)]];
    cbn [snd].
  - rewrite filter_ne_id; [done|]. intros Hc. unfold stackOf in Hc.
    destruct (activeBubbles s !! tid) as [l|] eqn:Hl; [|by apply elem_of_nil in Hc].
    destruct (Hin l eq_refl Hc) as (w & _ & Hw & _). congruence.
  - rewrite filter_ne_id; [done|]. eapply Hout; eauto.
  - unfold stackOf at 1. rewrite removed_stacks.
    destruct (decide (tid0 = tid)) as [->|Hne].
    + rewrite lookup_insert_eq. by rewrite (stackOf_lookup _ _ _ Hl).
    + rewrite lookup_insert_ne by done. fold (stackOf s tid).
      rewrite filter_ne_id; [done|]. eapply Hout; [done|]. right. congruence.
Qed.

Lemma fire_all_stackOf ts : ∀ s tid,
  wf s →
  stackOf (foldl fire s ts) tid = filter (λ x, x ∉ handler <$> ts) (stackOf s tid).
Proof.
  induction ts as [|t ts IH]; intros s tid Hwf.
  - simpl. symmetry. apply filter_all. intros x. apply not_elem_of_nil.
  - change (foldl fire s (t :: ts)) with (foldl fire (fire s t) ts).
    rewrite IH by by apply wf_remove.
    unfold fire. rewrite remove_stackOf, list_filter_filter by done.
    apply list_filter_iff. intros x. rewrite fmap_cons, not_elem_of_cons. tauto.
Qed.

Lemma advance_stackOf dt s tid :
  wf s →
  stackOf (advance dt s) tid
  = filter (λ x, x ∉ handler <$> filter (λ t, due t ≤ clock s + dt) (timers s))
      (stackOf s tid).
Proof.
  intros [H1 H2 H3 H4 H5]. unfold advance. rewrite fire_all_stackOf; [done|].
  split; try assumption.
  simpl. intros t [_ Ht]%list_elem_of_filter. by apply H4.
Qed.

Lemma showBubble_stackOf h text target duration blocking tid s s' :
  wf s →
  showBubble h text target duration blocking s = (Normal tt, s') →
  Window_Bubble.targetId target = Normal tid →
  stackOf s' tid = stackOf s tid ++ [nextBubble s].
Proof.
  intros Hwf Hshow Ht.
  destruct (showBubble_closed _ _ _ _ _ _ _ Hwf Hshow) as (tid' & pos & Ht' & H).
  rewrite Ht in Ht'. injection Ht' as <-. cbv zeta in H.
  assert (nextBubble s ∉ stackOf s tid) as Hfresh.
  { intros Hin. unfold stackOf in Hin.
    destruct (activeBubbles s !! tid) as [l|] eqn:Hl; [|by apply elem_of_nil in Hin].
    destruct (wf_stack _ Hwf tid l Hl) as [_ Hst].
    destruct (Hst _ Hin) as (w & Hw & _).
    assert (nextBubble s < nextBubble s)%nat; [|lia].
    apply (wf_fresh _ Hwf). eauto. }
  unfold stackOf at 1.
  assert (activeBubbles s'
          = <[tid := stackOf s tid ++ [nextBubble s]]>
              (activeBubbles (constructed h target text tid s))) as ->.
  { destruct blocking.
    - destruct H as (i & it & _ & _ & ->). simpl.
      by rewrite insert_insert_eq, filter_ne_id.
    - subst s'. simpl. by rewrite insert_insert_eq, filter_ne_id. }
  by rewrite lookup_insert_eq.
Qed.

(** An attached bubble with a timer is attached after [dt] milliseconds
    exactly when its timer has not fired. *)
Lemma timed_advance_attached b D0 D dt s :
  timed b D0 D s → attached s b →
  (attached (advance dt s) b ↔ clock s + dt < D) ∧
  (b ∈ handler <$> filter (λ t, due t ≤ clock s + dt) (timers s) ↔ D ≤ clock s + dt).
Proof.
  intros [H1 H2 H3 (w & Hw & Hp) H5 H6 H7] (w0 & Hw0 & Hp0).
  rewrite Hw in Hw0. injection Hw0 as <-.
  assert (pending b s) as Hpend by by apply Hp.
  assert (b ∈ handler <$> filter (λ t, due t ≤ clock s + dt) (timers s)
          ↔ D ≤ clock s + dt) as Hfired.
  { rewrite list_elem_of_fmap. split.
    - intros (t & Hb & [Hd Hin]%list_elem_of_filter). by rewrite <- (H5 t Hin).
    - intros Hd. destruct Hpend as (t & Hin & Hb). exists t. split; [done|].
      apply list_elem_of_filter. split; [|done]. by rewrite (H5 t Hin). }
  split; [|done].
  destruct (advance_parent dt s b w H1 Hw) as (w' & Hw' & Hp').
  rewrite (attached_isActive _ _ _ Hw'), Hp'.
  destruct (decide (b ∈ handler <$> _)) as [Hin|Hnin].
  - apply Hfired in Hin. split; [by intros []|lia].
  - split; [|done]. intros _.
    destruct (Z_lt_le_dec (clock s + dt) D) as [|Hle]; [done|].
    by apply Hfired in Hle.
Qed.

(** ** Two commands on one target *)

Lemma commandShow_timed h interp args s s' :
  wf s →
  commandShow h interp args s = (Normal tt, s') →
  let b := nextBubble s in
  let len := foldl Window_Bubble.flushTextState 0 (textStates h (text args)) in
  let D := timerDelay (Num.or (toNumber h (durationMs args))
                         (Num.mul (Num.ofZ len) (Num.ofZ 150))) in
  wf s' ∧ clock s' = clock s ∧ nextBubble s' = S (nextBubble s) ∧
  timed b (clock s) (clock s + D) s' ∧ attached s' b ∧
  ∀ tid, targets s' b tid → stackOf s' tid = stackOf s tid ++ [b].
Proof.
  intros Hwf Hshow b len D.
  destruct (commandShow_interpreter _ _ _ _ _ Hshow) as [it Hit].
  rewrite (commandShow_eq _ _ _ _ _ Hit) in Hshow.
  apply (wf_set_currentInterpreter (Some interp)) in Hwf.
  destruct (showBubble_inv _ _ _ _ _ _ _ Hwf Hshow)
    as (Hwf' & (w & Hw & Htc & _ & Hp & _) & _ & Hclk & _ & Hn & _).
  split; [done|]. split; [done|]. split; [done|].
  split; [apply (show_timed _ _ _ _ _ _ _ Hwf Hshow)|].
  split; [exists w; split; [done|by rewrite Hp]|].
  intros tid (w' & Hw' & Ht).
  change (nextBubble (set_currentInterpreter (Some interp) s)) with b in Hw.
  rewrite Hw in Hw'. injection Hw' as <-. rewrite Htc in Ht.
  apply (showBubble_stackOf _ _ _ _ _ _ _ _ Hwf Hshow Ht).
Qed.

(** X21. When two commands show bubbles on the same target one after
    the other, the later bubble is displayed while it lasts.  If it
    expires first, the earlier bubble is displayed again until its own
    expiry.  Each of the two bubbles is attached until its own delay has
    elapsed and detached from then on, whichever delay is the longer. *)
Theorem covered_bubble_reappears h1 h2 i1 i2 args1 args2 tid s s1 s2 :
  reachable s →
  commandShow h1 i1 args1 s = (Normal tt, s1) →
  commandShow h2 i2 args2 s1 = (Normal tt, s2) →
  let b1 := nextBubble s in
  let b2 := nextBubble s1 in
  targets s1 b1 tid → targets s2 b2 tid →
  let D1 :=
    timerDelay
      (Num.or (toNumber h1 (durationMs args1))
         (Num.mul
            (Num.ofZ (foldl Window_Bubble.flushTextState 0 (textStates h1 (text args1))))
            (Num.ofZ 150))) in
  let D2 :=
    timerDelay
      (Num.or (toNumber h2 (durationMs args2))
         (Num.mul
            (Num.ofZ (foldl Window_Bubble.flushTextState 0 (textStates h2 (text args2))))
            (Num.ofZ 150))) in
  ∀ dt, 0 ≤ dt →
    (dt < D2 → displayed (advance dt s2) b2) ∧
    (D2 ≤ dt → ¬ attached (advance dt s2) b2) ∧
    (dt < D1 → attached (advance dt s2) b1) ∧
    (D2 ≤ dt → dt < D1 → displayed (advance dt s2) b1) ∧
    (D1 ≤ dt → ¬ attached (advance dt s2) b1).
Proof.
  intros Hwf%reachable_wf Hshow1 Hshow2 b1 b2 Ht1 Ht2 D1 D2 dt Hdt.
  destruct (commandShow_timed _ _ _ _ _ Hwf Hshow1)
    as (Hwf1 & Hclk1 & Hn1 & Htimed1 & Hatt1 & Hst1).
  destruct (commandShow_timed _ _ _ _ _ Hwf1 Hshow2)
    as (Hwf2 & Hclk2 & Hn2 & Htimed2 & Hatt2 & Hst2).
  fold b1 D1 in Htimed1, Hatt1, Hst1. fold b2 D2 in Htimed2, Hatt2, Hst2.
  assert (b2 = S b1) as Hb by done.
  (* the earlier bubble, after the later command *)
  pose proof (timed_commandShow b1 (clock s) (clock s + D1) h2 i2 args2 s1 Htimed1)
    as Htimed12.
  rewrite Hshow2 in Htimed12. cbn [snd] in Htimed12.
  assert (attached s2 b1) as Hatt12.
  { destruct (timed_attached _ _ _ _ Htimed1) as (w & Hw & Hp).
    destruct (timed_attached _ _ _ _ Htimed12) as (w2 & Hw2 & Hp2).
    exists w2. split; [done|]. apply Hp2.
    destruct Hatt1 as (w' & Hw' & Hp'). rewrite Hw in Hw'. injection Hw' as <-.
    apply Hp in Hp' as (t & Hin & Hh).
    destruct (commandShow_interpreter _ _ _ _ _ Hshow2) as [it Hit].
    rewrite (commandShow_eq _ _ _ _ _ Hit) in Hshow2.
    destruct (showBubble_inv _ _ _ _ _ _ _
                (wf_set_currentInterpreter (Some i2) _ Hwf1) Hshow2)
      as (_ & _ & Htim & _).
    exists t. split; [|done]. rewrite Htim. apply elem_of_enqueue. by right. }
  destruct (timed_advance_attached _ _ _ dt _ Htimed12 Hatt12) as [Ha1 Hf1].
  destruct (timed_advance_attached _ _ _ dt _ Htimed2 Hatt2) as [Ha2 Hf2].
  rewrite Hclk2, Hclk1 in Ha1, Hf1. rewrite Hclk2 in Ha2, Hf2. rewrite Hclk1 in Ha2, Hf2.
  pose proof (wf_advance dt s2 Hwf2) as Hwf3.
  pose proof (advance_stackOf dt s2 tid Hwf2) as Hst3.
  rewrite (Hst2 tid Ht2), (Hst1 tid Ht1), <- app_assoc in Hst3.
  rewrite Hclk2, Hclk1 in Hst3.
  split; [|split; [|split; [|split]]].
  - intros Hlt. apply (wf_top_displayed _ _ tid Hwf3). rewrite Hst3.
    apply last_filter_keep.
    + rewrite app_assoc. apply last_snoc.
    + rewrite Hf2. lia.
  - intros Hle. rewrite Ha2. lia.
  - intros Hlt. apply Ha1. lia.
  - intros Hle Hlt. apply (wf_top_displayed _ _ tid Hwf3). rewrite Hst3.
    rewrite app_assoc, filter_app.
    rewrite (filter_cons_False _ b2) by (intros Hn; apply Hn, Hf2; lia).
    rewrite filter_nil, app_nil_r.
    apply last_filter_keep; [apply last_snoc|]. rewrite Hf1. lia.
  - intros Hle. rewrite Ha1. lia.
Qed.

Lemma remarked_reachable : reachable Trial.remarked.
Proof.
  exists {[ 0%nat := mkInterpreter 3 "" ]}.
  eapply rtc_l; [apply (step_show Sample.host 0%nat Trial.remark)|]. apply rtc_refl.
Qed.

Lemma greeted_reachable : reachable Trial.greeted.
Proof.
  exists {[ 0%nat := mkInterpreter 3 "" ]}.
  eapply rtc_l; [apply (step_show Sample.host 0%nat Sample.greeting)|]. apply rtc_refl.
Qed.

Lemma covered_bubble_reappears_witness :
  (displayed (advance 499 Trial.covered) 1%nat ∧
   displayed (advance 500 Trial.covered) 0%nat ∧
   ¬ attached (advance 500 Trial.covered) 1%nat ∧
   ¬ attached (advance 3000 Trial.covered) 0%nat ∧
   ¬ attached (advance 3000 Trial.covered) 1%nat) ∧
  (displayed (advance 499 Trial.outlasted) 1%nat ∧
   attached (advance 499 Trial.outlasted) 0%nat ∧
   ¬ attached (advance 500 Trial.outlasted) 0%nat ∧
   displayed (advance 2999 Trial.outlasted) 1%nat ∧
   ¬ attached (advance 3000 Trial.outlasted) 1%nat).
Proof.
  pose proof (covered_bubble_reappears Sample.host Sample.host 0%nat 0%nat
                Trial.remark Sample.greeting "e3" Sample.start Trial.remarked
                Trial.covered start_reachable) as H.
  pose proof (covered_bubble_reappears Sample.host Sample.host 0%nat 0%nat
                Sample.greeting Trial.remark "e3" Sample.start Trial.greeted
                Trial.outlasted start_reachable) as G.
  assert (∀ dt, 0 ≤ dt →
            (dt < 500 → displayed (advance dt Trial.covered) 1%nat) ∧
            (500 ≤ dt → ¬ attached (advance dt Trial.covered) 1%nat) ∧
            (dt < 3000 → attached (advance dt Trial.covered) 0%nat) ∧
            (500 ≤ dt → dt < 3000 → displayed (advance dt Trial.covered) 0%nat) ∧
            (3000 ≤ dt → ¬ attached (advance dt Trial.covered) 0%nat)) as H'.
  { apply H.
    - vm_compute. reflexivity.
    - vm_compute. reflexivity.
    - eexists. split; vm_compute; reflexivity.
    - eexists. split; vm_compute; reflexivity. }
  assert (∀ dt, 0 ≤ dt →
            (dt < 3000 → displayed (advance dt Trial.outlasted) 1%nat) ∧
            (3000 ≤ dt → ¬ attached (advance dt Trial.outlasted) 1%nat) ∧
            (dt < 500 → attached (advance dt Trial.outlasted) 0%nat) ∧
            (3000 ≤ dt → dt < 500 → displayed (advance dt Trial.outlasted) 0%nat) ∧
            (500 ≤ dt → ¬ attached (advance dt Trial.outlasted) 0%nat)) as G'.
  { apply G.
    - vm_compute. reflexivity.
    - vm_compute. reflexivity.
    - eexists. split; vm_compute; reflexivity.
    - eexists. split; vm_compute; reflexivity. }
  destruct (H' 499 ltac:(lia)) as (A1 & _).
  destruct (H' 500 ltac:(lia)) as (_ & B2 & _ & B4 & _).
  destruct (H' 3000 ltac:(lia)) as (_ & C2 & _ & _ & C5).
  destruct (G' 499 ltac:(lia)) as (D1 & _ & D3 & _).
  destruct (G' 500 ltac:(lia)) as (_ & _ & _ & _ & E5).
  destruct (G' 2999 ltac:(lia)) as (F1 & _).
  destruct (G' 3000 ltac:(lia)) as (_ & G2 & _).
  split.
  - split; [exact (A1 ltac:(lia))|]. split; [exact (B4 ltac:(lia) ltac:(lia))|].
    split; [exact (B2 ltac:(lia))|].
    split; [exact (C5 ltac:(lia))|exact (C2 ltac:(lia))].
  - split; [exact (D1 ltac:(lia))|]. split; [exact (D3 ltac:(lia))|].
    split; [exact (E5 ltac:(lia))|].
    split; [exact (F1 ltac:(lia))|exact (G2 ltac:(lia))].
Defined.

(** ** The [script] command *)

Lemma commandScript_eq interp script s :
  commandScript interp script s = script (set_currentInterpreter (Some interp) s).
Proof. reflexivity. Qed.

(** X22. A script that calls [showBubble] with the blocking flag, run
    by the [script] command, blocks the interpreter that runs the command:
    that interpreter is the current one, it alone is put into the bubble
    wait mode, and its wait check holds until the bubble expires. *)
Theorem script_show_blocks_its_interpreter h interp text target duration base s s' :
  reachable s →
  commandScript interp (showBubble h text target duration true) s = (Normal tt, s') →
  let len := foldl Window_Bubble.flushTextState 0 (textStates h text) in
  let T := Num.or duration (Num.mul (Num.ofZ len) (Num.ofZ 150)) in
  currentInterpreter s' = Some interp ∧
  blockingSpeechBubble s' = Some (nextBubble s) ∧
  interpreters s'
  = alter (λ it, mkInterpreter (_eventId it) WAITMODE_BUBBLE) interp (interpreters s) ∧
  ∀ dt, 0 ≤ dt →
    Game_Interpreter.updateWaitMode base interp (advance dt s')
    = (Normal (bool_decide (dt < timerDelay T)), advance dt s').
Proof.
  intros Hwf%reachable_wf Hshow len T. rewrite commandScript_eq in Hshow.
  apply (wf_set_currentInterpreter (Some interp)) in Hwf.
  destruct (showBubble_fields _ _ _ _ _ _ _ Hwf Hshow)
    as (Hci & i & [= <-] & Hbl & Hint).
  split; [done|]. split; [done|]. split; [done|].
  intros dt Hdt.
  destruct (showBubble_inv _ _ _ _ _ _ _ Hwf Hshow)
    as (Hwf' & _ & _ & _ & _ & _ & _ & (i & it' & [= <-] & Hit' & Hmode)).
  destruct (show_then_advance _ _ _ _ _ _ _ dt Hwf Hshow) as (w' & Hw' & Hp').
  destruct (advance_fields dt s' Hwf') as (Hbl' & Hint' & _).
  change (nextBubble (set_currentInterpreter (Some interp) s)) with (nextBubble s) in *.
  rewrite (updateWaitMode_bubble base interp it' (nextBubble s) w');
    try done; try congruence.
  by rewrite (bool_decide_ext _ _ Hp').
Qed.

Lemma script_show_blocks_its_interpreter_witness :
  Game_Interpreter.updateWaitMode (ret false) 0%nat
    (advance 1499
       (snd (commandScript 0%nat
               (showBubble Sample.host "0123456789" (VEvent 3) (Num.ofZ 0) true)
               Sample.start)))
  = (Normal true,
     advance 1499
       (snd (commandScript 0%nat
               (showBubble Sample.host "0123456789" (VEvent 3) (Num.ofZ 0) true)
               Sample.start))).
Proof.
  destruct (script_show_blocks_its_interpreter Sample.host 0%nat "0123456789"
              (VEvent 3) (Num.ofZ 0) (ret false) Sample.start
              (snd (commandScript 0%nat
                      (showBubble Sample.host "0123456789" (VEvent 3) (Num.ofZ 0) true)
                      Sample.start)) start_reachable)
    as (_ & _ & _ & Hwait).
  - vm_compute. reflexivity.
  - apply (Hwait 1499). lia.
Defined.

(** ** A text without visible characters *)

(** X23. A [show] command whose text has no visible character and whose
    duration is 0 or not a number gets a delay of 0: the bubble is attached
    when the command returns and detached as soon as timers run, so a
    blocking command of this kind does not make the event wait. *)
Theorem empty_text_is_gone_at_once h interp args s s' :
  reachable s →
  commandShow h interp args s = (Normal tt, s') →
  Num.truthy (toNumber h (durationMs args)) = false →
  foldl Window_Bubble.flushTextState 0 (textStates h (text args)) = 0 →
  attached s' (nextBubble s) ∧
  ∀ dt, 0 ≤ dt → ¬ attached (advance dt s') (nextBubble s).
Proof.
  intros Hwf%reachable_wf Hshow Hd Hlen.
  destruct (commandShow_interpreter _ _ _ _ _ Hshow) as [it Hit].
  rewrite (commandShow_eq _ _ _ _ _ Hit) in Hshow.
  apply (wf_set_currentInterpreter (Some interp)) in Hwf.
  destruct (showBubble_inv _ _ _ _ _ _ _ Hwf Hshow)
    as (_ & (w & Hw & _ & _ & Hp & _) & _).
  split; [exists w; split; [done|by rewrite Hp]|].
  intros dt Hdt (w2 & Hw2 & Hp2).
  destruct (show_then_advance _ _ _ _ _ _ _ dt Hwf Hshow) as (w' & Hw' & Hp').
  change (nextBubble (set_currentInterpreter (Some interp) s)) with (nextBubble s) in Hw'.
  rewrite Hw2 in Hw'. injection Hw' as <-.
  apply Hp' in Hp2. rewrite Hlen in Hp2. unfold Num.or in Hp2. rewrite Hd in Hp2.
  vm_compute in Hp2. destruct dt; done.
Qed.

Lemma empty_text_is_gone_at_once_witness :
  attached (snd (commandShow Sample.host 0%nat Trial.silent Sample.start)) 0%nat ∧
  ¬ attached (advance 0 (snd (commandShow Sample.host 0%nat Trial.silent Sample.start)))
      0%nat.
Proof.
  destruct (empty_text_is_gone_at_once Sample.host 0%nat Trial.silent Sample.start
              (snd (commandShow Sample.host 0%nat Trial.silent Sample.start))
              start_reachable)
    as [Hnow Hlater].
  - vm_compute. reflexivity.
  - reflexivity.
  - reflexivity.
  - split; [done|]. apply Hlater. lia.
Defined.

(** ** The visible length *)

Lemma flushTextState_sum l : ∀ acc,
  foldl Window_Bubble.flushTextState acc l
  = acc + Z.of_nat (sum_list ((λ ts, String.length (buffer ts)) <$> l))
    - Z.of_nat (length (filter (λ ts, rtl ts = true) l)).
Proof.
  induction l as [|ts l IH]; intros acc; [simpl; lia|].
  simpl foldl. rewrite IH. unfold Window_Bubble.flushTextState.
  rewrite fmap_cons. simpl sum_list. destruct (rtl ts) eqn:E.
  - rewrite filter_cons_True by done. simpl length. lia.
  - rewrite filter_cons_False by (by rewrite E). lia.
Qed.

(** X24. The length a bubble records for its text is the number of
    characters that were flushed while drawing it, less one for each
    right-to-left run; it is the number of characters the automatic
    duration counts. *)
Theorem textLength_counts_the_flushed_characters h target text s b s' :
  Window_Bubble.initialize h target text s = (Normal b, s') →
  ∃ w, bubbles s' !! b = Some w ∧
       textLength w
       = Z.of_nat (sum_list ((λ ts, String.length (buffer ts)) <$> textStates h text))
         - Z.of_nat (length (filter (λ ts, rtl ts = true) (textStates h text))).
Proof.
  rewrite initialize_eq.
  destruct (Window_Bubble.targetId target) as [tid|e]; [|done].
  intros [= <- <-].
  destruct (constructed_fields h target text tid s) as (-> & _).
  eexists. rewrite lookup_insert_eq. split; [done|].
  simpl. by rewrite flushTextState_sum.
Qed.

Lemma textLength_counts_the_flushed_characters_witness :
  ∃ w, bubbles Sample.constructed !! 0%nat = Some w ∧ textLength w = 10.
Proof.
  apply (textLength_counts_the_flushed_characters Sample.host VPlayer "0123456789"
           Sample.start 0%nat Sample.constructed).
  vm_compute. reflexivity.
Defined.

(** ** Calls that return *)

(** X25. The callback of a pending timer returns in every state of a
    run: [remove] finds its bubble and the stack of the bubble's target. *)
Theorem expiry_callback_returns s t :
  reachable s → t ∈ timers s →
  ∃ s', Window_Bubble.remove (handler t) s = (Normal tt, s').
Proof.
  intros Hs%reachable_sound Ht. apply remove_returns; [done|].
  by apply (wf_timers _ (sound_wf _ Hs)).
Qed.

Lemma expiry_callback_returns_witness :
  ∃ s', Window_Bubble.remove 0 Sample.shown = (Normal tt, s').
Proof.
  apply (expiry_callback_returns Sample.shown
           (mkTimer 0%nat (Num.mul (Num.ofZ 10) (Num.ofZ 150)) 1500)).
  - eexists. eapply rtc_l; [apply (step_show Sample.host 0%nat Sample.hello)|].
    apply rtc_refl.
  - assert (timers Sample.shown
            = [mkTimer 0%nat (Num.mul (Num.ofZ 10) (Num.ofZ 150)) 1500]) as ->
      by (vm_compute; reflexivity).
    by apply list_elem_of_singleton.
Defined.

Lemma addTo_returns h c scene s w :
  wf s → bubbles s !! c = Some w →
  is_Some (Window_Bubble.characterSprite h w) →
  ∃ s', Window_Bubble.addTo h c scene s = (Normal tt, s').
Proof.
  intros Hwf Hw Hsp. destruct (parent w) as [sc|] eqn:Hp.
  - exists s. eapply addTo_attached; [done|]. by rewrite Hp.
  - destruct (wf_target _ Hwf c w Hw) as (tid & l & Ht & Hl & _).
    destruct (targetPosition_sprite h w Hsp) as [pos Hpos].
    eexists. by eapply addTo_detached.
Qed.

Lemma forEach_visit_returns h l : ∀ s,
  sound s →
  (∀ b, b ∈ l → (b < nextBubble s)%nat) →
  (∀ b w, b ∈ l → bubbles s !! b = Some w →
          is_Some (Window_Bubble.characterSprite h w)) →
  ∃ s', forEach l (visit h) s = (Normal tt, s').
Proof.
  induction l as [|a l IH]; intros s Hs Hold Hsp; [by exists s|].
  destruct (sound_bubble _ Hs a) as [w Hw]; [apply Hold; by left|].
  assert (∃ s1, visit h a s = (Normal tt, s1)) as [s1 H1].
  { destruct (wf_target _ (sound_wf _ Hs) a w Hw) as (tid & la & Ht & Hl & _).
    rewrite (visit_eq _ _ _ _ _ _ Hw Ht Hl). destruct (_ && _).
    - eapply addTo_returns; [apply Hs|done|]. eapply Hsp; [by left|done].
    - apply remove_returns; [done|]. apply Hold. by left. }
  pose proof (sound_visit h a s Hs) as Hs1.
  destruct (forEach_visit_fields h [a] s (sound_wf _ Hs)) as (Hn & _).
  simpl in Hn. unfold bind in Hn. rewrite H1 in Hs1, Hn. simpl in Hs1, Hn.
  destruct (IH s1 Hs1) as [s' H'].
  - intros b Hb. rewrite Hn. apply Hold. by right.
  - intros b w1 Hb Hw1.
    assert (is_Some (bubbles s !! b)) as [w0 Hw0].
    { apply (sound_bubble _ Hs). apply Hold. by right. }
    destruct (visit_bubble h a s b w0 (sound_wf _ Hs) Hw0) as (w2 & Hw2 & Htc & _).
    rewrite H1 in Hw2. simpl in Hw2. rewrite Hw1 in Hw2. injection Hw2 as <-.
    rewrite (characterSprite_target h w0 w1 Htc). eapply Hsp; [by right|done].
  - exists s'. simpl. unfold bind. by rewrite H1.
Qed.

(** X26. In a state of a run a tick returns whenever the target of
    every notetag bubble has a sprite in the scene: it can only fail in
    [addTo], on a target without a sprite. *)
Theorem tick_returns_when_targets_have_sprites h s :
  reachable s →
  (∀ b w, b ∈ speechBubbles s → bubbles s !! b = Some w →
          is_Some (Window_Bubble.characterSprite h w)) →
  ∃ s', Game_Player.updateAnimation h s = (Normal tt, s').
Proof.
  intros Hs%reachable_sound Hsp. rewrite updateAnimation_eq.
  apply forEach_visit_returns; [done| |done].
  apply (wf_notetag _ (sound_wf _ Hs)).
Qed.

Lemma tick_returns_when_targets_have_sprites_witness :
  ∃ s', Game_Player.updateAnimation Sample.host Sample.crowded = (Normal tt, s').
Proof.
  apply (tick_returns_when_targets_have_sprites Sample.host Sample.crowded
           crowded_reachable).
  intros b w Hb Hw.
  assert (speechBubbles Sample.crowded = [1%nat]) as E by (vm_compute; reflexivity).
  rewrite E in Hb. apply list_elem_of_singleton in Hb as ->.
  vm_compute in Hw. injection Hw as <-. vm_compute. eauto.
Defined.

(** ** A command bubble over a notetag bubble *)

Lemma visit_under h a c tid s s1 :
  wf s → last (stackOf s tid) = Some c → a ≠ c →
  visit h a s = (Normal tt, s1) →
  last (stackOf s1 tid) = Some c ∧
  (targets s a tid → ∃ w, bubbles s1 !! a = Some w ∧ parent w = None).
Proof.
  intros Hwf Htop Hac Hv.
  destruct (visit_Normal _ _ _ _ Hwf Hv) as (wa & tida & la & Hwa & Hta & Hla & _).
  destruct (decide (tida = tid)) as [->|Htid].
  - rewrite (visit_shows _ _ _ _ _ _ Hwa Hta Hla) in Hv.
    rewrite (stackOf_lookup _ _ _ Hla) in Htop.
    assert (shows h a wa la = false) as Hgo.
    { unfold shows. rewrite Htop. rewrite bool_decide_eq_true_2 by done.
      apply andb_false_r. }
    rewrite Hgo in Hv.
    assert (s1 = snd (Window_Bubble.remove a s)) as -> by by rewrite Hv.
    split.
    + rewrite remove_stackOf, (stackOf_lookup _ _ _ Hla) by done.
      by apply last_filter_keep.
    + intros _. destruct (remove_bubble a s a wa Hwf Hwa) as (w' & Hw' & _ & Hp & _).
      exists w'. split; [done|]. by rewrite decide_True in Hp.
  - assert (s1 = snd (visit h a s)) as -> by by rewrite Hv.
    split.
    + unfold stackOf. rewrite (visit_stack h a s wa tid Hwf Hwa); [done|congruence].
    + intros (w & Hw & Ht). congruence.
Qed.

Lemma tick_under h tid c l : ∀ s s' n,
  wf s → last (stackOf s tid) = Some c → c ∉ l →
  targets s n tid → n ∈ l ∨ ¬ attached s n →
  forEach l (visit h) s = (Normal tt, s') →
  wf s' ∧ ¬ attached s' n ∧ last (stackOf s' tid) = Some c.
Proof.
  induction l as [|a l IH]; intros s s' n Hwf Htop Hc Hn Hin Hrun.
  - injection Hrun as <-. destruct Hin as [Hin|Hin]; [by apply elem_of_nil in Hin|done].
  - apply not_elem_of_cons in Hc as [Hca Hc].
    apply forEach_cons_inv in Hrun as (s1 & Ha & Hrun).
    destruct (visit_under h a c tid s s1 Hwf Htop) as [Htop1 Hgone]; [done..|].
    assert (s1 = snd (visit h a s)) as Hs1 by by rewrite Ha.
    apply (IH s1 s' n); try done.
    + subst s1. by apply wf_visit.
    + subst s1. by apply visit_targets.
    + destruct (decide (a = n)) as [->|Hne].
      * right. destruct (Hgone Hn) as (w & Hw & Hp).
        intros (w' & Hw' & [p Hp']). congruence.
      * destruct Hin as [Hin|Hin].
        -- left. apply elem_of_cons in Hin as [->|Hin]; done.
        -- right. intros (w1 & Hw1 & Hp1). apply Hin.
           destruct Hn as (w & Hw & _).
           destruct (visit_bubble h a s n w Hwf Hw) as (w2 & Hw2 & _ & Hpar & _).
           rewrite <- Hs1 in Hw2. rewrite Hw1 in Hw2. injection Hw2 as <-.
           exists w. split; [done|]. by rewrite <- (Hpar Hne).
Qed.

(** X27. While a bubble that is not a notetag bubble is the last of a
    target's stack, for instance the bubble of a command on an event, a
    tick that returns takes every notetag bubble of that target off the
    scene, whatever the distance of the player, and the covering bubble
    stays displayed. *)
Theorem command_bubble_suppresses_the_notetag_bubble h s s' n c tid :
  reachable s →
  n ∈ speechBubbles s → c ∉ speechBubbles s →
  targets s n tid → last (stackOf s tid) = Some c →
  Game_Player.updateAnimation h s = (Normal tt, s') →
  ¬ attached s' n ∧ displayed s' c.
Proof.
  intros Hwf%reachable_wf Hn Hc Ht Htop Hrun. rewrite updateAnimation_eq in Hrun.
  destruct (tick_under h tid c (speechBubbles s) s s' n Hwf Htop Hc Ht)
    as (Hwf' & Hgone & Htop'); [by left|done|].
  split; [done|]. by apply (wf_top_displayed _ _ tid Hwf' Htop').
Qed.

Lemma command_bubble_suppresses_the_notetag_bubble_witness :
  ¬ attached (snd (Game_Player.updateAnimation Sample.host Sample.crowded)) 1%nat ∧
  displayed (snd (Game_Player.updateAnimation Sample.host Sample.crowded)) 2%nat.
Proof.
  apply (command_bubble_suppresses_the_notetag_bubble Sample.host Sample.crowded
           (snd (Game_Player.updateAnimation Sample.host Sample.crowded))
           1%nat 2%nat "e3" crowded_reachable).
  - vm_compute. by left.
  - vm_compute. intros [E|E]%elem_of_cons; [done|by apply elem_of_nil in E].
  - eexists. split; vm_compute; reflexivity.
  - vm_compute. reflexivity.
  - vm_compute. reflexivity.
Defined.

(** ** The key of a stack *)

(** X1. The key of a bubble's stack is made of the class of its
    target and the target's index, and of nothing else: [e] and the event
    id, [f] and the member index, or [p].  In a state of a run two attached
    bubbles are in the same stack exactly when their targets are of the
    same class and have the same index. *)
Theorem stack_is_keyed_by_class_and_index s a b wa wb :
  reachable s →
  bubbles s !! a = Some wa → bubbles s !! b = Some wb →
  is_Some (parent wa) → is_Some (parent wb) →
  ((∃ tid, a ∈ stackOf s tid ∧ b ∈ stackOf s tid) ↔
   match targetCharacter wa, targetCharacter wb with
   | VEvent i, VEvent j => i = j
   | VFollower i, VFollower j => i = j
   | VPlayer, VPlayer => True
   | _, _ => False
   end) ∧
  (∀ tid, a ∈ stackOf s tid ↔
     Window_Bubble.targetId (targetCharacter wa) = Normal tid) ∧
  match targetCharacter wa with
  | VEvent i => a ∈ stackOf s ("e" +:+ pretty i)
  | VFollower i => a ∈ stackOf s ("f" +:+ pretty i)
  | VPlayer => a ∈ stackOf s "p"
  | _ => False
  end.
Proof.
  intros Hwf%reachable_wf Ha Hb Hpa Hpb.
  destruct (wf_target _ Hwf a wa Ha) as (tida & la & Hta & Hla & Hina).
  destruct (wf_target _ Hwf b wb Hb) as (tidb & lb & Htb & Hlb & Hinb).
  apply Hina in Hpa. apply Hinb in Hpb.
  assert (∀ c w tid, bubbles s !! c = Some w → c ∈ stackOf s tid →
                     Window_Bubble.targetId (targetCharacter w) = Normal tid) as Hkey.
  { intros c w tid Hc Hin. unfold stackOf in Hin.
    destruct (activeBubbles s !! tid) as [l|] eqn:Hl; [|by apply elem_of_nil in Hin].
    by apply (wf_stack_targets s tid l c w). }
  split; [|split].
  - split.
    + intros (tid & Hina' & Hinb').
      pose proof (targetId_inj _ _ _ (Hkey _ _ _ Ha Hina') (Hkey _ _ _ Hb Hinb')) as E.
      rewrite E. by destruct (targetCharacter wb).
    + intros Hsame. exists tida. rewrite (stackOf_lookup _ _ _ Hla). split; [done|].
      assert (tidb = tida) as ->.
      { destruct (targetCharacter wa), (targetCharacter wb); try done;
          simpl in Hta, Htb; subst; congruence. }
      rewrite Hla in Hlb. by injection Hlb as <-.
  - intros tid. split; [by apply Hkey|].
    intros Ht. rewrite Hta in Ht. injection Ht as <-.
    by rewrite (stackOf_lookup _ _ _ Hla).
  - destruct (targetCharacter wa); try done; simpl in Hta; injection Hta as <-;
      by rewrite (stackOf_lookup _ _ _ Hla).
Qed.

Lemma stack_is_keyed_by_class_and_index_witness :
  (∃ tid, 1%nat ∈ stackOf Sample.crowded tid ∧ 2%nat ∈ stackOf Sample.crowded tid) ∧
  ¬ (∃ tid, 0%nat ∈ stackOf Sample.crowded tid ∧ 2%nat ∈ stackOf Sample.crowded tid) ∧
  2%nat ∈ stackOf Sample.crowded "e3" ∧ 0%nat ∈ stackOf Sample.crowded "p".
Proof.
  destruct (bubbles Sample.crowded !! 0%nat) as [w0|] eqn:E0; [|by vm_compute in E0].
  destruct (bubbles Sample.crowded !! 1%nat) as [w1|] eqn:E1; [|by vm_compute in E1].
  destruct (bubbles Sample.crowded !! 2%nat) as [w2|] eqn:E2; [|by vm_compute in E2].
  pose proof (stack_is_keyed_by_class_and_index Sample.crowded 1 2 w1 w2
                crowded_reachable E1 E2) as H12.
  pose proof (stack_is_keyed_by_class_and_index Sample.crowded 0 2 w0 w2
                crowded_reachable E0 E2) as H02.
  pose proof (stack_is_keyed_by_class_and_index Sample.crowded 2 0 w2 w0
                crowded_reachable E2 E0) as H20.
  vm_compute in E0, E1, E2.
  injection E0 as <-. injection E1 as <-. injection E2 as <-.
  destruct H12 as (H12 & _); [vm_compute; eauto..|].
  destruct H02 as (H02 & _ & Hp); [vm_compute; eauto..|].
  destruct H20 as (_ & _ & He); [vm_compute; eauto..|].
  split; [by apply H12|]. split; [by intros H%H02|]. split; [exact He|exact Hp].
Defined.
